(** * Vid-ODE discriminator ([models/gan.py]): shallow embedding and properties

    Tensors are modelled as the framework stores them once made contiguous:
    a shape, the entries in row-major order, and the set of autograd leaves
    the tensor is attached to.  The entry type is a parameter; where the
    code computes with entries, their arithmetic is an interface
    ([Scalar]) that stands for float32, the dtype in which the module
    creates its parameters, its mask and its labels and which the tensors
    given to it have.

    Tensors carry no device of their own.  The tensors a call is given
    live on one device, which the call is told ([inputs_on]) together
    with the CUDA devices of the machine; a module records where its
    parameters live.  What the code moves itself (the mask to the current
    CUDA device, the labels to [self.device], the modules to [device]) is
    followed, and an operation across two devices raises. *)

From Stdlib Require Import ZArith QArith Lia.
From Stdlib Require Import Floats.
From stdpp Require Import base option list strings gmap.

Set Default Proof Using "Type".
#[local] Set Warnings "-clear-no-such-hyp".
Local Open Scope nat_scope.

(** ** Tensors *)

(** A leaf of the autograd graph: a tensor produced outside this module
    (identified by a number) or a parameter of a module instance
    (identified by the instance and the parameter's path). *)
Inductive leaf :=
  | Source (id : nat)
  | Weight (uid : nat) (path : string).

#[global] Instance leaf_eq_dec : EqDecision leaf.
Proof. solve_decision. Defined.

#[global] Instance leaf_countable : Countable leaf.
Proof.
  refine (inj_countable'
    (fun l => match l with Source i => inl i | Weight u p => inr (u, p) end)
    (fun s => match s with inl i => Source i | inr (u, p) => Weight u p end) _).
  intros []; reflexivity.
Defined.

Record tensor (A : Type) := Tensor {
  shape : list nat;
  data : list A;
  graph : gset leaf
}.
Arguments Tensor {A} _ _ _.
Arguments shape {A} _.
Arguments data {A} _.
Arguments graph {A} _.

(** Number of entries of a shape. *)
Definition numel (s : list nat) : nat := foldr Nat.mul 1 s.

(** The entries agree with the shape. *)
Definition wf {A} (x : tensor A) : Prop := length (data x) = numel (shape x).

(** Row-major offset of a multi-index, [None] when out of range. *)
Fixpoint offset (s idx : list nat) : option nat :=
  match s, idx with
  | [], [] => Some 0
  | n :: s', i :: idx' =>
      if i <? n then o ← offset s' idx'; Some (i * numel s' + o) else None
  | _, _ => None
  end.

(** [x[i0, i1, ...]] for a full multi-index. *)
Definition get {A} (x : tensor A) (idx : list nat) : option A :=
  o ← offset (shape x) idx; data x !! o.

(** ** Devices *)

Inductive device := cpu | cuda (index : nat).

#[global] Instance device_eq_dec : EqDecision device.
Proof. solve_decision. Defined.

(** What a call runs in: the number of CUDA devices of the machine (0
    without CUDA), the current CUDA device, the device the tensors given
    to the call live on, and the largest number of entries the allocator
    can give one tensor. *)
Record runtime := {
  cuda_devices : nat;
  current_cuda : nat;
  inputs_on : device;
  capacity : Z
}.

(** Whether the machine has the device. *)
Definition available (env : runtime) (d : device) : bool :=
  match d with
  | cpu => true
  | cuda index => index <? cuda_devices env
  end.

(** [x.cuda()]: the device [x] lives on afterwards, the current CUDA
    device; it raises without one. *)
Definition cuda_device (env : runtime) : option device :=
  if current_cuda env <? cuda_devices env then Some (cuda (current_cuda env)) else None.

(** [x.to(d)]: the device [x] lives on afterwards; it raises when the
    machine has no such device. *)
Definition to_device (env : runtime) (d : device) : option device :=
  if available env d then Some d else None.

(** An operator over tensors (of one dimension or more) that live on [d]
    and on [d'] raises unless these are one device. *)
Definition same_device (d d' : device) : option unit :=
  if bool_decide (d = d') then Some () else None.

(** The most entries a float32 tensor can be allocated with: what the
    allocator has, and at most 2^61 - 1 for the byte count to fit 63
    bits. *)
Definition max_numel (env : runtime) : Z := Z.min (capacity env) (2 ^ 61 - 1).

Section TensorOps.
Context {A : Type}.
Implicit Types x y : tensor A.

(** [x.clone()]: a copy that stays attached to the graph. *)
Definition clone x : tensor A := x.

(** [x.detach()]: same entries, cut from the graph. *)
Definition detach x : tensor A := Tensor (shape x) (data x) ∅.

(** [b, t, c, h, w = x.size()]: unpacking fails unless [x] is 5-D. *)
Definition size5 x : option (nat * nat * nat * nat * nat) :=
  match shape x with
  | [b; t; c; h; w] => Some (b, t, c, h, w)
  | _ => None
  end.

(** Shape inference of [view]: a dimension given as [None] is the
    source's [-1].  With one [-1] the known dimensions must have a
    nonzero product that divides the number of entries; with none the
    products must agree; two or more are refused. *)
Definition infer_size (dims : list (option nat)) (n : nat) : option (list nat) :=
  let known := numel (omap id dims) in
  match length (filter (fun d => d = None) dims) with
  | 0 => if n =? known then Some (omap id dims) else None
  | 1 =>
      if known =? 0 then None
      else if n mod known =? 0
      then Some (map (fun d => default (n / known) d) dims)
      else None
  | _ => None
  end.

(** [x.contiguous().view(dims)]. *)
Definition view (dims : list (option nat)) x : option (tensor A) :=
  s ← infer_size dims (numel (shape x));
  Some (Tensor s (data x) (graph x)).

(** [x[:, ..., start:stop, ...]], slicing dimension [dim] with the
    bounds clamped to the dimension's size as Python does; [stop = None]
    is an open upper bound. *)
Definition slice (dim start : nat) (stop : option nat) x : option (tensor A) :=
  len ← shape x !! dim;
  let outer := numel (take dim (shape x)) in
  let inner := numel (drop (S dim) (shape x)) in
  let lo := start `min` len in
  let hi := default len stop `min` len in
  Some (Tensor
    (<[dim := hi - lo]> (shape x))
    (mjoin (map (fun j => take ((hi - lo) * inner)
                            (drop (j * (len * inner) + lo * inner) (data x)))
                (seq 0 outer)))
    (graph x)).

(** Shapes that [torch.cat] accepts along [dim]: same rank, and equal
    sizes everywhere but at [dim]. *)
Definition cat_compatible (dim : nat) (s s' : list nat) : bool :=
  bool_decide (length s = length s') &&
  bool_decide (take dim s = take dim s') &&
  bool_decide (drop (S dim) s = drop (S dim) s').

(** [torch.cat(xs, dim)]. *)
Definition cat (xs : list (tensor A)) (dim : nat) : option (tensor A) :=
  match xs with
  | [] => None
  | x0 :: _ =>
      _ ← shape x0 !! dim;
      if forallb (fun x => cat_compatible dim (shape x0) (shape x)) xs then
        let outer := numel (take dim (shape x0)) in
        let block x := numel (drop dim (shape x)) in
        Some (Tensor
          (<[dim := sum_list (map (fun x => default 0 (shape x !! dim)) xs)]> (shape x0))
          (mjoin (map (fun j =>
                    mjoin (map (fun x => take (block x) (drop (j * block x) (data x))) xs))
                  (seq 0 outer)))
          (⋃ (map graph xs)))
      else None
  end.

(** [x[i]]: the [i]-th slice along the first dimension. *)
Definition index0 (i : nat) x : option (tensor A) :=
  match shape x with
  | [] => None
  | n :: s' =>
      if i <? n
      then Some (Tensor s' (take (numel s') (drop (i * numel s') (data x))) (graph x))
      else None
  end.

(** *** Broadcasting *)

(** Shapes of equal rank broadcast when, per dimension, the sizes agree
    or one of them is 1. *)
Fixpoint broadcast_shapes (s1 s2 : list nat) : option (list nat) :=
  match s1, s2 with
  | [], [] => Some []
  | n1 :: s1', n2 :: s2' =>
      s ← broadcast_shapes s1' s2';
      if n1 =? n2 then Some (n1 :: s)
      else if n1 =? 1 then Some (n2 :: s)
      else if n2 =? 1 then Some (n1 :: s)
      else None
  | _, _ => None
  end.

(** A shape padded on the left with 1s up to rank [r]. *)
Definition align (r : nat) (s : list nat) : list nat :=
  replicate (r - length s) 1 ++ s.

(** The entries of a tensor of shape [s] repeated along its size-1
    dimensions to fill [target]. *)
Fixpoint expand (s target : list nat) (d : list A) : list A :=
  match s, target with
  | n :: s', m :: target' =>
      let blocks :=
        mjoin (map (fun j => expand s' target' (take (numel s') (drop (j * numel s') d)))
                   (seq 0 n)) in
      if n =? m then blocks else mjoin (replicate m blocks)
  | _, _ => d
  end.

(** An elementwise binary operator with broadcasting. *)
Definition binop (f : A -> A -> A) x y : option (tensor A) :=
  let r := length (shape x) `max` length (shape y) in
  let s1 := align r (shape x) in
  let s2 := align r (shape y) in
  s ← broadcast_shapes s1 s2;
  Some (Tensor s (zip_with f (expand s1 s (data x)) (expand s2 s (data y)))
               (graph x ∪ graph y)).

(** An elementwise unary operator. *)
Definition unop (f : A -> A) x : tensor A :=
  Tensor (shape x) (map f (data x)) (graph x).

End TensorOps.

(** ** Entry arithmetic *)

(** The arithmetic the module uses on tensor entries: the literals [0.]
    and [1.] and the elementwise operators of float32, the dtype of the
    parameters, of the mask and of the tensors given to the module.  It
    is kept abstract: the properties hold whatever the operators are. *)
Class Scalar (A : Type) := {
  szero : A;
  sone : A;
  sadd : A -> A -> A;
  ssub : A -> A -> A;
  smul : A -> A -> A
}.

(** What the losses need on top: the literal [0.5], [** n] and the
    reduction behind [torch.mean]. *)
Class LossScalar (A : Type) {SA : Scalar A} := {
  shalf : A;
  spow : A -> nat -> A;
  smean : list A -> A
}.

Section Arithmetic.
Context {A : Type} {SA : Scalar A} {LA : LossScalar A}.
Implicit Types x y : tensor A.

Definition tadd x y := binop sadd x y.
Definition tsub x y := binop ssub x y.
Definition tmul x y := binop smul x y.
(** [c - x] and [x * c] for a Python number [c]. *)
Definition rsub (c : A) x := unop (ssub c) x.
Definition muls x (c : A) := unop (fun v => smul v c) x.
(** [x ** n]. *)
Definition tpow x (n : nat) := unop (fun v => spow v n) x.
(** [torch.mean(x)]: a 0-dimensional tensor. *)
Definition tmean x : tensor A := Tensor [] [smean (data x)] (graph x).
(** [torch.ones_like(x)]. *)
Definition ones_like x : tensor A := Tensor (shape x) (replicate (numel (shape x)) sone) ∅.
(** [torch.eye(t)]. *)
Definition eye (t : nat) : tensor A :=
  Tensor [t; t]
    (mjoin (map (fun i => map (fun j => if i =? j then sone else szero) (seq 0 t)) (seq 0 t)))
    ∅.

End Arithmetic.

(** ** Sequence rearrangement *)

(** What the rearrangement functions return: the target windows alone, or
    the pair [(real_seqs, fake_seqs)]. *)
Inductive rearranged (A : Type) :=
  | OnlyFake (fake_seqs : tensor A)
  | RealFake (real_seqs fake_seqs : tensor A).
Arguments OnlyFake {A} _.
Arguments RealFake {A} _ _.

Section RearrangeSeq.
Context {A : Type}.

(** One iteration of the loop body:
    [torch.cat([input_real[:, i:, ...].clone(), src[:, :i+1, ...].clone()], dim=1)]. *)
Definition seq_window (src input_real : tensor A) (i : nat) : option (tensor A) :=
  past ← slice 1 i None input_real;
  lead ← slice 1 0 (Some (i + 1)) src;
  cat [clone past; clone lead] 1.

(** [for i in range(t): seqs = seqs + [body(i)]], from the given list
    of collected tensors on. *)
Fixpoint for_range (body : nat -> option (tensor A)) (range : list nat)
    (seqs : list (tensor A)) : option (list (tensor A)) :=
  match range with
  | [] => Some seqs
  | i :: range' => w ← body i; for_range body range' (seqs ++ [w])
  end.

(** [torch.cat(seqs, dim=0).view(b * t, -1, h, w).clone()]. *)
Definition stack_view (seqs : list (tensor A)) (b t h w : nat) : option (tensor A) :=
  stacked ← cat seqs 0;
  viewed ← view [Some (b * t); None; Some h; Some w] stacked;
  Some (clone viewed).

Definition rearrange_seq (real : option (tensor A)) (fake input_real : tensor A)
    (only_fake : bool) : option (rearranged A) :=
  '(b, t, c, h, w) ← size5 fake;
  fake_seqs ← for_range (seq_window fake input_real) (seq 0 t) [];
  fake_seqs ← stack_view fake_seqs b t h w;
  if only_fake then Some (OnlyFake fake_seqs)
  else
    real ← real;
    real_seqs ← for_range (seq_window real input_real) (seq 0 t) [];
    real_seqs ← stack_view real_seqs b t h w;
    Some (RealFake real_seqs fake_seqs).

End RearrangeSeq.

Section RearrangeSeqInterp.
Context {A : Type} {SA : Scalar A}.

(** One iteration of the loop body:
    [reshaped_mask = mask[i].view(1, -1, 1, 1, 1).clone()] and
    [((1 - reshaped_mask) * input_real.clone()) + (reshaped_mask * src.clone())],
    for a mask that lives on [mask_on]: its products with the tensors of
    the call raise unless these live there too. *)
Definition interp_variant (env : runtime) (mask_on : device)
    (mask src input_real : tensor A) (i : nat) : option (tensor A) :=
  row ← index0 i mask;
  reshaped_mask ← clone <$> view [Some 1; None; Some 1; Some 1; Some 1] row;
  _ ← same_device mask_on (inputs_on env);
  keep ← tmul (rsub sone reshaped_mask) (clone input_real);
  pick ← tmul reshaped_mask (clone src);
  tadd keep pick.

(** [mask = torch.eye(t).float().cuda().clone()]: the identity is float32
    already, and is moved to the current CUDA device. *)
Definition rearrange_seq_interp (env : runtime) (real : option (tensor A))
    (fake input_real : tensor A) (only_fake : bool) : option (rearranged A) :=
  '(b, t, c, h, w) ← size5 fake;
  mask_on ← cuda_device env;
  let mask := clone (eye t) in
  fake_seqs ← for_range (interp_variant env mask_on mask fake input_real) (seq 0 t) [];
  fake_seqs ← stack_view fake_seqs b t h w;
  if only_fake then Some (OnlyFake fake_seqs)
  else
    real ← real;
    real_seqs ← for_range (interp_variant env mask_on mask real input_real) (seq 0 t) [];
    real_seqs ← stack_view real_seqs b t h w;
    Some (RealFake real_seqs fake_seqs).

End RearrangeSeqInterp.

(** ** Layers *)

Inductive layer :=
  | Conv2d (in_ch out_ch kernel_size stride padding : nat) (bias : bool)
  | InstanceNorm2d (num_features : nat)
  | ReLU
  | LeakyReLU (negative_slope : Q).

(** Output size of a convolution along one spatial dimension (dilation 1). *)
Definition conv_out (n kernel_size stride padding : nat) : nat :=
  (n + 2 * padding - kernel_size) / stride + 1.

(** What a layer does to the shape of a batched input, and when the
    framework refuses the input: a convolution wants [(N, in_ch, H, W)] with
    the padded image at least as large as the kernel, and over zero input
    channels its result has no channels; instance normalisation (which
    computes its statistics from the input) wants more than one spatial
    element; activations keep any shape. *)
Definition layer_shape (l : layer) (s : list nat) : option (list nat) :=
  match l with
  | Conv2d in_ch out_ch k st p _ =>
      match s with
      | [n; c; h; w] =>
          if (c =? in_ch) && (k <=? h + 2 * p) && (k <=? w + 2 * p)
          then Some [n; if in_ch =? 0 then 0 else out_ch;
                     conv_out h k st p; conv_out w k st p]
          else None
      | _ => None
      end
  | InstanceNorm2d _ =>
      match s with
      | [n; c; h; w] => if h * w =? 1 then None else Some s
      | _ => None
      end
  | ReLU | LeakyReLU _ => Some s
  end.

(** The parameters a layer registers, named from the layer's path.
    [InstanceNorm2d] is built without affine parameters. *)
Definition layer_parameters (uid : nat) (path : string) (l : layer) : list leaf :=
  match l with
  | Conv2d _ _ _ _ _ bias =>
      Weight uid (path +:+ ".weight") ::
      (if bias then [Weight uid (path +:+ ".bias")] else [])
  | _ => []
  end.

(** The numbers a layer computes are the framework's: an interface gives
    them, with as many entries as the output shape has. *)
Class Kernels (A : Type) := {
  layer_values : nat -> string -> layer -> tensor A -> list A;
  layer_values_length uid path l x s :
    layer_shape l (shape x) = Some s ->
    length (layer_values uid path l x) = numel s
}.

(** The name of child [k] of a [Sequential], for [k] below 10. *)
Definition digit (k : nat) : string :=
  String (Ascii.ascii_of_nat (48 + k)) EmptyString.

Section Modules.
Context {A : Type} {SA : Scalar A} {LA : LossScalar A} {KA : Kernels A}.

Definition apply_layer (uid : nat) (path : string) (l : layer) (x : tensor A)
    : option (tensor A) :=
  s ← layer_shape l (shape x);
  Some (Tensor s (layer_values uid path l x)
               (graph x ∪ list_to_set (layer_parameters uid path l))).

(** [nn.Sequential] over a list of layers: children are named by position. *)
Fixpoint Sequential_forward (uid : nat) (path : string) (k : nat)
    (layers : list layer) (x : tensor A) : option (tensor A) :=
  match layers with
  | [] => Some x
  | l :: layers' =>
      y ← apply_layer uid (path +:+ "." +:+ digit k) l x;
      Sequential_forward uid path (S k) layers' y
  end.

Fixpoint Sequential_parameters (uid : nat) (path : string) (k : nat)
    (layers : list layer) : list leaf :=
  match layers with
  | [] => []
  | l :: layers' =>
      layer_parameters uid (path +:+ "." +:+ digit k) l ++
      Sequential_parameters uid path (S k) layers'
  end.

(** *** ConvNormAct *)

Record ConvNormAct := { main : list layer }.

Definition ConvNormAct_init (in_ch out_ch kernel_size stride padding : nat)
    (act_type : string) : ConvNormAct :=
  let layers := [] in
  let layers := layers ++ [Conv2d in_ch out_ch kernel_size stride padding true] in
  let layers := layers ++ [InstanceNorm2d out_ch] in
  let layers :=
    if String.eqb act_type "relu" then layers ++ [ReLU]
    else if String.eqb act_type "lrelu" then layers ++ [LeakyReLU 0.2]
    else layers in
  {| main := layers |}.

Definition ConvNormAct_forward (uid : nat) (path : string) (m : ConvNormAct)
    (x : tensor A) : option (tensor A) :=
  Sequential_forward uid (path +:+ ".main") 0 (main m) x.

Definition ConvNormAct_parameters (uid : nat) (path : string) (m : ConvNormAct) : list leaf :=
  Sequential_parameters uid (path +:+ ".main") 0 (main m).

(** *** Discriminator *)

(** The numbers of entries of the parameters a layer allocates. *)
Definition layer_numels (l : layer) : list Z :=
  match l with
  | Conv2d in_ch out_ch k _ _ bias =>
      (Z.of_nat out_ch * Z.of_nat in_ch * Z.of_nat k * Z.of_nat k)%Z ::
      (if bias then [Z.of_nat out_ch] else [])
  | _ => []
  end.

Record Discriminator := {
  uid : nat;  (* identity of the module instance *)
  device_of : device;  (* the attribute [self.device] *)
  weights_on : device;  (* where the parameters live *)
  seq_mode : bool;
  is_extrap : bool;
  layer_1 : list layer;
  layer_2 : ConvNormAct;
  layer_3 : ConvNormAct;
  layer_4 : ConvNormAct;
  last_conv : layer
}.

(** The layers of a discriminator in the order [forward] applies them. *)
Definition all_layers (D : Discriminator) : list layer :=
  layer_1 D ++ main (layer_2 D) ++ main (layer_3 D) ++ main (layer_4 D) ++ [last_conv D].

(** [Discriminator(in_ch, device, seq, is_extrap)].  The channel count is
    a Python integer; allocating the first convolution's weight fails when
    it is negative, and allocating any parameter fails when it has more
    entries than can be allocated.  The parameters are created on the
    CPU; [device] is only stored. *)
Definition Discriminator_init (env : runtime) (id : nat) (in_ch : Z) (dev : device)
    (seq is_extrap : bool) : option Discriminator :=
  if (in_ch <? 0)%Z then None
  else
    let D := {|
      uid := id;
      device_of := dev;
      weights_on := cpu;
      seq_mode := seq;
      is_extrap := is_extrap;
      layer_1 := [Conv2d (Z.to_nat in_ch) 64 4 2 1 false; LeakyReLU 0.2];
      layer_2 := ConvNormAct_init 64 128 4 2 1 "lrelu";
      layer_3 := ConvNormAct_init 128 256 4 2 1 "lrelu";
      layer_4 := ConvNormAct_init 256 512 4 1 2 "lrelu";
      last_conv := Conv2d 512 64 4 1 2 false
    |} in
    if forallb (fun n => (n <=? max_numel env)%Z) (flat_map layer_numels (all_layers D))
    then Some D else None.

(** [D.to(d)]: the module with its parameters moved to [d]; it raises
    when the machine has no such device. *)
Definition Discriminator_to (env : runtime) (D : Discriminator) (d : device)
    : option Discriminator :=
  moved_to ← to_device env d;
  Some {|
    uid := uid D;
    device_of := device_of D;
    weights_on := moved_to;
    seq_mode := seq_mode D;
    is_extrap := is_extrap D;
    layer_1 := layer_1 D;
    layer_2 := layer_2 D;
    layer_3 := layer_3 D;
    layer_4 := layer_4 D;
    last_conv := last_conv D
  |}.

Definition parameters (D : Discriminator) : list leaf :=
  Sequential_parameters (uid D) "layer_1" 0 (layer_1 D) ++
  ConvNormAct_parameters (uid D) "layer_2" (layer_2 D) ++
  ConvNormAct_parameters (uid D) "layer_3" (layer_3 D) ++
  ConvNormAct_parameters (uid D) "layer_4" (layer_4 D) ++
  layer_parameters (uid D) "last_conv" (last_conv D).

(** The first convolution raises unless its input lives where the
    parameters live. *)
Definition forward (env : runtime) (D : Discriminator) (x : tensor A)
    : option (tensor A) :=
  _ ← same_device (inputs_on env) (weights_on D);
  h1 ← Sequential_forward (uid D) "layer_1" 0 (layer_1 D) (clone x);
  h2 ← ConvNormAct_forward (uid D) "layer_2" (layer_2 D) (clone h1);
  h3 ← ConvNormAct_forward (uid D) "layer_3" (layer_3 D) (clone h2);
  h4 ← ConvNormAct_forward (uid D) "layer_4" (layer_4 D) (clone h3);
  apply_layer (uid D) "last_conv" (last_conv D) (clone h4).

(** [real, fake = <result of a rearrangement>]. *)
Definition unpack_pair (r : rearranged A) : option (tensor A * tensor A) :=
  match r with
  | RealFake real fake => Some (real, fake)
  | OnlyFake _ => None
  end.

Definition unpack_fake (r : rearranged A) : option (tensor A) :=
  match r with
  | OnlyFake fake => Some fake
  | RealFake _ _ => None
  end.

(** The first half of [netD_adv_loss]: the pair [(real, fake)] as it
    stands when the predictions are taken. *)
Definition netD_adv_inputs (env : runtime) (D : Discriminator)
    (real fake input_real : tensor A) : option (tensor A * tensor A) :=
  if seq_mode D then
    if is_extrap D then
      rearrange_seq (Some (clone real)) (clone fake) (clone input_real) false
        ≫= unpack_pair
    else
      rearrange_seq_interp env (Some (clone real)) (clone fake) (clone input_real) false
        ≫= unpack_pair
  else
    '(b, t, c, h, w) ← size5 fake;
    real ← clone <$> view [None; Some c; Some h; Some w] real;
    fake ← clone <$> view [None; Some c; Some h; Some w] fake;
    Some (real, fake).

(** [real_label = torch.ones_like(pred_real).to(self.device)] lives on
    [self.device]; its difference with the prediction, which lives with
    the inputs, raises unless that is where the inputs live. *)
Definition netD_adv_loss (env : runtime) (D : Discriminator)
    (real fake input_real : tensor A) : option (tensor A) :=
  '(real, fake) ← netD_adv_inputs env D real fake input_real;
  pred_fake ← forward env D (clone (detach fake));
  pred_real ← forward env D (clone real);
  label_on ← to_device env (device_of D);
  let real_label := ones_like pred_real in
  let loss_fake := tmean (tpow pred_fake 2) in
  _ ← same_device (inputs_on env) label_on;
  diff ← tsub pred_real (clone real_label);
  let loss_real := tmean (tpow diff 2) in
  total ← tadd loss_real loss_fake;
  let loss_D := muls total shalf in
  Some loss_D.

(** The first half of [netG_adv_loss]. *)
Definition netG_adv_input (env : runtime) (D : Discriminator)
    (fake input_real : tensor A) : option (tensor A) :=
  '(b, t, c, h, w) ← size5 fake;
  if seq_mode D then
    if is_extrap D then
      rearrange_seq None (clone fake) (clone input_real) true ≫= unpack_fake
    else
      rearrange_seq_interp env None (clone fake) (clone input_real) true ≫= unpack_fake
  else
    clone <$> view [None; Some c; Some h; Some w] fake.

Definition netG_adv_loss (env : runtime) (D : Discriminator)
    (fake input_real : tensor A) : option (tensor A) :=
  fake ← netG_adv_input env D fake input_real;
  pred_fake ← forward env D (clone fake);
  label_on ← to_device env (device_of D);
  let real_label := clone (ones_like pred_fake) in
  _ ← same_device (inputs_on env) label_on;
  diff ← tsub pred_fake real_label;
  let loss_real := tmean (tpow diff 2) in
  Some loss_real.

(** *** create_netD *)

Record options := {
  sample_size : Z;
  irregular : bool;
  extrap : bool;
  lr : float
}.

(** [optim.Adamax(params, lr=lr)] as constructed: the parameters it
    steps and the learning rate. *)
Record Adamax := { param_group : list leaf; learning_rate : float }.

(** The constructor refuses a learning rate that is not at least 0 (a
    negative one, or NaN), and an empty list of parameters. *)
Definition Adamax_init (params : list leaf) (lr : float) : option Adamax :=
  if (0 <=? lr)%float then
    match params with
    | [] => None
    | _ => Some {| param_group := params; learning_rate := lr |}
    end
  else None.

Definition seq_len_of (opt : options) : Z :=
  let seq_len := (sample_size opt / 2)%Z in
  let seq_len := if irregular opt && negb (extrap opt) then sample_size opt else seq_len in
  let seq_len := if extrap opt then (seq_len + 1)%Z else seq_len in
  seq_len.

(** The two instances are distinct objects: they get the identities
    0 and 1. *)
Definition create_netD (env : runtime) (opt : options) (dev : device)
    : option (Discriminator * Discriminator * Adamax) :=
  let seq_len := seq_len_of opt in
  netD_img ← Discriminator_init env 0 3 dev false (extrap opt)
             ≫= (fun D => Discriminator_to env D dev);
  netD_seq ← Discriminator_init env 1 (3 * seq_len) dev true (extrap opt)
             ≫= (fun D => Discriminator_to env D dev);
  optimizer_netD ← Adamax_init (parameters netD_img ++ parameters netD_seq) (lr opt);
  Some (netD_img, netD_seq, optimizer_netD).

End Modules.

(** ** Notions the properties are stated with *)

Section Statements.
Context {A : Type} {SA : Scalar A} {LA : LossScalar A}.

(** Entry [(i, j)] of [torch.eye]. *)
Definition mask_entry (i j : nat) : A := if i =? j then sone else szero.

(** [(1 - m) * a + m * c], the loop body on one entry. *)
Definition blend (m a c : A) : A := sadd (smul (ssub sone m) a) (smul m c).


(** What a rearrangement's outputs are attached to. *)
Definition rearranged_graphs (real : option (tensor A)) (fake input_real : tensor A)
    (r : rearranged A) : Prop :=
  match r with
  | OnlyFake fake_seqs => graph fake_seqs = graph input_real ∪ graph fake
  | RealFake real_seqs fake_seqs =>
      graph fake_seqs = graph input_real ∪ graph fake /\
      exists real', real = Some real' /\
        graph real_seqs = graph input_real ∪ graph real'
  end.

(** Mean squared error against a constant label, and the mean of the
    squares. *)
Definition mse (preds : list A) (label : A) : A :=
  smean (map (fun p => spow (ssub p label) 2) preds).

Definition mean_square (preds : list A) : A :=
  smean (map (fun p => spow p 2) preds).

(** The least-squares discriminator objective. *)
Definition lsgan_D (pred_real pred_fake : list A) : A :=
  smul (sadd (mse pred_real sone) (mean_square pred_fake)) shalf.

(** The claim C10 as it is stated: without sequence mode, preparing the
    inputs fails exactly when [real] and [fake] differ in their number of
    entries. *)
Definition fails_iff_counts_differ (env : runtime) (D : Discriminator)
    (real fake input_real : tensor A) : Prop :=
  netD_adv_inputs env D real fake input_real = None <->
  numel (shape real) <> numel (shape fake).

(** The tensors of the call, the parameters and the labels are on one
    device: the parameters live where the inputs live, which is an
    existing device and the one [self.device] names. *)
Definition one_device (env : runtime) (D : Discriminator) : Prop :=
  weights_on D = inputs_on env /\ device_of D = inputs_on env /\
  available env (inputs_on env) = true.

(** The label check of the losses: the labels are moved to
    [self.device], and are then subtracted from predictions that live
    with the inputs. *)
Definition labels_fit (env : runtime) (D : Discriminator) : option unit :=
  label_on ← to_device env (device_of D);
  same_device (inputs_on env) label_on.

(** Inputs a discriminator built for [in_ch] channels can score: all on
    one device, which in sequence interpolation mode is the current CUDA
    device; [fake] and [real] of one shape (B,T,C,H,W), [input_real] of
    shape (B,Tin,C,H,W), nothing empty, images of at least 8 by 8 with one
    side of at least 16, and as many channels after the rearrangement of
    the discriminator's mode as it was built for. *)
Definition valid_inputs (env : runtime) (D : Discriminator) (in_ch : Z)
    (real fake input_real : tensor A) : Prop :=
  one_device env D /\
  (seq_mode D = true -> is_extrap D = false ->
     cuda_device env = Some (inputs_on env)) /\
  exists B T Tin C H W,
    (shape fake = [B; T; C; H; W] /\ shape real = [B; T; C; H; W] /\
     shape input_real = [B; Tin; C; H; W]) /\
    (wf fake /\ wf real /\ wf input_real) /\
    (0 < B /\ 0 < T /\ 0 < C /\ 8 <= H /\ 8 <= W /\ (16 <= H \/ 16 <= W)) /\
    if seq_mode D then
      if is_extrap D then T <= Tin + 1 /\ Z.of_nat ((Tin + 1) * C) = in_ch
      else Tin = T /\ Z.of_nat (T * C) = in_ch
    else Z.of_nat C = in_ch.

(** The parameters of [Discriminator(in_ch, ...)] can be allocated: the
    first convolution's weight has 64 * in_ch * 4 * 4 entries, the largest
    of the others 512 * 256 * 4 * 4. *)
Definition allocatable (env : runtime) (in_ch : Z) : Prop :=
  (1024 * in_ch <= max_numel env /\ 2097152 <= max_numel env)%Z.

(** The claim C5 as it is stated: the sequence length is half the
    sample size, or that plus or minus one. *)
Definition seq_len_is_half_adjusted (opt : options) : Prop :=
  (seq_len_of opt = sample_size opt / 2 \/
   seq_len_of opt = sample_size opt / 2 + 1 \/
   seq_len_of opt = sample_size opt / 2 - 1)%Z.

End Statements.

(** The five convolutions in a row, along one spatial dimension. *)
Definition conv_chain (n : nat) : nat :=
  conv_out (conv_out (conv_out (conv_out (conv_out n 4 2 1) 4 2 1) 4 2 1) 4 1 2) 4 1 2.

(** Shapes through a list of layers. *)
Fixpoint layers_shape (layers : list layer) (s : list nat) : option (list nat) :=
  match layers with
  | [] => Some s
  | l :: layers' => s' ← layer_shape l s; layers_shape layers' s'
  end.

Definition is_conv (l : layer) : bool :=
  match l with Conv2d _ _ _ _ _ _ => true | _ => false end.

(** The convolutions among the layers. *)
Definition convolutions (D : Discriminator) : list layer :=
  List.filter is_conv (all_layers D).

(** ** Instances for concrete runs *)

(** IEEE 754 binary32, the dtype float32: 24 bits of precision and
    exponents below 128, on the Standard Library's specification of
    floating-point arithmetic (round to nearest, ties to even). *)
Definition float32 : Type := spec_float.

(** The float32 value nearest to a Python float (a binary64 number):
    what [torch.tensor(x)] holds. *)
Definition f32 (x : float) : float32 :=
  match Prim2SF x with
  | S754_finite s m e => binary_round 24 128 s m e
  | y => y
  end.

#[global] Instance float32_scalar : Scalar float32 := {|
  szero := f32 0;
  sone := f32 1;
  sadd := SFadd 24 128;
  ssub := SFsub 24 128;
  smul := SFmul 24 128
|}.

(** For the runs below: powers by repeated multiplication and a mean
    taken as the sum over the count.  The reduction order of
    [torch.mean] is the framework's; the runs use values on which every
    order gives the same result. *)
#[global] Instance float32_loss_scalar : LossScalar float32 := {|
  shalf := f32 0.5;
  spow := fun x n => Nat.iter n (SFmul 24 128 x) (f32 1);
  smean := fun l =>
    SFdiv 24 128 (foldr (SFadd 24 128) (f32 0) l)
                 (foldr (fun _ n => SFadd 24 128 n (f32 1)) (f32 0) l)
|}.

(** A constant tensor attached to the given leaves. *)
Definition full {A} (s : list nat) (v : A) (g : gset leaf) : tensor A :=
  Tensor s (replicate (numel s) v) g.

(** A machine without CUDA, with the tensors on the CPU; and a machine
    with one CUDA device, with the tensors on it. *)
Definition cpu_only : runtime :=
  {| cuda_devices := 0; current_cuda := 0; inputs_on := cpu; capacity := 2 ^ 40 |}.

Definition one_gpu : runtime :=
  {| cuda_devices := 1; current_cuda := 0; inputs_on := cuda 0; capacity := 2 ^ 40 |}.

(** [f] run on [Discriminator(in_ch, inputs_on, seq, is_extrap).to(inputs_on)]. *)
Definition demo (env : runtime) (f : Discriminator -> option (tensor float32))
    (in_ch : Z) (sq ex : bool) : option (tensor float32) :=
  D ← Discriminator_init env 0 in_ch (inputs_on env) sq ex;
  D ← Discriminator_to env D (inputs_on env);
  f D.

(** The kernels of a network all of whose weights are zero: every layer
    outputs zeros. *)
Program Definition zero_kernels {A : Type} {SA : Scalar A} : Kernels A := {|
  layer_values := fun _ _ l x =>
    match layer_shape l (shape x) with
    | Some s => replicate (numel s) szero
    | None => []
    end
|}.
Next Obligation.
  intros A SA uid path l x s Hs. cbn. rewrite Hs. apply length_replicate.
Qed.

(** The discriminator [Discriminator(3, cpu, seq=False, is_extrap=True)],
    as instance 0. *)
Definition image_discriminator : Discriminator := {|
  uid := 0;
  device_of := cpu;
  weights_on := cpu;
  seq_mode := false;
  is_extrap := true;
  layer_1 := [Conv2d 3 64 4 2 1 false; LeakyReLU 0.2];
  layer_2 := ConvNormAct_init 64 128 4 2 1 "lrelu";
  layer_3 := ConvNormAct_init 128 256 4 2 1 "lrelu";
  layer_4 := ConvNormAct_init 256 512 4 1 2 "lrelu";
  last_conv := Conv2d 512 64 4 1 2 false
|}.

Definition w_fake : tensor Z := Tensor [1; 2; 1; 1; 2] [10; 11; 12; 13]%Z ∅.
Definition w_real : tensor Z := Tensor [1; 2; 1; 1; 2] [20; 21; 22; 23]%Z ∅.
Definition w_input : tensor Z := Tensor [1; 2; 1; 1; 2] [0; 1; 2; 3]%Z ∅.

Definition v_fake : tensor float32 :=
  Tensor [1; 2; 1; 1; 2] [f32 10; f32 11; f32 12; f32 13] ∅.
Definition v_input : tensor float32 :=
  Tensor [1; 2; 1; 1; 2] [f32 0; f32 1; f32 2; f32 3] ∅.

(** A target with one frame more than [v_fake]. *)
Definition long_real : tensor float32 :=
  Tensor [1; 3; 1; 1; 2] [f32 20; f32 21; f32 22; f32 23; f32 24; f32 25] ∅.

Definition irregular_options : options :=
  {| sample_size := 10; irregular := true; extrap := false; lr := 0.0009765625%float |}.

(** * Properties *)

(** ** Lists of equal-sized blocks *)

Section Blocks.
Context {A : Type}.
Implicit Types l d : list A.

Lemma length_join_blocks (f : nat -> list A) (n k s : nat) :
  (forall j, s <= j < s + k -> length (f j) = n) ->
  length (mjoin (map f (seq s k))) = k * n.
Proof.
  revert s. induction k as [|k IH]; intros s Hf; simpl; [done|].
  rewrite length_app, Hf, IH by (try intros j Hj; try apply Hf; lia). lia.
Qed.

Lemma lookup_join_blocks (f : nat -> list A) (n k s j r : nat) :
  (forall i, s <= i < s + k -> length (f i) = n) ->
  j < k -> r < n ->
  mjoin (map f (seq s k)) !! (j * n + r) = f (s + j) !! r.
Proof.
  revert s j. induction k as [|k IH]; intros s j Hf Hj Hr; [lia|].
  simpl. destruct j as [|j].
  - rewrite lookup_app_l by (rewrite Hf; lia).
    by rewrite Nat.add_0_r.
  - rewrite lookup_app_r by (rewrite Hf; lia).
    rewrite Hf by lia. replace (S j * n + r - n) with (j * n + r) by lia.
    rewrite IH by (try intros i Hi; try apply Hf; lia). do 2 f_equal. lia.
Qed.

(** Cutting a list into [k] blocks of [n] entries and joining them back. *)
Lemma join_blocks_take d (n k s : nat) :
  mjoin (map (fun j => take n (drop (j * n) d)) (seq s k)) =
  take (k * n) (drop (s * n) d).
Proof.
  revert s. induction k as [|k IH]; intros s; simpl; [done|].
  rewrite IH, <- take_take_drop, drop_drop. do 3 f_equal. lia.
Qed.

Lemma join_blocks_id d (n k : nat) :
  length d = k * n ->
  mjoin (map (fun j => take n (drop (j * n) d)) (seq 0 k)) = d.
Proof.
  intros Hd. rewrite join_blocks_take. simpl. apply take_ge. lia.
Qed.

Lemma length_join_uniform (ls : list (list A)) (n : nat) :
  Forall (fun l => length l = n) ls -> length (mjoin ls) = length ls * n.
Proof.
  induction 1 as [|l ls Hl _ IH]; simpl; [done|].
  rewrite length_app, Hl, IH. lia.
Qed.

Lemma lookup_join_uniform (ls : list (list A)) (n i r : nat) :
  Forall (fun l => length l = n) ls -> r < n ->
  mjoin ls !! (i * n + r) = ls !! i ≫= (.!! r).
Proof.
  intros Hls Hr. revert i.
  induction Hls as [|l ls Hl _ IH]; intros i; simpl; [done|].
  destruct i as [|i]; simpl.
  - by rewrite lookup_app_l by lia.
  - rewrite lookup_app_r by lia.
    replace (n + i * n + r - length l) with (i * n + r) by lia. apply IH.
Qed.

Lemma join_one l : mjoin [l] = l.
Proof. simpl. apply app_nil_r. Qed.

Lemma join_replicate_blocks (m n : nat) (v : A) :
  mjoin (replicate m (replicate n v)) = replicate (m * n) v.
Proof.
  induction m as [|m IH]; simpl; [done|].
  by rewrite IH, replicate_add.
Qed.

End Blocks.

(** ** Offsets and shapes *)

Lemma numel_cons (n : nat) (s : list nat) : numel (n :: s) = n * numel s.
Proof. reflexivity. Qed.

Lemma numel_app (s1 s2 : list nat) : numel (s1 ++ s2) = numel s1 * numel s2.
Proof.
  induction s1 as [|n s1 IH]; simpl; [lia|].
  fold (numel (s1 ++ s2)) (numel s1). rewrite IH. lia.
Qed.

Lemma offset_cons (n i : nat) (s idx : list nat) :
  i < n ->
  offset (n :: s) (i :: idx) = (fun o => i * numel s + o) <$> offset s idx.
Proof.
  intros Hi. simpl. apply Nat.ltb_lt in Hi. rewrite Hi.
  by destruct (offset s idx).
Qed.

Lemma offset_lt (s idx : list nat) (o : nat) :
  offset s idx = Some o -> o < numel s.
Proof.
  revert idx o. induction s as [|n s IH]; intros [|i idx] o; simpl; try done.
  - intros [= <-]. lia.
  - destruct (i <? n) eqn:Hi; [|done].
    apply Nat.ltb_lt in Hi.
    destruct (offset s idx) as [o'|] eqn:Ho; simpl; [|done].
    intros [= <-]. specialize (IH _ _ Ho). fold (numel s). nia.
Qed.

Lemma block_index_lt (k n o m : nat) : k < m -> o < n -> k * n + o < m * n.
Proof. nia. Qed.

(** ** Slicing, concatenating and viewing, entry by entry *)

Section OpSpecs.
Context {A : Type}.
Implicit Types x y : tensor A.

Lemma slice1_eq x (d0 d1 : nat) (rest : list nat) (lo : nat) (stop : option nat) :
  shape x = d0 :: d1 :: rest ->
  slice 1 lo stop x =
    Some (Tensor (d0 :: (default d1 stop `min` d1 - lo `min` d1) :: rest)
      (mjoin (map (fun j =>
           take ((default d1 stop `min` d1 - lo `min` d1) * numel rest)
                (drop (j * (d1 * numel rest) + lo `min` d1 * numel rest) (data x)))
         (seq 0 d0)))
      (graph x)).
Proof.
  intros Hs. unfold slice. rewrite Hs. simpl.
  fold (numel rest). by rewrite Nat.mul_1_r.
Qed.

Lemma slice1_block_length x (d0 d1 : nat) (rest : list nat) (lo m j : nat) :
  shape x = d0 :: d1 :: rest -> wf x ->
  lo + m <= d1 -> j < d0 ->
  length (take (m * numel rest)
            (drop (j * (d1 * numel rest) + lo * numel rest) (data x))) =
  m * numel rest.
Proof.
  intros Hs Hwf Hm Hj. unfold wf in Hwf. rewrite Hs, !numel_cons in Hwf.
  rewrite length_take, length_drop, Hwf.
  set (n := numel rest) in *.
  assert (j * (d1 * n) + d1 * n <= d0 * (d1 * n)) by nia.
  assert (lo * n + m * n <= d1 * n) by nia.
  lia.
Qed.

Lemma slice1_wf x y (d0 d1 : nat) (rest : list nat) (lo : nat) (stop : option nat) :
  shape x = d0 :: d1 :: rest -> wf x ->
  slice 1 lo stop x = Some y -> wf y.
Proof.
  intros Hs Hwf. rewrite (slice1_eq _ _ _ _ _ _ Hs). intros [= <-].
  unfold wf. simpl shape. simpl data. rewrite !numel_cons.
  set (m := default d1 stop `min` d1 - lo `min` d1).
  rewrite (length_join_blocks _ (m * numel rest)); [lia|].
  intros j Hj. apply (slice1_block_length x d0); [done..|unfold m; lia|lia].
Qed.

Lemma slice1_get x y (d0 d1 : nat) (rest : list nat) (lo : nat) (stop : option nat)
    (b k : nat) (idx : list nat) :
  shape x = d0 :: d1 :: rest -> wf x ->
  slice 1 lo stop x = Some y ->
  b < d0 -> k < default d1 stop `min` d1 - lo `min` d1 ->
  get y (b :: k :: idx) = get x (b :: (lo + k) :: idx).
Proof.
  intros Hs Hwf. rewrite (slice1_eq _ _ _ _ _ _ Hs). intros [= <-] Hb Hk.
  unfold get. simpl shape. simpl data. rewrite Hs.
  rewrite !offset_cons by lia.
  destruct (offset rest idx) as [o|] eqn:Ho; simpl; [|done].
  apply offset_lt in Ho. rewrite ?numel_cons.
  set (n := numel rest) in *.
  set (m := default d1 stop `min` d1 - lo `min` d1) in *.
  rewrite (lookup_join_blocks _ (m * n)).
  - rewrite lookup_take_lt by (apply block_index_lt; lia).
    rewrite lookup_drop. f_equal. simpl.
    replace (lo `min` d1) with lo by lia. lia.
  - intros j Hj. apply (slice1_block_length x d0); [done..|unfold m; lia|lia].
  - done.
  - apply block_index_lt; lia.
Qed.

(** Two tensors that agree outside dimension 1, concatenated along it. *)
Lemma cat1_eq x y (d0 a1 b1 : nat) (rest : list nat) :
  shape x = d0 :: a1 :: rest -> shape y = d0 :: b1 :: rest ->
  cat [x; y] 1 =
    Some (Tensor (d0 :: (a1 + b1) :: rest)
      (mjoin (map (fun j =>
           take (a1 * numel rest) (drop (j * (a1 * numel rest)) (data x)) ++
           take (b1 * numel rest) (drop (j * (b1 * numel rest)) (data y)))
         (seq 0 d0)))
      (graph x ∪ graph y)).
Proof.
  intros Hx Hy. unfold cat, cat_compatible. cbn [forallb map].
  rewrite Hx, Hy. simpl.
  rewrite !bool_decide_eq_true_2 by done. simpl.
  fold (numel rest). rewrite Nat.mul_1_r, Nat.add_0_r.
  f_equal. f_equal.
  - f_equal. apply map_ext. intros j. by rewrite app_nil_r.
  - by rewrite (right_id_L ∅ (∪)).
Qed.

Lemma block_length (d : list A) (n k j : nat) :
  length d = k * n -> j < k -> length (take n (drop (j * n) d)) = n.
Proof.
  intros Hd Hj. rewrite length_take, length_drop, Hd.
  assert (j * n + n <= k * n) by nia. lia.
Qed.

Lemma cat1_wf x y z (d0 a1 b1 : nat) (rest : list nat) :
  shape x = d0 :: a1 :: rest -> shape y = d0 :: b1 :: rest ->
  wf x -> wf y -> cat [x; y] 1 = Some z -> wf z.
Proof.
  intros Hx Hy Hwx Hwy. rewrite (cat1_eq _ _ _ _ _ _ Hx Hy). intros [= <-].
  unfold wf in *. rewrite Hx in Hwx. rewrite Hy in Hwy.
  simpl shape. simpl data. rewrite numel_cons in *. rewrite numel_cons in *.
  rewrite (length_join_blocks _ ((a1 + b1) * numel rest)); [lia|].
  intros j Hj. rewrite length_app.
  rewrite (block_length _ _ d0), (block_length _ _ d0) by (done || lia). lia.
Qed.

Lemma cat1_get x y z (d0 a1 b1 : nat) (rest : list nat) (b k : nat) (idx : list nat) :
  shape x = d0 :: a1 :: rest -> shape y = d0 :: b1 :: rest ->
  wf x -> wf y -> cat [x; y] 1 = Some z ->
  b < d0 -> k < a1 + b1 ->
  get z (b :: k :: idx) =
    if k <? a1 then get x (b :: k :: idx) else get y (b :: (k - a1) :: idx).
Proof.
  intros Hx Hy Hwx Hwy. rewrite (cat1_eq _ _ _ _ _ _ Hx Hy). intros [= <-] Hb Hk.
  unfold wf in *. rewrite Hx in Hwx. rewrite Hy in Hwy.
  rewrite !numel_cons in Hwx, Hwy.
  unfold get. simpl shape. simpl data. rewrite Hx, Hy.
  set (n := numel rest) in *.
  assert (Hlen : forall j, 0 <= j < 0 + d0 ->
    length (take (a1 * n) (drop (j * (a1 * n)) (data x)) ++
            take (b1 * n) (drop (j * (b1 * n)) (data y))) = (a1 + b1) * n).
  { intros j Hj. rewrite length_app.
    rewrite (block_length _ _ d0), (block_length _ _ d0) by (done || lia). lia. }
  destruct (k <? a1) eqn:Hka; [apply Nat.ltb_lt in Hka|apply Nat.ltb_ge in Hka];
    rewrite !offset_cons by lia;
    (destruct (offset rest idx) as [o|] eqn:Ho; [|done]);
    apply offset_lt in Ho; simpl; fold n;
    rewrite (lookup_join_blocks _ ((a1 + b1) * n)) by (done || apply block_index_lt; lia);
    simpl.
  - rewrite lookup_app_l.
    2:{ rewrite (block_length _ _ d0) by (done || lia). apply block_index_lt; lia. }
    rewrite lookup_take_lt by (apply block_index_lt; lia).
    by rewrite lookup_drop.
  - rewrite lookup_app_r.
    2:{ rewrite (block_length _ _ d0) by (done || lia). nia. }
    rewrite (block_length _ _ d0) by (done || lia).
    replace (k * n + o - a1 * n) with ((k - a1) * n + o) by nia.
    rewrite lookup_take_lt by (apply block_index_lt; lia).
    by rewrite lookup_drop.
Qed.

(** Tensors of one shape, concatenated along dimension 0. *)
Lemma cat0_eq (xs : list (tensor A)) (d0 : nat) (rest : list nat) :
  xs <> [] ->
  Forall (fun x => shape x = d0 :: rest /\ wf x) xs ->
  cat xs 0 =
    Some (Tensor (length xs * d0 :: rest) (mjoin (map data xs)) (⋃ (map graph xs))).
Proof.
  intros Hne Hxs. unfold cat.
  destruct xs as [|x0 xs']; [done|].
  assert (Hx0 : shape x0 = d0 :: rest) by (by inversion Hxs as [|?? [? _]]).
  rewrite Hx0. cbn [lookup list_lookup mbind option_bind].
  assert (forallb (fun x => cat_compatible 0 (d0 :: rest) (shape x)) (x0 :: xs') = true)
    as ->.
  { apply forallb_forall. intros x Hx.
    apply list_elem_of_In in Hx. rewrite Forall_forall in Hxs.
    destruct (Hxs _ Hx) as [-> _]. unfold cat_compatible.
    by rewrite !bool_decide_eq_true_2. }
  f_equal. f_equal.
  - cbn [insert list_insert]. f_equal.
    clear Hne Hx0. induction Hxs as [|x xs [Hx _] _ IH]; [done|].
    cbn [map sum_list sum_list_with length]. rewrite Hx. simpl. simpl in IH. lia.
  - match goal with |- mjoin (map ?f _) = _ => change (f 0 ++ [] = mjoin (map data (x0 :: xs'))) end.
    cbv beta. rewrite app_nil_r.
    f_equal. clear Hne Hx0.
    induction Hxs as [|x xs [Hx Hw] _ IH]; [done|].
    cbn [map]. rewrite IH. f_equal.
    change (take (numel (shape x)) (data x) = data x).
    apply take_ge. by rewrite Hw.
Qed.

Lemma cat0_get (xs : list (tensor A)) (z xi : tensor A) (d0 : nat) (rest : list nat)
    (i j : nat) (idx : list nat) :
  Forall (fun x => shape x = d0 :: rest /\ wf x) xs ->
  cat xs 0 = Some z ->
  xs !! i = Some xi -> j < d0 ->
  get z ((i * d0 + j) :: idx) = get xi (j :: idx).
Proof.
  intros Hxs Hz Hi Hj.
  rewrite (cat0_eq xs d0 rest) in Hz; [|by intros ->|done].
  injection Hz as <-.
  pose proof (lookup_lt_Some _ _ _ Hi) as Hlt.
  rewrite Forall_forall in Hxs.
  destruct (Hxs xi) as [Hs Hw]; [by eapply list_elem_of_lookup_2|].
  unfold get. simpl shape. simpl data. rewrite Hs.
  rewrite !offset_cons by nia.
  destruct (offset rest idx) as [o|] eqn:Ho; [|done].
  apply offset_lt in Ho. simpl.
  set (n := numel rest) in *.
  replace ((i * d0 + j) * n + o) with (i * (d0 * n) + (j * n + o)) by lia.
  rewrite (lookup_join_uniform _ (d0 * n)).
  - by rewrite list_lookup_fmap, Hi.
  - apply Forall_forall. intros l Hl. apply list_elem_of_fmap in Hl as [x [-> Hx]].
    destruct (Hxs _ Hx) as [Hsx Hwx]. unfold wf in Hwx. by rewrite Hwx, Hsx.
  - apply block_index_lt; lia.
Qed.

(** [view(r, -1, h, w)] of a 5-D tensor whose leading size is [r]: the
    second and third dimensions merge. *)
Lemma view_merge12 x (r k c h w : nat) :
  shape x = [r; k; c; h; w] ->
  r * h * w <> 0 ->
  view [Some r; None; Some h; Some w] x =
    Some (Tensor [r; k * c; h; w] (data x) (graph x)).
Proof.
  intros Hs Hnz. unfold view, infer_size. rewrite Hs. simpl.
  destruct (r * (h * (w * 1)) =? 0) eqn:Hz; [apply Nat.eqb_eq in Hz; lia|].
  replace (r * (k * (c * (h * (w * 1))))) with (k * c * (r * (h * (w * 1)))) by lia.
  rewrite Nat.Div0.mod_mul, Nat.div_mul by (apply Nat.eqb_neq in Hz; lia).
  done.
Qed.

Lemma view_infer1_shape x y (r h w : nat) :
  view [Some r; None; Some h; Some w] x = Some y ->
  exists k, shape y = [r; k; h; w].
Proof.
  unfold view, infer_size. simpl.
  destruct (r * (h * (w * 1)) =? 0); [done|].
  destruct (_ =? 0); [|done]. intros [= <-]. by eexists.
Qed.

Lemma stack_view_shape (ws : list (tensor A)) (b t h w : nat) y :
  stack_view ws b t h w = Some y -> exists k, shape y = [b * t; k; h; w].
Proof.
  unfold stack_view, clone.
  destruct (cat ws 0) as [stacked|]; [|done]. cbn [mbind option_bind].
  destruct (view _ stacked) as [viewed|] eqn:Hv; [|done]. cbn [mbind option_bind].
  intros [= <-]. by eapply view_infer1_shape.
Qed.

Lemma merge12_get (d : list A) (g g' : gset leaf) (r k c h w i kk cc : nat)
    (idx : list nat) :
  kk < k -> cc < c ->
  get (Tensor [r; k * c; h; w] d g) (i :: (kk * c + cc) :: idx) =
  get (Tensor [r; k; c; h; w] d g') (i :: kk :: cc :: idx).
Proof.
  intros Hk Hc. unfold get. simpl shape. simpl data.
  destruct (decide (i < r)) as [Hi|Hi].
  - rewrite !offset_cons by (done || nia).
    destruct (offset [h; w] idx) as [o|] eqn:Ho; [|done].
    simpl. f_equal. lia.
  - simpl. assert ((i <? r) = false) as -> by (apply Nat.ltb_ge; lia). done.
Qed.

(** [view(-1, c, h, w)]: whatever the source's shape, its entries are
    read as images of [c * h * w] entries. *)
Lemma view_flatten_eq x (c h w : nat) :
  view [None; Some c; Some h; Some w] x =
    if (c * h * w =? 0) || negb (numel (shape x) mod (c * h * w) =? 0) then None
    else Some (Tensor [numel (shape x) / (c * h * w); c; h; w] (data x) (graph x)).
Proof.
  unfold view, infer_size. simpl.
  replace (c * (h * (w * 1))) with (c * h * w) by lia.
  destruct (c * h * w =? 0); [done|]. simpl.
  by destruct (numel (shape x) mod (c * h * w) =? 0).
Qed.

End OpSpecs.

(** ** The rearrangement loop *)

Section Loop.
Context {A : Type}.

Lemma for_range_mapM (body : nat -> option (tensor A)) (range : list nat)
    (seqs : list (tensor A)) :
  for_range body range seqs = (seqs ++.) <$> mapM body range.
Proof.
  revert seqs. induction range as [|i range IH]; intros seqs; simpl.
  - by rewrite app_nil_r.
  - destruct (body i) as [w|]; simpl; [|done].
    rewrite IH. destruct (mapM body range); simpl; [|done].
    by rewrite <- app_assoc.
Qed.

Lemma mapM_seq_Some (body : nat -> option (tensor A)) (s t : nat) :
  (forall i, i < t -> is_Some (body (s + i))) ->
  exists ws, mapM body (seq s t) = Some ws /\ length ws = t /\
    forall i, i < t -> ws !! i = body (s + i).
Proof.
  revert s. induction t as [|t IH]; intros s Hb.
  - exists []. split_and!; [done..|]. intros; lia.
  - destruct (Hb 0) as [w Hw]; [lia|]. rewrite Nat.add_0_r in Hw.
    destruct (IH (S s)) as (ws & Hws & Hlen & Hlook).
    { intros i Hi. replace (S s + i) with (s + S i) by lia. apply Hb. lia. }
    exists (w :: ws). simpl. rewrite Hw. simpl. rewrite Hws. simpl.
    split_and!; [done|lia|].
    intros [|i] Hi; simpl.
    + by rewrite Nat.add_0_r.
    + rewrite Hlook by lia. f_equal. lia.
Qed.

(** The loop collects the bodies' results in order. *)
Lemma for_range_seq (body : nat -> option (tensor A)) (t : nat) :
  (forall i, i < t -> is_Some (body i)) ->
  exists ws, for_range body (seq 0 t) [] = Some ws /\ length ws = t /\
    forall i, i < t -> ws !! i = body i.
Proof.
  intros Hb. destruct (mapM_seq_Some body 0 t) as (ws & Hws & Hlen & Hlook); [done|].
  exists ws. rewrite for_range_mapM, Hws. done.
Qed.

Lemma for_range_None (body : nat -> option (tensor A)) (t i : nat) :
  i < t -> body i = None -> for_range body (seq 0 t) [] = None.
Proof.
  intros Hi Hb. rewrite for_range_mapM.
  assert (mapM body (seq 0 t) = None) as ->; [|done].
  apply mapM_None. apply Exists_exists. exists i. split; [|done].
  apply elem_of_seq. lia.
Qed.

(** The window of step [i]: what is left of the conditioning frames from
    [i] on, followed by the first [i + 1] frames of [src]. *)
Lemma seq_window_spec (src input_real : tensor A) (B T Tin C H W i : nat) :
  shape src = [B; T; C; H; W] -> shape input_real = [B; Tin; C; H; W] ->
  wf src -> wf input_real -> i < T ->
  exists win,
    seq_window src input_real i = Some win /\
    shape win = [B; (Tin - i) + (i + 1); C; H; W] /\
    wf win /\
    graph win = graph input_real ∪ graph src /\
    forall b k idx, b < B -> k < (Tin - i) + (i + 1) ->
      get win (b :: k :: idx) =
        if k <? Tin - i then get input_real (b :: (i + k) :: idx)
        else get src (b :: (k - (Tin - i)) :: idx).
Proof.
  intros Hs Hi Hws Hwi Hlt. unfold seq_window, clone.
  pose proof (slice1_eq input_real _ _ _ i None Hi) as Hpast.
  pose proof (slice1_eq src _ _ _ 0 (Some (i + 1)) Hs) as Hlead.
  destruct (slice 1 i None input_real) as [past|] eqn:Epast; [|done].
  destruct (slice 1 0 (Some (i + 1)) src) as [lead|] eqn:Elead; [|done].
  simpl.
  assert (Hsp : shape past = [B; Tin - i; C; H; W]).
  { injection Hpast as ->. simpl. do 2 f_equal. lia. }
  assert (Hsl : shape lead = [B; i + 1; C; H; W]).
  { injection Hlead as ->. simpl. do 2 f_equal. lia. }
  assert (Hwp : wf past) by (eapply slice1_wf; [exact Hi|done..]).
  assert (Hwl : wf lead) by (eapply slice1_wf; [exact Hs|done..]).
  pose proof (cat1_eq past lead _ _ _ _ Hsp Hsl) as Hcat.
  destruct (cat [past; lead] 1) as [win|] eqn:Ewin; [|done].
  exists win. split_and!.
  - done.
  - by injection Hcat as ->.
  - eapply cat1_wf; [exact Hsp|exact Hsl|done..].
  - injection Hcat as ->. simpl.
    injection Hpast as ->. injection Hlead as ->. done.
  - intros b k idx Hb Hk.
    rewrite (cat1_get past lead win _ _ _ _ b k idx Hsp Hsl) by done.
    destruct (k <? Tin - i) eqn:Hki;
      [apply Nat.ltb_lt in Hki|apply Nat.ltb_ge in Hki].
    + eapply slice1_get; [exact Hi|done..|simpl; lia].
    + erewrite slice1_get; [|exact Hs|done..|simpl; lia]. done.
Qed.

Lemma union_list_const (gs : list (gset leaf)) (g : gset leaf) :
  gs <> [] -> Forall (fun g' => g' = g) gs -> ⋃ gs = g.
Proof.
  intros Hne Hgs. induction Hgs as [|g' gs -> Hgs IH]; [done|].
  simpl. destruct gs as [|g'' gs'].
  - simpl. by rewrite (right_id_L ∅ (∪)).
  - rewrite IH by done. by rewrite (idemp_L (∪)).
Qed.

(** Windows of one shape, stacked and viewed as [(b * t, -1, h, w)]. *)
Lemma stack_view_spec (ws : list (tensor A)) (B T K C H W : nat) (g : gset leaf) :
  length ws = T -> 0 < T -> 0 < B -> 0 < H -> 0 < W ->
  Forall (fun x => shape x = [B; K; C; H; W] /\ wf x) ws ->
  Forall (fun x => graph x = g) ws ->
  exists out,
    stack_view ws B T H W = Some out /\
    shape out = [B * T; K * C; H; W] /\
    data out = mjoin (map data ws) /\
    graph out = g /\
    forall i b k c idx win, ws !! i = Some win -> b < B -> k < K -> c < C ->
      get out ((i * B + b) :: (k * C + c) :: idx) = get win (b :: k :: c :: idx).
Proof.
  intros Hlen HT HB HH HW Hws Hg. unfold stack_view.
  assert (Hne : ws <> []) by (intros ->; simpl in Hlen; lia).
  pose proof (cat0_eq ws B [K; C; H; W] Hne Hws) as Hcat.
  destruct (cat ws 0) as [stacked|] eqn:Ecat; [|done].
  injection Hcat as Hst. simpl.
  assert (Hss : shape stacked = [B * T; K; C; H; W]).
  { rewrite Hst. simpl. f_equal. lia. }
  rewrite (view_merge12 stacked _ _ _ _ _ Hss) by nia.
  cbn [mbind option_bind]. unfold clone.
  eexists. split_and!; [done|done|by rewrite Hst| |].
  - rewrite Hst. simpl. apply union_list_const.
    + by destruct ws.
    + apply Forall_fmap. eapply Forall_impl; [exact Hg|done].
  - intros i b k c idx win Hi Hb Hk Hc.
    rewrite (merge12_get _ _ (graph stacked)) by done.
    replace (Tensor [B * T; K; C; H; W] (data stacked) (graph stacked)) with stacked
      by (destruct stacked; simpl in *; congruence).
    by apply (cat0_get ws stacked win B [K; C; H; W]).
Qed.

(** All windows of one source, stacked. *)
Lemma stack_windows_spec (src input_real : tensor A) (B T Tin C H W : nat) :
  shape src = [B; T; C; H; W] -> shape input_real = [B; Tin; C; H; W] ->
  wf src -> wf input_real ->
  0 < T -> T <= Tin + 1 -> 0 < B -> 0 < H -> 0 < W ->
  exists ws out,
    for_range (seq_window src input_real) (seq 0 T) [] = Some ws /\
    stack_view ws B T H W = Some out /\
    shape out = [B * T; (Tin + 1) * C; H; W] /\
    wf out /\
    graph out = graph input_real ∪ graph src /\
    forall i b k c idx, i < T -> b < B -> k < Tin + 1 -> c < C ->
      get out ((i * B + b) :: (k * C + c) :: idx) =
        if k <? Tin - i then get input_real (b :: (i + k) :: c :: idx)
        else get src (b :: (k - (Tin - i)) :: c :: idx).
Proof.
  intros Hs Hi Hws Hwi HT HTin HB HH HW.
  destruct (for_range_seq (seq_window src input_real) T) as (ws & Hfor & Hlen & Hlook).
  { intros i Hlt.
    destruct (seq_window_spec src input_real B T Tin C H W i) as (win & -> & _); done. }
  assert (Hall : forall i win, ws !! i = Some win ->
    shape win = [B; Tin + 1; C; H; W] /\ wf win /\
    graph win = graph input_real ∪ graph src /\
    forall b k idx, b < B -> k < Tin + 1 ->
      get win (b :: k :: idx) =
        if k <? Tin - i then get input_real (b :: (i + k) :: idx)
        else get src (b :: (k - (Tin - i)) :: idx)).
  { intros i win Hwin.
    assert (Hlt : i < T) by (apply lookup_lt_Some in Hwin; lia).
    rewrite Hlook in Hwin by done.
    destruct (seq_window_spec src input_real B T Tin C H W i)
      as (win' & Hw' & Hsh & Hwf & Hgr & Hget); [done..|].
    replace win' with win in * by congruence.
    replace (Tin - i + (i + 1)) with (Tin + 1) in * by lia. done. }
  destruct (stack_view_spec ws B T (Tin + 1) C H W (graph input_real ∪ graph src))
    as (out & Hout & Hsh & Hdata & Hgr & Hget); [done..| | |].
  { apply Forall_lookup. intros i win Hwin. by destruct (Hall i win Hwin) as (? & ? & _). }
  { apply Forall_lookup. intros i win Hwin. by destruct (Hall i win Hwin) as (? & ? & ? & _). }
  exists ws, out. split_and!; [done..| |done|].
  - unfold wf. rewrite Hdata, Hsh.
    rewrite (length_join_uniform _ (B * ((Tin + 1) * (C * (H * (W * 1)))))).
    + rewrite length_map, Hlen. simpl. lia.
    + apply Forall_fmap, Forall_lookup. intros i win Hwin.
      destruct (Hall i win Hwin) as (Hsw & Hww & _).
      simpl. unfold wf in Hww. by rewrite Hww, Hsw.
  - intros i b k c idx Hlt Hb Hk Hc.
    destruct (lookup_lt_is_Some_2 ws i) as [win Hwin]; [lia|].
    rewrite (Hget i b k c idx win) by done.
    destruct (Hall i win Hwin) as (_ & _ & _ & Hgw). by apply Hgw.
Qed.

End Loop.

Lemma offset_in_range (s idx : list nat) :
  Forall2 lt idx s -> is_Some (offset s idx).
Proof.
  induction 1 as [|i n idx s Hi _ [o Ho]]; simpl; [by eexists|].
  apply Nat.ltb_lt in Hi. rewrite Hi, Ho. by eexists.
Qed.

Lemma get_in_range {A} (x : tensor A) (idx : list nat) :
  wf x -> Forall2 lt idx (shape x) -> is_Some (get x idx).
Proof.
  intros Hw Hidx. unfold get.
  destruct (offset_in_range _ _ Hidx) as [o Ho]. rewrite Ho. simpl.
  apply lookup_lt_is_Some_2. rewrite Hw. by eapply offset_lt.
Qed.

(** ** rearrange_seq *)

Section RearrangeSeqProperties.
Context {A : Type}.

(** C3.  Whatever else it is given, when [rearrange_seq] returns for a
    [fake] of shape (B,T,C,H,W) its outputs have batch size exactly B*T
    (and spatial size H by W).  For a target [fake] (and [real]) of shape
    (B,T,C,H,W) and a conditioning tensor of shape (B,Tin,C,H,W) with at
    least T-1 frames it does return; row [i*B + b] of the output is the
    window of step [i] for batch entry [b]: the conditioning frames from
    index [i] on, followed by the first [i+1] frames of the target, laid
    out along the channel dimension.  With [only_fake] the target windows
    are returned alone, otherwise the pair (real windows, fake
    windows). *)
Theorem rearrange_seq_windows (real fake input_real : tensor A)
    (B T Tin C H W : nat) :
  shape fake = [B; T; C; H; W] ->
  shape real = [B; T; C; H; W] ->
  shape input_real = [B; Tin; C; H; W] ->
  wf fake -> wf real -> wf input_real ->
  0 < T -> T <= Tin + 1 -> 0 < B -> 0 < H -> 0 < W ->
  (forall (r : option (tensor A)) (conditioning : tensor A) (only_fake : bool) out,
     rearrange_seq r fake conditioning only_fake = Some out ->
     match out with
     | OnlyFake fake_seqs => exists k, shape fake_seqs = [B * T; k; H; W]
     | RealFake real_seqs fake_seqs =>
         (exists k, shape real_seqs = [B * T; k; H; W]) /\
         (exists k, shape fake_seqs = [B * T; k; H; W])
     end) /\
  exists real_seqs fake_seqs,
    rearrange_seq (Some real) fake input_real false =
      Some (RealFake real_seqs fake_seqs) /\
    (forall r, rearrange_seq r fake input_real true = Some (OnlyFake fake_seqs)) /\
    shape fake_seqs = [B * T; (Tin + 1) * C; H; W] /\
    shape real_seqs = [B * T; (Tin + 1) * C; H; W] /\
    forall i b k c y x, i < T -> b < B -> k < Tin + 1 -> c < C -> y < H -> x < W ->
      is_Some (get fake_seqs [i * B + b; k * C + c; y; x]) /\
      get fake_seqs [i * B + b; k * C + c; y; x] =
        (if k <? Tin - i then get input_real [b; i + k; c; y; x]
         else get fake [b; k - (Tin - i); c; y; x]) /\
      get real_seqs [i * B + b; k * C + c; y; x] =
        (if k <? Tin - i then get input_real [b; i + k; c; y; x]
         else get real [b; k - (Tin - i); c; y; x]).
Proof.
  intros Hf Hr Hi Hwf Hwr Hwi HT HTin HB HH HW.
  assert (Hsz : size5 fake = Some (B, T, C, H, W)) by (unfold size5; by rewrite Hf).
  split.
  { intros r cond only_fake out. unfold rearrange_seq. rewrite Hsz.
    cbn [mbind option_bind].
    destruct (for_range (seq_window fake cond) _ _) as [fws|]; [|done].
    cbn [mbind option_bind].
    destruct (stack_view fws B T H W) as [fout|] eqn:Ef; [|done].
    cbn [mbind option_bind]. apply stack_view_shape in Ef.
    destruct only_fake; [by intros [= <-]|].
    destruct r as [real'|]; [|done]. cbn [mbind option_bind].
    destruct (for_range (seq_window real' cond) _ _) as [rws|]; [|done].
    cbn [mbind option_bind].
    destruct (stack_view rws B T H W) as [rout|] eqn:Er; [|done].
    cbn [mbind option_bind]. apply stack_view_shape in Er.
    by intros [= <-]. }
  destruct (stack_windows_spec fake input_real B T Tin C H W)
    as (fws & fout & Hffor & Hfst & Hfsh & Hfwf & _ & Hfget); [done..|].
  destruct (stack_windows_spec real input_real B T Tin C H W)
    as (rws & rout & Hrfor & Hrst & Hrsh & _ & _ & Hrget); [done..|].
  exists rout, fout.
  split_and!.
  - unfold rearrange_seq. rewrite Hsz. simpl.
    rewrite Hffor. simpl. rewrite Hfst. simpl.
    rewrite Hrfor. simpl. by rewrite Hrst.
  - intros r. unfold rearrange_seq. rewrite Hsz. simpl.
    rewrite Hffor. simpl. by rewrite Hfst.
  - done.
  - done.
  - intros i b k c y x Hlt Hb Hk Hc Hy Hx. split_and!.
    + apply get_in_range; [done|]. rewrite Hfsh.
      repeat constructor; try done; nia.
    + by apply Hfget.
    + by apply Hrget.
Qed.

(** C8.  In the scenario B=2, T=3, C=3, H=8, W=8 with three conditioning
    frames, [rearrange_seq] with [only_fake] returns a tensor of batch
    size 6 and spatial size 8 by 8; the window of every step [i] in 0..2
    holds (3 - i) + (i + 1) frames, and the output's channel count is
    3 * ((3 - i) + (i + 1)), that is 12, whichever [i] is taken. *)
Theorem rearrange_seq_scenario (fake input_real : tensor A) :
  shape fake = [2; 3; 3; 8; 8] ->
  shape input_real = [2; 3; 3; 8; 8] ->
  wf fake -> wf input_real ->
  exists fake_seqs,
    rearrange_seq None fake input_real true = Some (OnlyFake fake_seqs) /\
    shape fake_seqs = [6; 12; 8; 8] /\
    forall i, i < 3 ->
      (exists win, seq_window fake input_real i = Some win /\
                   shape win = [2; (3 - i) + (i + 1); 3; 8; 8]) /\
      shape fake_seqs = [6; 3 * ((3 - i) + (i + 1)); 8; 8].
Proof.
  intros Hf Hi Hwf Hwi.
  destruct (stack_windows_spec fake input_real 2 3 3 3 8 8)
    as (ws & out & Hfor & Hst & Hsh & _); [done..|lia|lia|lia|lia|lia|].
  exists out. split_and!.
  - unfold rearrange_seq, size5. rewrite Hf. cbn [mbind option_bind].
    rewrite Hfor. cbn [mbind option_bind]. by rewrite Hst.
  - done.
  - intros i Hlt. split.
    + destruct (seq_window_spec fake input_real 2 3 3 3 8 8 i)
        as (win & Hwin & Hshw & _); [done..|].
      by exists win.
    + rewrite Hsh. do 2 f_equal. lia.
Qed.

End RearrangeSeqProperties.

(** ** Broadcasting *)

Section BroadcastSpecs.
Context {A : Type}.
Implicit Types d : list A.

Lemma broadcast_shapes_same (s : list nat) : broadcast_shapes s s = Some s.
Proof.
  induction s as [|n s IH]; simpl; [done|].
  by rewrite IH, Nat.eqb_refl.
Qed.

Lemma broadcast_shapes_one_l (n : nat) (s1 s2 s : list nat) :
  broadcast_shapes s1 s2 = Some s ->
  broadcast_shapes (1 :: s1) (n :: s2) = Some (n :: s).
Proof.
  intros Hs. simpl. rewrite Hs. simpl.
  by destruct n as [|[|n]].
Qed.

Lemma broadcast_shapes_mask (B T C H W : nat) :
  broadcast_shapes [1; T; 1; 1; 1] [B; T; C; H; W] = Some [B; T; C; H; W].
Proof.
  apply broadcast_shapes_one_l.
  change (broadcast_shapes ([T] ++ [1; 1; 1]) ([T] ++ [C; H; W]) = Some [T; C; H; W]).
  simpl. rewrite Nat.eqb_refl.
  by destruct W as [|[|W]], H as [|[|H]], C as [|[|C]].
Qed.

Lemma expand_cons (n m : nat) (s target : list nat) d :
  expand (n :: s) (m :: target) d =
  if n =? m
  then mjoin (map (fun j => expand s target (take (numel s) (drop (j * numel s) d)))
                  (seq 0 n))
  else mjoin (replicate m
         (mjoin (map (fun j => expand s target (take (numel s) (drop (j * numel s) d)))
                     (seq 0 n)))).
Proof. reflexivity. Qed.

(** Expanding to the shape a tensor already has changes nothing. *)
Lemma expand_same (s : list nat) d : length d = numel s -> expand s s d = d.
Proof.
  revert d. induction s as [|n s IH]; intros d Hd; [done|].
  rewrite expand_cons, Nat.eqb_refl. rewrite numel_cons in Hd.
  etrans; [|apply (join_blocks_id d (numel s) n); lia].
  f_equal. apply map_ext_in. intros j Hj. apply in_seq in Hj.
  apply IH. apply (block_length d (numel s) n); lia.
Qed.

Lemma numel_ones (k : nat) : numel (replicate k 1) = 1.
Proof. induction k as [|k IH]; simpl; [done|]. fold (numel (replicate k 1)). lia. Qed.

(** A single entry expands to a constant block. *)
Lemma expand_ones (target : list nat) (v : A) :
  expand (replicate (length target) 1) target [v] = replicate (numel target) v.
Proof.
  induction target as [|m target IH]; [done|].
  cbn [length replicate]. rewrite expand_cons. cbn [seq map].
  rewrite !join_one, numel_ones. cbn [drop take Nat.mul]. rewrite IH.
  rewrite numel_cons.
  destruct (1 =? m) eqn:Hm.
  - apply Nat.eqb_eq in Hm. subst. by rewrite Nat.mul_1_l.
  - apply join_replicate_blocks.
Qed.

Lemma map_singletons {C} (F : list A -> C) d (s : nat) :
  map (fun j => F (take 1 (drop ((s + j) * 1) d))) (seq 0 (length d - s)) =
  map (fun v => F [v]) (drop s d).
Proof.
  revert s. induction d as [|v d IH]; intros s; [by destruct s|].
  destruct s as [|s].
  - cbn [length Nat.sub seq map drop]. f_equal.
    rewrite <- seq_shift, map_map.
    specialize (IH 0). rewrite Nat.sub_0_r, drop_0 in IH.
    rewrite <- IH. apply map_ext. intros j. by f_equal.
  - cbn [length Nat.sub drop]. rewrite <- IH.
    apply map_ext. intros j. do 2 f_equal.
Qed.

(** The reshaped mask row against a 5-D tensor: entry [j] of the row
    fills frame [j] of every batch entry. *)
Lemma expand_mask (B T C H W : nat) (m : list A) :
  length m = T ->
  expand [1; T; 1; 1; 1] [B; T; C; H; W] m =
  mjoin (replicate B (mjoin (map (replicate (C * H * W)) m))).
Proof.
  intros Hm.
  assert (Hrow : expand [T; 1; 1; 1] [T; C; H; W] m =
                 mjoin (map (replicate (C * H * W)) m)).
  { rewrite expand_cons, Nat.eqb_refl. f_equal.
    change (numel [1; 1; 1]) with 1.
    pose proof (map_singletons (expand [1; 1; 1] [C; H; W]) m 0) as Hsing.
    rewrite Nat.sub_0_r, Hm, drop_0 in Hsing. cbn [Nat.add] in Hsing.
    rewrite Hsing. apply map_ext. intros v.
    etrans; [apply (expand_ones [C; H; W] v)|]. f_equal. simpl. lia. }
  rewrite expand_cons. cbn [seq map].
  change (numel [T; 1; 1; 1]) with (T * 1).
  rewrite !join_one, Nat.mul_1_r, Nat.mul_0_l, drop_0, <- Hm, firstn_all, Hm.
  rewrite Hrow.
  destruct (1 =? B) eqn:HB; [|done].
  apply Nat.eqb_eq in HB. subst B. simpl. by rewrite app_nil_r.
Qed.

Lemma lookup_expand_mask (B T C H W : nat) (m : list A) (b j q : nat) :
  length m = T -> b < B -> j < T -> q < C * H * W ->
  expand [1; T; 1; 1; 1] [B; T; C; H; W] m !! (b * (T * (C * H * W)) + (j * (C * H * W) + q)) =
  m !! j.
Proof.
  intros Hm Hb Hj Hq. rewrite expand_mask by done.
  assert (Hrows : Forall (fun l : list A => length l = C * H * W)
                         (map (replicate (C * H * W)) m)).
  { apply Forall_fmap, Forall_forall. intros v _. apply length_replicate. }
  rewrite (lookup_join_uniform _ (T * (C * H * W))).
  - rewrite lookup_replicate_2 by done. simpl.
    rewrite (lookup_join_uniform _ (C * H * W)) by done.
    rewrite list_lookup_fmap.
    destruct (m !! j) as [v|] eqn:Hv; simpl; [|done].
    by apply lookup_replicate_2.
  - apply Forall_forall. intros l Hl. apply elem_of_replicate in Hl as [-> _].
    rewrite (length_join_uniform _ (C * H * W)) by done.
    by rewrite length_map, Hm.
  - apply block_index_lt; lia.
Qed.

Lemma length_expand_mask (B T C H W : nat) (m : list A) :
  length m = T ->
  length (expand [1; T; 1; 1; 1] [B; T; C; H; W] m) = B * (T * (C * H * W)).
Proof.
  intros Hm. rewrite expand_mask by done.
  rewrite (length_join_uniform _ (T * (C * H * W))).
  - by rewrite length_replicate.
  - apply Forall_forall. intros l Hl. apply elem_of_replicate in Hl as [-> _].
    rewrite (length_join_uniform _ (C * H * W)).
    + by rewrite length_map, Hm.
    + apply Forall_fmap, Forall_forall. intros v _. apply length_replicate.
Qed.

End BroadcastSpecs.

(** ** Devices *)

Lemma same_device_refl (d : device) : same_device d d = Some ().
Proof. unfold same_device. by rewrite bool_decide_eq_true_2. Qed.

Lemma same_device_Some (d d' : device) : same_device d d' = Some () <-> d = d'.
Proof.
  unfold same_device. destruct (bool_decide (d = d')) eqn:E.
  - by apply bool_decide_eq_true_1 in E.
  - apply bool_decide_eq_false_1 in E. split; [done|]. intros ?. by destruct E.
Qed.

Lemma same_device_None (d d' : device) : d <> d' -> same_device d d' = None.
Proof. intros Hne. unfold same_device. by rewrite bool_decide_eq_false_2. Qed.

Lemma to_device_Some (env : runtime) (d d' : device) :
  to_device env d = Some d' <-> available env d = true /\ d' = d.
Proof.
  unfold to_device. destruct (available env d).
  - split; [by intros [= <-]|by intros [_ ->]].
  - split; [done|by intros [? _]].
Qed.

(** ** rearrange_seq_interp *)

Section InterpSpecs.
Context {A : Type} {SA : Scalar A}.

Lemma take_drop_join_blocks (f : nat -> list A) (n k i : nat) :
  (forall j, 0 <= j < 0 + k -> length (f j) = n) -> i < k ->
  take n (drop (i * n) (mjoin (map f (seq 0 k)))) = f i.
Proof.
  intros Hf Hi. apply list_eq. intros q.
  destruct (decide (q < n)) as [Hq|Hq].
  - rewrite lookup_take_lt, lookup_drop by done.
    by rewrite (lookup_join_blocks f n k 0 i q).
  - rewrite lookup_take_ge by lia. symmetry.
    apply lookup_ge_None. rewrite Hf; lia.
Qed.

Lemma index0_eye (i t : nat) :
  i < t ->
  index0 i (eye t) = Some (Tensor [t] (map (mask_entry i) (seq 0 t)) ∅).
Proof.
  intros Hi. unfold index0, eye. cbn [shape data graph].
  apply Nat.ltb_lt in Hi as Hi'. rewrite Hi'.
  change (numel [t]) with (t * 1). rewrite Nat.mul_1_r.
  f_equal. f_equal.
  rewrite (take_drop_join_blocks _ t t i); [done| |done].
  intros j _. by rewrite length_map, length_seq.
Qed.

Lemma view_row (t : nat) (d : list A) (g : gset leaf) :
  view [Some 1; None; Some 1; Some 1; Some 1] (Tensor [t] d g) =
    Some (Tensor [1; t; 1; 1; 1] d g).
Proof.
  unfold view, infer_size. cbn [shape data graph].
  change (numel [t]) with (t * 1). rewrite Nat.mul_1_r. simpl.
  change (Nat.divmod t 0 0 0).1 with (t / 1). by rewrite Nat.div_1_r.
Qed.

Lemma binop_same (f : A -> A -> A) (x y : tensor A) (s : list nat) :
  shape x = s -> shape y = s -> wf x -> wf y ->
  binop f x y = Some (Tensor s (zip_with f (data x) (data y)) (graph x ∪ graph y)).
Proof.
  intros Hx Hy Hwx Hwy. unfold binop, align. rewrite Hx, Hy.
  rewrite Nat.max_id, Nat.sub_diag. cbn [replicate app].
  rewrite broadcast_shapes_same. cbn [mbind option_bind].
  unfold wf in *. rewrite Hx in Hwx. rewrite Hy in Hwy.
  by rewrite !expand_same.
Qed.

Lemma binop_mask (f : A -> A -> A) (m x : tensor A) (B T C H W : nat) :
  shape m = [1; T; 1; 1; 1] -> shape x = [B; T; C; H; W] -> wf x ->
  binop f m x =
    Some (Tensor [B; T; C; H; W]
            (zip_with f (expand [1; T; 1; 1; 1] [B; T; C; H; W] (data m)) (data x))
            (graph m ∪ graph x)).
Proof.
  intros Hm Hx Hwx. unfold binop, align. rewrite Hm, Hx.
  cbn [length Nat.max Nat.sub replicate app].
  rewrite broadcast_shapes_mask. cbn [mbind option_bind].
  unfold wf in *. rewrite Hx in Hwx.
  by rewrite (expand_same [B; T; C; H; W] (data x)).
Qed.

(** The variant of step [i], entry by entry. *)
Lemma interp_variant_spec (env : runtime) (src input_real : tensor A)
    (B T C H W i : nat) :
  shape src = [B; T; C; H; W] -> shape input_real = [B; T; C; H; W] ->
  wf src -> wf input_real -> i < T ->
  exists v,
    interp_variant env (inputs_on env) (eye T) src input_real i = Some v /\
    shape v = [B; T; C; H; W] /\
    wf v /\
    graph v = graph input_real ∪ graph src /\
    forall b j idx, b < B -> j < T ->
      get v (b :: j :: idx) =
        a ← get input_real (b :: j :: idx);
        c ← get src (b :: j :: idx);
        Some (blend (mask_entry i j) a c).
Proof.
  intros Hs Hi Hws Hwi Hlt. unfold interp_variant, clone.
  rewrite index0_eye by done. cbn [mbind option_bind].
  rewrite view_row. cbn [mbind option_bind fmap option_fmap option_map].
  rewrite same_device_refl. cbn [mbind option_bind].
  set (row := map (mask_entry i) (seq 0 T)).
  assert (Hrow : length row = T) by (unfold row; by rewrite length_map, length_seq).
  unfold tmul, rsub, unop. cbn [shape data graph].
  rewrite (binop_mask smul _ input_real B T C H W) by done.
  cbn [mbind option_bind shape data graph].
  rewrite (binop_mask smul _ src B T C H W) by done.
  cbn [mbind option_bind shape data graph].
  set (em' := expand [1; T; 1; 1; 1] [B; T; C; H; W] (map (ssub sone) row)).
  set (em := expand [1; T; 1; 1; 1] [B; T; C; H; W] row).
  assert (Hem' : length em' = B * (T * (C * H * W))).
  { unfold em'. apply length_expand_mask. by rewrite length_map. }
  assert (Hem : length em = B * (T * (C * H * W))) by (by apply length_expand_mask).
  assert (Hni : length (data input_real) = B * (T * (C * H * W))).
  { rewrite Hwi, Hi. simpl. lia. }
  assert (Hns : length (data src) = B * (T * (C * H * W))).
  { rewrite Hws, Hs. simpl. lia. }
  unfold tadd.
  rewrite (binop_same sadd _ _ [B; T; C; H; W]); [|done|done| |].
  2,3: unfold wf; cbn [shape data]; rewrite length_zip_with; simpl; lia.
  eexists. split_and!; [done|done| | |].
  - unfold wf. cbn [shape data]. rewrite !length_zip_with. simpl. lia.
  - cbn [graph]. by rewrite !(left_id_L ∅ (∪)).
  - intros b j idx Hb Hj. unfold get. cbn [shape data]. rewrite Hs, Hi.
    rewrite !offset_cons by done.
    destruct (offset [C; H; W] idx) as [o|] eqn:Ho; [|done].
    apply offset_lt in Ho. cbn [fmap option_fmap option_map mbind option_bind].
    change (numel [T; C; H; W]) with (T * numel [C; H; W]).
    assert (HN : numel [C; H; W] = C * H * W) by (simpl; lia).
    rewrite HN in *.
    rewrite !lookup_zip_with.
    unfold em', em. rewrite !lookup_expand_mask by (done || by rewrite length_map).
    rewrite list_lookup_fmap. unfold row.
    rewrite list_lookup_fmap, lookup_seq_lt by done. simpl.
    destruct (data input_real !! _) as [a|]; [|done]. simpl.
    destruct (data src !! _) as [c|]; done.
Qed.

(** All variants of one source, stacked. *)
Lemma stack_variants_spec (env : runtime) (src input_real : tensor A)
    (B T C H W : nat) :
  shape src = [B; T; C; H; W] -> shape input_real = [B; T; C; H; W] ->
  wf src -> wf input_real ->
  0 < T -> 0 < B -> 0 < H -> 0 < W ->
  exists vs out,
    for_range (interp_variant env (inputs_on env) (eye T) src input_real) (seq 0 T) []
      = Some vs /\
    stack_view vs B T H W = Some out /\
    shape out = [B * T; T * C; H; W] /\
    graph out = graph input_real ∪ graph src /\
    forall i b j c idx, i < T -> b < B -> j < T -> c < C ->
      get out ((i * B + b) :: (j * C + c) :: idx) =
        a ← get input_real (b :: j :: c :: idx);
        v ← get src (b :: j :: c :: idx);
        Some (blend (mask_entry i j) a v).
Proof.
  intros Hs Hi Hws Hwi HT HB HH HW.
  destruct (for_range_seq (interp_variant env (inputs_on env) (eye T) src input_real) T)
    as (vs & Hfor & Hlen & Hlook).
  { intros i Hlt.
    destruct (interp_variant_spec env src input_real B T C H W i) as (v & -> & _); done. }
  assert (Hall : forall i v, vs !! i = Some v ->
    shape v = [B; T; C; H; W] /\ wf v /\
    graph v = graph input_real ∪ graph src /\
    forall b j idx, b < B -> j < T ->
      get v (b :: j :: idx) =
        a ← get input_real (b :: j :: idx);
        c ← get src (b :: j :: idx);
        Some (blend (mask_entry i j) a c)).
  { intros i v Hv.
    assert (Hlt : i < T) by (apply lookup_lt_Some in Hv; lia).
    rewrite Hlook in Hv by done.
    destruct (interp_variant_spec env src input_real B T C H W i)
      as (v' & Hv' & Hrest); [done..|].
    by replace v' with v in * by congruence. }
  destruct (stack_view_spec vs B T T C H W (graph input_real ∪ graph src))
    as (out & Hout & Hsh & _ & Hgr & Hget); [done..| | |].
  { apply Forall_lookup. intros i v Hv. by destruct (Hall i v Hv) as (? & ? & _). }
  { apply Forall_lookup. intros i v Hv. by destruct (Hall i v Hv) as (? & ? & ? & _). }
  exists vs, out. split_and!; [done..|].
  intros i b j c idx Hlt Hb Hj Hc.
  destruct (lookup_lt_is_Some_2 vs i) as [v Hv]; [lia|].
  rewrite (Hget i b j c idx v) by done.
  destruct (Hall i v Hv) as (_ & _ & _ & Hgv). by apply Hgv.
Qed.

End InterpSpecs.

Section InterpProperties.
Context {A : Type} {SA : Scalar A}.


End InterpProperties.

(** In IEEE arithmetic zero times an infinity or a NaN is NaN, and NaN
    absorbs addition (float32 here). *)
Lemma float_zero_times_nonfinite (a : float32) :
  (exists s, a = S754_infinity s) \/ a = S754_nan ->
  smul (ssub sone sone) a = S754_nan /\ smul szero a = S754_nan.
Proof. intros [[s ->]| ->]; split; vm_compute; reflexivity. Qed.



(** ** Shapes through the network *)

Lemma conv_out_halves (n : nat) : 2 <= n -> conv_out n 4 2 1 = n / 2.
Proof.
  intros Hn. unfold conv_out.
  replace (n + 2 * 1 - 4) with (n - 2) by lia.
  replace n with ((n - 2) + 1 * 2) at 2 by lia.
  rewrite Nat.div_add by lia. lia.
Qed.

Lemma conv_out_grows (n : nat) : conv_out n 4 1 2 = n + 1.
Proof. unfold conv_out. rewrite Nat.div_1_r. lia. Qed.

Lemma conv_chain_eighth (n : nat) : 8 <= n -> conv_chain n = n / 8 + 2.
Proof.
  intros Hn. unfold conv_chain.
  assert (4 <= n / 2) by (apply (Nat.div_le_lower_bound n 2 4); lia).
  assert (2 <= n / 2 / 2) by (apply (Nat.div_le_lower_bound (n / 2) 2 2); lia).
  rewrite (conv_out_halves n), (conv_out_halves (n / 2)),
    (conv_out_halves (n / 2 / 2)), !conv_out_grows by lia.
  rewrite !Nat.Div0.div_div. simpl. lia.
Qed.

Lemma half_spec (n : nat) : 2 * (n / 2) <= n < 2 * (n / 2) + 2.
Proof.
  pose proof (Nat.div_mod_eq n 2). pose proof (Nat.mod_upper_bound n 2). lia.
Qed.

Lemma layers_shape_app (ls1 ls2 : list layer) (s : list nat) :
  layers_shape (ls1 ++ ls2) s = layers_shape ls1 s ≫= layers_shape ls2.
Proof.
  revert s. induction ls1 as [|l ls1 IH]; intros s; simpl; [done|].
  destruct (layer_shape l s); simpl; [apply IH|done].
Qed.

Lemma layers_shape_cons_inv (l : layer) (ls : list layer) (s s' : list nat) :
  layers_shape (l :: ls) s = Some s' ->
  exists s1, layer_shape l s = Some s1 /\ layers_shape ls s1 = Some s'.
Proof.
  cbn [layers_shape]. destruct (layer_shape l s) as [s1|]; [|done].
  intros Hs. by exists s1.
Qed.

Lemma conv_chain_steps (l : layer) (ls : list layer) (s : list nat) :
  layers_shape (l :: ls) s = layer_shape l s ≫= layers_shape ls.
Proof. reflexivity. Qed.

Lemma layer_shape_act (l : layer) (s : list nat) :
  is_conv l = false -> (forall f, l <> InstanceNorm2d f) -> layer_shape l s = Some s.
Proof. destruct l; try done. intros _ Hl. by destruct (Hl num_features). Qed.

Lemma layer_shape_conv (in_ch out_ch k st p : nat) (bias : bool) (n c h w : nat) :
  c = in_ch -> 0 < in_ch -> k <= h + 2 * p -> k <= w + 2 * p ->
  layer_shape (Conv2d in_ch out_ch k st p bias) [n; c; h; w] =
    Some [n; out_ch; conv_out h k st p; conv_out w k st p].
Proof.
  intros -> Hpos Hh Hw. cbn [layer_shape].
  rewrite Nat.eqb_refl.
  apply Nat.leb_le in Hh, Hw. rewrite Hh, Hw.
  by destruct in_ch; [lia|].
Qed.

Lemma layer_shape_conv_inv (in_ch out_ch k st p : nat) (bias : bool) (n c h w : nat)
    (s : list nat) :
  layer_shape (Conv2d in_ch out_ch k st p bias) [n; c; h; w] = Some s ->
  (c = in_ch /\ k <= h + 2 * p /\ k <= w + 2 * p) /\
  s = [n; if in_ch =? 0 then 0 else out_ch; conv_out h k st p; conv_out w k st p].
Proof.
  cbn [layer_shape].
  destruct (c =? in_ch) eqn:Hc; [|done]. apply Nat.eqb_eq in Hc.
  destruct (k <=? h + 2 * p) eqn:Hh; [|done]. apply Nat.leb_le in Hh.
  destruct (k <=? w + 2 * p) eqn:Hw; [|done]. apply Nat.leb_le in Hw.
  by intros [= <-].
Qed.

(** What the constructor builds, when it returns. *)
Lemma Discriminator_init_Some (env : runtime) (id : nat) (in_ch : Z) (dev : device)
    (sq ex : bool) (D : Discriminator) :
  Discriminator_init env id in_ch dev sq ex = Some D ->
  (0 <= in_ch)%Z /\
  D = {| uid := id; device_of := dev; weights_on := cpu;
         seq_mode := sq; is_extrap := ex;
         layer_1 := [Conv2d (Z.to_nat in_ch) 64 4 2 1 false; LeakyReLU 0.2];
         layer_2 := ConvNormAct_init 64 128 4 2 1 "lrelu";
         layer_3 := ConvNormAct_init 128 256 4 2 1 "lrelu";
         layer_4 := ConvNormAct_init 256 512 4 1 2 "lrelu";
         last_conv := Conv2d 512 64 4 1 2 false |}.
Proof.
  unfold Discriminator_init.
  destruct (in_ch <? 0)%Z eqn:Hneg; [done|]. apply Z.ltb_ge in Hneg.
  destruct (forallb _ _); [|done]. by intros [= <-].
Qed.

(** The constructor returns exactly when the channel count is not
    negative and the parameters can be allocated. *)
Lemma Discriminator_init_is_Some (env : runtime) (id : nat) (in_ch : Z) (dev : device)
    (sq ex : bool) :
  is_Some (Discriminator_init env id in_ch dev sq ex) <->
  (0 <= in_ch)%Z /\ allocatable env in_ch.
Proof.
  unfold Discriminator_init, allocatable.
  destruct (in_ch <? 0)%Z eqn:Hneg;
    [apply Z.ltb_lt in Hneg|apply Z.ltb_ge in Hneg].
  { split; [by intros [? ?]|lia]. }
  unfold all_layers. cbn [layer_1 layer_2 layer_3 layer_4 last_conv].
  unfold ConvNormAct_init. cbn [String.eqb Ascii.eqb Bool.eqb app main].
  cbn [flat_map layer_numels app forallb].
  rewrite Z2Nat.id by done.
  rewrite !andb_true_r.
  set (ok := (_ && _)%bool).
  assert (Hok : ok = true <-> (1024 * in_ch <= max_numel env /\ 2097152 <= max_numel env)%Z).
  { unfold ok. rewrite !andb_true_iff, !Z.leb_le. lia. }
  destruct ok.
  - split; [intros _; split; [done|by apply Hok]|by eexists].
  - split; [by intros [? ?]|]. intros [_ Hal]. apply Hok in Hal. done.
Qed.

(** Moving a module changes where its parameters live, nothing else. *)
Lemma Discriminator_to_Some (env : runtime) (D D' : Discriminator) (d : device) :
  Discriminator_to env D d = Some D' ->
  available env d = true /\
  weights_on D' = d /\ uid D' = uid D /\ device_of D' = device_of D /\
  seq_mode D' = seq_mode D /\ is_extrap D' = is_extrap D /\
  all_layers D' = all_layers D /\ parameters D' = parameters D.
Proof.
  unfold Discriminator_to.
  destruct (to_device env d) as [d'|] eqn:Hto; [|done].
  apply to_device_Some in Hto as [Hav ->]. cbn [mbind option_bind].
  by intros [= <-].
Qed.

Lemma three_halvings (n : nat) :
  4 <= n + 2 * 1 ->
  4 <= conv_out n 4 2 1 + 2 * 1 ->
  4 <= conv_out (conv_out n 4 2 1) 4 2 1 + 2 * 1 ->
  8 <= n.
Proof.
  intros H1 H2 H3.
  rewrite (conv_out_halves n) in H2, H3 by lia.
  rewrite (conv_out_halves (n / 2)) in H3 by lia.
  pose proof (half_spec n). pose proof (half_spec (n / 2)). lia.
Qed.

Lemma layer_shape_norm (f n c h w : nat) :
  h * w <> 1 -> layer_shape (InstanceNorm2d f) [n; c; h; w] = Some [n; c; h; w].
Proof.
  intros Hhw. cbn [layer_shape].
  by destruct (h * w =? 1) eqn:E; [apply Nat.eqb_eq in E|].
Qed.

Lemma layer_shape_norm_inv (f n c h w : nat) (s : list nat) :
  layer_shape (InstanceNorm2d f) [n; c; h; w] = Some s -> s = [n; c; h; w].
Proof. cbn [layer_shape]. destruct (h * w =? 1); [done|]. by intros [= <-]. Qed.

Lemma discriminator_layers_shape (env : runtime) (D : Discriminator) (id : nat)
    (in_ch : Z) (dev : device) (sq ex : bool) (n c h w : nat) :
  Discriminator_init env id in_ch dev sq ex = Some D ->
  (forall s, layers_shape (all_layers D) [n; c; h; w] = Some s ->
     Z.of_nat c = in_ch /\ 8 <= h /\ 8 <= w /\
     s = [n; 64; conv_chain h; conv_chain w]) /\
  (0 < c -> Z.of_nat c = in_ch -> 8 <= h -> 8 <= w -> 16 <= h \/ 16 <= w ->
     layers_shape (all_layers D) [n; c; h; w] = Some [n; 64; h / 8 + 2; w / 8 + 2]).
Proof.
  intros HD. apply Discriminator_init_Some in HD as [Hnn ->].
  unfold all_layers. cbn [layer_1 layer_2 layer_3 layer_4 last_conv].
  unfold ConvNormAct_init. cbn [String.eqb Ascii.eqb Bool.eqb app main].
  split.
  - intros s Hs. unfold conv_chain.
    apply layers_shape_cons_inv in Hs as (? & Hl & Hs).
    apply layer_shape_conv_inv in Hl as [(Hc & Hh1 & Hw1) ->].
    apply layers_shape_cons_inv in Hs as (? & Hl & Hs). injection Hl as <-.
    apply layers_shape_cons_inv in Hs as (? & Hl & Hs).
    apply layer_shape_conv_inv in Hl as [(_ & Hh2 & Hw2) ->].
    cbn [Nat.eqb] in Hs.
    apply layers_shape_cons_inv in Hs as (? & Hl & Hs).
    apply layer_shape_norm_inv in Hl as ->.
    apply layers_shape_cons_inv in Hs as (? & Hl & Hs). injection Hl as <-.
    apply layers_shape_cons_inv in Hs as (? & Hl & Hs).
    apply layer_shape_conv_inv in Hl as [(_ & Hh3 & Hw3) ->].
    repeat (apply layers_shape_cons_inv in Hs as (? & Hl & Hs);
            first [ apply layer_shape_conv_inv in Hl as [_ ->]
                  | apply layer_shape_norm_inv in Hl as ->
                  | injection Hl as <- ]).
    injection Hs as <-.
    split_and!; [lia|by apply three_halvings..|done].
  - intros Hpos Hc Hh Hw H16.
    pose proof (half_spec h). pose proof (half_spec (h / 2)).
    pose proof (half_spec (h / 2 / 2)).
    pose proof (half_spec w). pose proof (half_spec (w / 2)).
    pose proof (half_spec (w / 2 / 2)).
    repeat (rewrite conv_chain_steps;
            first [ rewrite layer_shape_conv by lia
                  | rewrite layer_shape_norm by nia
                  | rewrite layer_shape_act by done ];
            cbn [mbind option_bind];
            rewrite ?conv_out_grows; rewrite ?conv_out_halves by lia).
    cbn [layers_shape]. rewrite !Nat.Div0.div_div.
    do 4 f_equal; [|f_equal]; simpl; lia.
Qed.

(** A discriminator built for no channels refuses every input: the first
    convolution's result has no channels, which the second refuses. *)
Lemma discriminator_layers_channels (env : runtime) (D : Discriminator) (id : nat)
    (in_ch : Z) (dev : device) (sq ex : bool) (n c h w : nat) (s : list nat) :
  Discriminator_init env id in_ch dev sq ex = Some D ->
  layers_shape (all_layers D) [n; c; h; w] = Some s -> 0 < c.
Proof.
  intros HD. apply Discriminator_init_Some in HD as [Hnn ->].
  unfold all_layers. cbn [layer_1 layer_2 layer_3 layer_4 last_conv].
  unfold ConvNormAct_init. cbn [String.eqb Ascii.eqb Bool.eqb app main].
  intros Hs.
  apply layers_shape_cons_inv in Hs as (? & Hl & Hs).
  apply layer_shape_conv_inv in Hl as [(Hc & _) ->].
  apply layers_shape_cons_inv in Hs as (? & Hl & Hs). injection Hl as <-.
  apply layers_shape_cons_inv in Hs as (? & Hl & _).
  apply layer_shape_conv_inv in Hl as [(Hc2 & _) _].
  destruct (Z.to_nat in_ch) as [|k] eqn:E; [done|]. lia.
Qed.

(** ** forward *)

Section ForwardSpecs.
Context {A : Type} {KA : Kernels A}.
Implicit Types x y : tensor A.

Lemma apply_layer_inv (uid : nat) (path : string) (l : layer) x y :
  apply_layer uid path l x = Some y ->
  layer_shape l (shape x) = Some (shape y) /\
  wf y /\
  graph y = graph x ∪ list_to_set (layer_parameters uid path l).
Proof.
  unfold apply_layer.
  destruct (layer_shape l (shape x)) as [s|] eqn:Hs; [|done].
  intros [= <-]. split_and!; [done| |done].
  unfold wf. cbn [shape data]. by apply layer_values_length.
Qed.

Lemma apply_layer_Some (uid : nat) (path : string) (l : layer) x (s : list nat) :
  layer_shape l (shape x) = Some s ->
  exists y, apply_layer uid path l x = Some y /\ shape y = s.
Proof. intros Hs. unfold apply_layer. rewrite Hs. by eexists. Qed.

Lemma Sequential_forward_inv (uid : nat) (path : string) (k : nat)
    (layers : list layer) x y :
  Sequential_forward uid path k layers x = Some y ->
  layers_shape layers (shape x) = Some (shape y) /\
  (wf x -> wf y) /\
  graph y = graph x ∪ list_to_set (Sequential_parameters uid path k layers).
Proof.
  revert k x. induction layers as [|l layers IH]; intros k x; cbn.
  - intros [= <-]. split_and!; [done..|]. set_solver.
  - destruct (apply_layer _ _ l x) as [x'|] eqn:Hl; [|done]. cbn.
    intros Hy. apply apply_layer_inv in Hl as (Hs & Hw & Hg).
    apply IH in Hy as (Hs' & Hw' & Hg').
    rewrite Hs. cbn. split_and!; [done|auto|].
    rewrite Hg', Hg, list_to_set_app_L. set_solver.
Qed.

Lemma Sequential_forward_Some (uid : nat) (path : string) (k : nat)
    (layers : list layer) x (s : list nat) :
  layers_shape layers (shape x) = Some s ->
  exists y, Sequential_forward uid path k layers x = Some y /\ shape y = s.
Proof.
  revert k x. induction layers as [|l layers IH]; intros k x; cbn.
  - intros [= <-]. by eexists.
  - destruct (layer_shape l (shape x)) as [s1|] eqn:Hs1; [|done]. cbn.
    intros Hs.
    destruct (apply_layer_Some uid (path +:+ "." +:+ digit k) l x s1 Hs1) as (x' & -> & <-).
    cbn. by apply IH.
Qed.

Lemma forward_device (env : runtime) (D : Discriminator) x y :
  forward env D x = Some y -> inputs_on env = weights_on D.
Proof.
  unfold forward.
  destruct (same_device _ _) as [[]|] eqn:Hd; [|done].
  intros _. by apply same_device_Some.
Qed.

Lemma forward_inv (env : runtime) (D : Discriminator) x y :
  forward env D x = Some y ->
  layers_shape (all_layers D) (shape x) = Some (shape y) /\
  wf y /\
  graph y = graph x ∪ list_to_set (parameters D).
Proof.
  unfold forward, ConvNormAct_forward, clone, all_layers, parameters,
    ConvNormAct_parameters.
  destruct (same_device _ _) as [[]|]; [|done]. cbn [mbind option_bind].
  destruct (Sequential_forward _ "layer_1" _ _ x) as [h1|] eqn:E1; [|done]. cbn.
  destruct (Sequential_forward _ _ _ _ h1) as [h2|] eqn:E2; [|done]. cbn.
  destruct (Sequential_forward _ _ _ _ h2) as [h3|] eqn:E3; [|done]. cbn.
  destruct (Sequential_forward _ _ _ _ h3) as [h4|] eqn:E4; [|done]. cbn.
  intros E5.
  apply Sequential_forward_inv in E1 as (S1 & _ & G1).
  apply Sequential_forward_inv in E2 as (S2 & _ & G2).
  apply Sequential_forward_inv in E3 as (S3 & _ & G3).
  apply Sequential_forward_inv in E4 as (S4 & _ & G4).
  apply apply_layer_inv in E5 as (S5 & W5 & G5).
  split_and!; [|done|].
  - rewrite layers_shape_app, S1. cbn [mbind option_bind].
    rewrite layers_shape_app, S2. cbn [mbind option_bind].
    rewrite layers_shape_app, S3. cbn [mbind option_bind].
    rewrite layers_shape_app, S4. cbn [mbind option_bind layers_shape].
    by rewrite S5.
  - rewrite G5, G4, G3, G2, G1, !list_to_set_app_L. set_solver.
Qed.

Lemma forward_Some (env : runtime) (D : Discriminator) x (s : list nat) :
  inputs_on env = weights_on D ->
  layers_shape (all_layers D) (shape x) = Some s ->
  exists y, forward env D x = Some y /\ shape y = s.
Proof.
  intros Hdev. unfold all_layers. rewrite layers_shape_app.
  destruct (layers_shape (layer_1 D) (shape x)) as [s1|] eqn:E1; [|done].
  cbn [mbind option_bind]. rewrite layers_shape_app.
  destruct (layers_shape (main (layer_2 D)) s1) as [s2|] eqn:E2; [|done].
  cbn [mbind option_bind]. rewrite layers_shape_app.
  destruct (layers_shape (main (layer_3 D)) s2) as [s3|] eqn:E3; [|done].
  cbn [mbind option_bind]. rewrite layers_shape_app.
  destruct (layers_shape (main (layer_4 D)) s3) as [s4|] eqn:E4; [|done].
  cbn [mbind option_bind layers_shape].
  destruct (layer_shape (last_conv D) s4) as [s5|] eqn:E5; [|done].
  cbn [mbind option_bind].
  intros [= <-].
  unfold forward, ConvNormAct_forward, clone.
  rewrite Hdev, same_device_refl. cbn [mbind option_bind].
  destruct (Sequential_forward_Some (uid D) "layer_1" 0 _ x s1 E1) as (h1 & -> & <-). cbn.
  destruct (Sequential_forward_Some (uid D) ("layer_2" +:+ ".main") 0 _ h1 s2 E2)
    as (h2 & -> & <-). cbn.
  destruct (Sequential_forward_Some (uid D) ("layer_3" +:+ ".main") 0 _ h2 s3 E3)
    as (h3 & -> & <-). cbn.
  destruct (Sequential_forward_Some (uid D) ("layer_4" +:+ ".main") 0 _ h3 s4 E4)
    as (h4 & -> & <-). cbn.
  by apply apply_layer_Some.
Qed.

End ForwardSpecs.

Section ForwardProperties.
Context {A : Type} {KA : Kernels A}.

(** C6.  [forward] runs the four stages and the final convolution; its
    five convolutions have kernel 4, strides 2,2,2,1,1 and paddings
    1,1,1,2,2.  Whenever it returns, the input lived where the parameters
    live, it had the configured channel count (which is not zero) and
    spatial sizes of at least 8, the output has 64 channels, and each
    spatial size is what the five convolutions make of the input's, that
    is (H/8 + 2, W/8 + 2), rounding down.  It does return on a batch that
    lives where the parameters live, with the configured channel count
    and spatial sizes of at least 8, one of them at least 16. *)
Theorem forward_output_shape (env : runtime) (id : nat) (in_ch : Z) (dev : device)
    (sq ex : bool) (D0 D : Discriminator) (d : device) (x : tensor A)
    (n c h w : nat) :
  Discriminator_init env id in_ch dev sq ex = Some D0 ->
  Discriminator_to env D0 d = Some D ->
  shape x = [n; c; h; w] ->
  all_layers D =
    [Conv2d (Z.to_nat in_ch) 64 4 2 1 false; LeakyReLU 0.2;
     Conv2d 64 128 4 2 1 true; InstanceNorm2d 128; LeakyReLU 0.2;
     Conv2d 128 256 4 2 1 true; InstanceNorm2d 256; LeakyReLU 0.2;
     Conv2d 256 512 4 1 2 true; InstanceNorm2d 512; LeakyReLU 0.2;
     Conv2d 512 64 4 1 2 false] /\
  convolutions D =
    [Conv2d (Z.to_nat in_ch) 64 4 2 1 false; Conv2d 64 128 4 2 1 true;
     Conv2d 128 256 4 2 1 true; Conv2d 256 512 4 1 2 true;
     Conv2d 512 64 4 1 2 false] /\
  (forall y, forward env D x = Some y ->
     shape y = [n; 64; conv_chain h; conv_chain w] /\
     (inputs_on env = d /\ 0 < c /\ Z.of_nat c = in_ch /\ 8 <= h /\ 8 <= w) /\
     conv_chain h = h / 8 + 2 /\ conv_chain w = w / 8 + 2) /\
  (inputs_on env = d -> 0 < n -> 0 < c -> Z.of_nat c = in_ch ->
   8 <= h -> 8 <= w -> 16 <= h \/ 16 <= w ->
     exists y, forward env D x = Some y /\
       shape y = [n; 64; h / 8 + 2; w / 8 + 2]).
Proof.
  intros HD0 HD Hx.
  destruct (discriminator_layers_shape env D0 id in_ch dev sq ex n c h w HD0)
    as [Hinv Hok].
  pose proof (discriminator_layers_channels env D0 id in_ch dev sq ex n c h w) as Hch.
  apply Discriminator_to_Some in HD as (_ & Hon & _ & _ & _ & _ & Hsame & _).
  rewrite <- Hsame in Hinv, Hok, Hch.
  assert (Hlayers : all_layers D =
    [Conv2d (Z.to_nat in_ch) 64 4 2 1 false; LeakyReLU 0.2;
     Conv2d 64 128 4 2 1 true; InstanceNorm2d 128; LeakyReLU 0.2;
     Conv2d 128 256 4 2 1 true; InstanceNorm2d 256; LeakyReLU 0.2;
     Conv2d 256 512 4 1 2 true; InstanceNorm2d 512; LeakyReLU 0.2;
     Conv2d 512 64 4 1 2 false]).
  { rewrite Hsame. by apply Discriminator_init_Some in HD0 as [_ ->]. }
  split_and!.
  - done.
  - unfold convolutions. by rewrite Hlayers.
  - intros y Hy. pose proof (forward_device _ _ _ _ Hy) as Hdev.
    apply forward_inv in Hy as (Hs & _ & _).
    rewrite Hx in Hs. destruct (Hinv _ Hs) as (Hc & Hh & Hw & Hsy).
    split_and!; [done|congruence|by eapply Hch|done..
                |by apply conv_chain_eighth|by apply conv_chain_eighth].
  - intros Hdev _ Hpos Hc Hh Hw H16.
    destruct (forward_Some env D x [n; 64; h / 8 + 2; w / 8 + 2]) as (y & Hy & Hsy).
    { congruence. }
    { rewrite Hx. by apply Hok. }
    by exists y.
Qed.

(** C9.  An [act_type] other than "relu" and "lrelu" is accepted: the
    module is built with the convolution and the instance normalisation
    only, and its forward applies just these two. *)
Theorem ConvNormAct_unknown_act_type (in_ch out_ch kernel_size stride padding : nat)
    (act_type : string) :
  act_type <> "relu" -> act_type <> "lrelu" ->
  ConvNormAct_init in_ch out_ch kernel_size stride padding act_type =
    {| main := [Conv2d in_ch out_ch kernel_size stride padding true;
                InstanceNorm2d out_ch] |} /\
  forall (uid : nat) (path : string) (x : tensor A),
    ConvNormAct_forward uid path
      (ConvNormAct_init in_ch out_ch kernel_size stride padding act_type) x =
    y ← apply_layer uid ((path +:+ ".main") +:+ "." +:+ digit 0)
          (Conv2d in_ch out_ch kernel_size stride padding true) x;
    apply_layer uid ((path +:+ ".main") +:+ "." +:+ digit 1) (InstanceNorm2d out_ch) y.
Proof.
  intros Hr Hl.
  assert (Hinit : ConvNormAct_init in_ch out_ch kernel_size stride padding act_type =
    {| main := [Conv2d in_ch out_ch kernel_size stride padding true;
                InstanceNorm2d out_ch] |}).
  { unfold ConvNormAct_init.
    apply String.eqb_neq in Hr, Hl. by rewrite Hr, Hl. }
  split; [done|].
  intros uid path x. rewrite Hinit. unfold ConvNormAct_forward.
  cbn [main Sequential_forward].
  destruct (apply_layer _ _ _ x) as [y|]; [|done]. cbn [mbind option_bind].
  by destruct (apply_layer _ _ _ y).
Qed.

End ForwardProperties.

(** ** Attachment to the autograd graph *)

Section GraphSpecs.
Context {A : Type}.
Implicit Types x y : tensor A.

Lemma slice_graph (dim lo : nat) (stop : option nat) x y :
  slice dim lo stop x = Some y -> graph y = graph x.
Proof.
  unfold slice. destruct (shape x !! dim); [|done]. by intros [= <-].
Qed.

Lemma view_graph (dims : list (option nat)) x y :
  view dims x = Some y -> graph y = graph x /\ data y = data x.
Proof.
  unfold view. destruct (infer_size dims _); [|done]. by intros [= <-].
Qed.

Lemma cat_graph (xs : list (tensor A)) (dim : nat) y :
  cat xs dim = Some y -> xs <> [] /\ graph y = ⋃ (map graph xs).
Proof.
  unfold cat. destruct xs as [|x0 xs']; [done|].
  destruct (shape x0 !! dim); [|done]. cbn [mbind option_bind].
  destruct (forallb _ _); [|done]. by intros [= <-].
Qed.

Lemma binop_graph (f : A -> A -> A) x y z :
  binop f x y = Some z -> graph z = graph x ∪ graph y.
Proof.
  unfold binop. destruct (broadcast_shapes _ _); [|done]. by intros [= <-].
Qed.

Lemma seq_window_graph (src input_real : tensor A) (i : nat) y :
  seq_window src input_real i = Some y -> graph y = graph input_real ∪ graph src.
Proof.
  unfold seq_window, clone.
  destruct (slice 1 i None input_real) as [past|] eqn:Ep; [|done].
  destruct (slice 1 0 (Some (i + 1)) src) as [lead|] eqn:El; [|done].
  cbn [mbind option_bind]. intros Hc.
  apply cat_graph in Hc as [_ ->]. cbn.
  apply slice_graph in Ep as ->. apply slice_graph in El as ->.
  by rewrite (right_id_L ∅ (∪)).
Qed.

Lemma for_range_Forall (P : tensor A -> Prop) (body : nat -> option (tensor A))
    (range : list nat) (seqs ws : list (tensor A)) :
  (forall i w, body i = Some w -> P w) ->
  Forall P seqs ->
  for_range body range seqs = Some ws -> Forall P ws.
Proof.
  intros Hbody. revert seqs. induction range as [|i range IH]; intros seqs Hseqs; cbn.
  - by intros [= <-].
  - destruct (body i) as [w|] eqn:Hw; [|done]. cbn. apply IH.
    apply Forall_app. split; [done|]. constructor; [|done]. by eapply Hbody.
Qed.

Lemma stack_view_graph (ws : list (tensor A)) (b t h w : nat) (g : gset leaf) y :
  Forall (fun x => graph x = g) ws ->
  stack_view ws b t h w = Some y -> graph y = g.
Proof.
  intros Hws. unfold stack_view.
  destruct (cat ws 0) as [stacked|] eqn:Ec; [|done]. cbn [mbind option_bind].
  destruct (view _ stacked) as [viewed|] eqn:Hv; [|done]. cbn [mbind option_bind].
  intros [= <-]. unfold clone. apply view_graph in Hv as [-> _].
  apply cat_graph in Ec as [Hne ->].
  apply union_list_const; [by destruct ws|]. by apply Forall_fmap.
Qed.

Lemma rearrange_seq_graph (real : option (tensor A)) (fake input_real : tensor A)
    (only_fake : bool) (r : rearranged A) :
  rearrange_seq real fake input_real only_fake = Some r ->
  rearranged_graphs real fake input_real r.
Proof.
  unfold rearrange_seq.
  destruct (size5 fake) as [[[[[b t] c] h] w]|]; [|done]. cbn [mbind option_bind].
  destruct (for_range (seq_window fake input_real) _ _) as [fws|] eqn:Ef; [|done].
  cbn [mbind option_bind].
  destruct (stack_view fws b t h w) as [fout|] eqn:Efo; [|done].
  cbn [mbind option_bind].
  assert (Hgf : graph fout = graph input_real ∪ graph fake).
  { eapply stack_view_graph; [|exact Efo].
    eapply for_range_Forall; [|constructor|exact Ef].
    intros i w'. apply seq_window_graph. }
  destruct only_fake; [by intros [= <-]|].
  destruct real as [real'|]; [|done]. cbn [mbind option_bind].
  destruct (for_range (seq_window real' input_real) _ _) as [rws|] eqn:Er; [|done].
  cbn [mbind option_bind].
  destruct (stack_view rws b t h w) as [rout|] eqn:Ero; [|done].
  cbn [mbind option_bind]. intros [= <-]. split; [done|].
  exists real'. split; [done|].
  eapply stack_view_graph; [|exact Ero].
  eapply for_range_Forall; [|constructor|exact Er].
  intros i w'. apply seq_window_graph.
Qed.

End GraphSpecs.

Section InterpGraph.
Context {A : Type} {SA : Scalar A}.

Lemma index0_graph (i : nat) (x y : tensor A) :
  index0 i x = Some y -> graph y = graph x.
Proof.
  unfold index0. destruct (shape x) as [|n s]; [done|].
  destruct (i <? n); [|done]. by intros [= <-].
Qed.

Lemma interp_variant_graph (env : runtime) (mask_on : device)
    (mask src input_real : tensor A) (i : nat) (v : tensor A) :
  graph mask = ∅ ->
  interp_variant env mask_on mask src input_real i = Some v ->
  graph v = graph input_real ∪ graph src.
Proof.
  intros Hm. unfold interp_variant, clone, tmul, tadd.
  destruct (index0 i mask) as [row|] eqn:Er; [|done]. cbn [mbind option_bind].
  destruct (view _ row) as [rm|] eqn:Ev; [|done].
  cbn [mbind option_bind fmap option_fmap option_map].
  destruct (same_device _ _) as [[]|]; [|done]. cbn [mbind option_bind].
  destruct (binop smul (rsub sone rm) input_real) as [keep|] eqn:Ek; [|done].
  cbn [mbind option_bind].
  destruct (binop smul rm src) as [pick|] eqn:Ep; [|done].
  cbn [mbind option_bind]. intros Hs.
  apply binop_graph in Hs as ->. apply binop_graph in Ek as ->.
  apply binop_graph in Ep as ->.
  apply view_graph in Ev as [Hrm _]. apply index0_graph in Er.
  cbn [rsub unop graph]. rewrite Hrm, Er, Hm.
  by rewrite !(left_id_L ∅ (∪)).
Qed.

Lemma rearrange_seq_interp_graph (env : runtime) (real : option (tensor A))
    (fake input_real : tensor A) (only_fake : bool) (r : rearranged A) :
  rearrange_seq_interp env real fake input_real only_fake = Some r ->
  rearranged_graphs real fake input_real r.
Proof.
  unfold rearrange_seq_interp, clone.
  destruct (size5 fake) as [[[[[b t] c] h] w]|]; [|done]. cbn [mbind option_bind].
  destruct (cuda_device env) as [mask_on|]; [|done]. cbn [mbind option_bind].
  destruct (for_range (interp_variant env mask_on (eye t) fake input_real) _ _)
    as [fws|] eqn:Ef; [|done].
  cbn [mbind option_bind].
  destruct (stack_view fws b t h w) as [fout|] eqn:Efo; [|done].
  cbn [mbind option_bind].
  assert (Hgf : graph fout = graph input_real ∪ graph fake).
  { eapply stack_view_graph; [|exact Efo].
    eapply for_range_Forall; [|constructor|exact Ef].
    intros i w'. by apply interp_variant_graph. }
  destruct only_fake; [by intros [= <-]|].
  destruct real as [real'|]; [|done]. cbn [mbind option_bind].
  destruct (for_range (interp_variant env mask_on (eye t) real' input_real) _ _)
    as [rws|] eqn:Er; [|done].
  cbn [mbind option_bind].
  destruct (stack_view rws b t h w) as [rout|] eqn:Ero; [|done].
  cbn [mbind option_bind]. intros [= <-]. split; [done|].
  exists real'. split; [done|].
  eapply stack_view_graph; [|exact Ero].
  eapply for_range_Forall; [|constructor|exact Er].
  intros i w'. by apply interp_variant_graph.
Qed.

End InterpGraph.

(** ** The adversarial losses *)

Section LossProperties.
Context {A : Type} {SA : Scalar A} {LA : LossScalar A} {KA : Kernels A}.

(** [torch.mean((pred - ones_like(pred)) ** 2)] is the mean squared
    error against 1. *)
Lemma mse_against_ones (pred : tensor A) :
  wf pred ->
  (diff ← tsub pred (clone (ones_like pred)); Some (tmean (tpow diff 2))) =
  Some (Tensor [] [mse (data pred) sone] (graph pred)).
Proof.
  intros Hw. unfold tsub, clone.
  rewrite (binop_same ssub pred (ones_like pred) (shape pred)); [|done|done|done|].
  2:{ unfold wf, ones_like. cbn. apply length_replicate. }
  cbn [mbind option_bind]. unfold tmean, tpow, unop, ones_like, mse.
  cbn [shape data graph].
  rewrite zip_with_replicate_r_eq by (by rewrite Hw).
  rewrite (right_id_L ∅ (∪)).
  change (flip ssub sone <$> data pred) with (map (flip ssub sone) (data pred)).
  by rewrite map_map.
Qed.

Lemma netD_adv_inputs_graph (env : runtime) (D : Discriminator)
    (real fake input_real r f : tensor A) :
  netD_adv_inputs env D real fake input_real = Some (r, f) ->
  graph r = (if seq_mode D then graph input_real ∪ graph real else graph real) /\
  graph f = (if seq_mode D then graph input_real ∪ graph fake else graph fake).
Proof.
  unfold netD_adv_inputs, clone. destruct (seq_mode D).
  - assert (Hpair : forall o : option (rearranged A),
      (forall q, o = Some q -> rearranged_graphs (Some real) fake input_real q) ->
      o ≫= unpack_pair = Some (r, f) ->
      graph r = graph input_real ∪ graph real /\
      graph f = graph input_real ∪ graph fake).
    { intros [q|] Hq; [|done]. specialize (Hq q eq_refl).
      destruct q as [?|rs fs]; [done|]. cbn. intros [= -> ->].
      destruct Hq as (Hf & real' & [= <-] & Hr). done. }
    destruct (is_extrap D); apply Hpair; intros q Hq.
    + by eapply rearrange_seq_graph.
    + by eapply rearrange_seq_interp_graph.
  - destruct (size5 fake) as [[[[[b t] c] h] w]|]; [|done]. cbn [mbind option_bind].
    destruct (view _ real) as [r'|] eqn:Er; [|done]. cbn.
    destruct (view _ fake) as [f'|] eqn:Ef; [|done]. cbn.
    intros [= -> ->].
    apply view_graph in Er as [-> _]. by apply view_graph in Ef as [-> _].
Qed.

Lemma netG_adv_input_graph (env : runtime) (D : Discriminator) (fake input_real f : tensor A) :
  netG_adv_input env D fake input_real = Some f ->
  graph f = (if seq_mode D then graph input_real ∪ graph fake else graph fake).
Proof.
  unfold netG_adv_input, clone.
  destruct (size5 fake) as [[[[[b t] c] h] w]|]; [|done]. cbn [mbind option_bind].
  destruct (seq_mode D).
  - assert (Hone : forall o : option (rearranged A),
      (forall q, o = Some q -> rearranged_graphs None fake input_real q) ->
      o ≫= unpack_fake = Some f ->
      graph f = graph input_real ∪ graph fake).
    { intros [q|] Hq; [|done]. specialize (Hq q eq_refl).
      destruct q as [fs|??]; [|done]. cbn. by intros [= ->]. }
    destruct (is_extrap D); apply Hone; intros q Hq.
    + by eapply rearrange_seq_graph.
    + by eapply rearrange_seq_interp_graph.
  - destruct (view _ fake) as [f'|] eqn:Ef; [|done]. cbn. intros [= ->].
    by apply view_graph in Ef as [-> _].
Qed.

Lemma labels_fit_Some (env : runtime) (D : Discriminator) :
  labels_fit env D = Some () <->
  available env (device_of D) = true /\ device_of D = inputs_on env.
Proof.
  unfold labels_fit.
  destruct (to_device env (device_of D)) as [d|] eqn:Hto.
  - apply to_device_Some in Hto as [Hav ->]. cbn [mbind option_bind].
    rewrite same_device_Some. naive_solver.
  - split; [done|]. intros [Hav _]. unfold to_device in Hto. by rewrite Hav in Hto.
Qed.

Lemma labels_fit_one_device (env : runtime) (D : Discriminator) :
  one_device env D -> labels_fit env D = Some ().
Proof.
  intros (_ & Hdev & Hav). apply labels_fit_Some. by rewrite Hdev.
Qed.

Lemma netD_adv_loss_unfold (env : runtime) (D : Discriminator)
    (real fake input_real : tensor A) :
  netD_adv_loss env D real fake input_real =
    '(r, f) ← netD_adv_inputs env D real fake input_real;
    pred_fake ← forward env D (detach f);
    pred_real ← forward env D r;
    _ ← labels_fit env D;
    Some (Tensor [] [lsgan_D (data pred_real) (data pred_fake)]
                 (graph pred_real ∪ graph pred_fake)).
Proof.
  unfold netD_adv_loss, labels_fit, clone.
  destruct (netD_adv_inputs env D real fake input_real) as [[r f]|]; [|done].
  cbn [mbind option_bind].
  destruct (forward env D (detach f)) as [pred_fake|]; [|done]. cbn [mbind option_bind].
  destruct (forward env D r) as [pred_real|] eqn:Er; [|done]. cbn [mbind option_bind].
  destruct (to_device env (device_of D)) as [label_on|]; [|done].
  cbn [mbind option_bind].
  destruct (same_device (inputs_on env) label_on) as [[]|]; [|done].
  cbn [mbind option_bind].
  apply forward_inv in Er as (_ & Hw & _).
  pose proof (mse_against_ones pred_real Hw) as Hmse. unfold clone in Hmse.
  destruct (tsub pred_real (ones_like pred_real)) as [diff|]; [|done].
  simpl in Hmse. injection Hmse as Hdiff Hgraph. simpl.
  by rewrite Hdiff, Hgraph.
Qed.

Lemma netG_adv_loss_unfold (env : runtime) (D : Discriminator)
    (fake input_real : tensor A) :
  netG_adv_loss env D fake input_real =
    f ← netG_adv_input env D fake input_real;
    pred_fake ← forward env D f;
    _ ← labels_fit env D;
    Some (Tensor [] [mse (data pred_fake) sone] (graph pred_fake)).
Proof.
  unfold netG_adv_loss, labels_fit, clone.
  destruct (netG_adv_input env D fake input_real) as [f|]; [|done].
  cbn [mbind option_bind].
  destruct (forward env D f) as [pred_fake|] eqn:Ef; [|done]. cbn [mbind option_bind].
  destruct (to_device env (device_of D)) as [label_on|]; [|done].
  cbn [mbind option_bind].
  destruct (same_device (inputs_on env) label_on) as [[]|]; [|done].
  cbn [mbind option_bind].
  apply forward_inv in Ef as (_ & Hw & _).
  apply (mse_against_ones pred_fake Hw).
Qed.

Lemma forward_returns (env : runtime) (D0 D : Discriminator) (id : nat) (in_ch : Z)
    (dev : device) (sq ex : bool) (d : device) (x : tensor A) (n c h w : nat) :
  Discriminator_init env id in_ch dev sq ex = Some D0 ->
  Discriminator_to env D0 d = Some D ->
  inputs_on env = d ->
  shape x = [n; c; h; w] ->
  0 < c -> Z.of_nat c = in_ch -> 8 <= h -> 8 <= w -> 16 <= h \/ 16 <= w ->
  is_Some (forward env D x).
Proof.
  intros HD0 HD Hdev Hx Hpos Hc Hh Hw H16.
  destruct (discriminator_layers_shape env D0 id in_ch dev sq ex n c h w HD0)
    as [_ Hok].
  apply Discriminator_to_Some in HD as (_ & Hon & _ & _ & _ & _ & Hsame & _).
  destruct (forward_Some env D x [n; 64; h / 8 + 2; w / 8 + 2]) as (y & Hy & _).
  { congruence. }
  { rewrite Hx, Hsame. by apply Hok. }
  by exists y.
Qed.

Lemma flatten_view (x : tensor A) (b t c h w : nat) :
  shape x = [b; t; c; h; w] -> 0 < c * h * w ->
  view [None; Some c; Some h; Some w] x =
    Some (Tensor [b * t; c; h; w] (data x) (graph x)).
Proof.
  intros Hx Hpos. rewrite view_flatten_eq, Hx.
  replace (numel [b; t; c; h; w]) with (b * t * (c * h * w)) by (simpl; lia).
  destruct (c * h * w =? 0) eqn:Hz; [apply Nat.eqb_eq in Hz; lia|].
  apply Nat.eqb_neq in Hz.
  by rewrite Nat.Div0.mod_mul, Nat.div_mul.
Qed.

Lemma rearrange_seq_returns (real fake input_real : tensor A) (B T Tin C H W : nat) :
  shape fake = [B; T; C; H; W] -> shape real = [B; T; C; H; W] ->
  shape input_real = [B; Tin; C; H; W] ->
  wf fake -> wf real -> wf input_real ->
  0 < T -> T <= Tin + 1 -> 0 < B -> 0 < H -> 0 < W ->
  exists real_seqs fake_seqs,
    rearrange_seq (Some real) fake input_real false =
      Some (RealFake real_seqs fake_seqs) /\
    rearrange_seq None fake input_real true = Some (OnlyFake fake_seqs) /\
    shape fake_seqs = [B * T; (Tin + 1) * C; H; W] /\
    shape real_seqs = [B * T; (Tin + 1) * C; H; W].
Proof.
  intros Hf Hr Hi Hwf Hwr Hwi HT HTin HB HH HW.
  destruct (stack_windows_spec fake input_real B T Tin C H W)
    as (fws & fout & Hffor & Hfst & Hfsh & _); [done..|].
  destruct (stack_windows_spec real input_real B T Tin C H W)
    as (rws & rout & Hrfor & Hrst & Hrsh & _); [done..|].
  exists rout, fout. unfold rearrange_seq, size5. rewrite Hf.
  cbn [mbind option_bind]. rewrite Hffor. cbn [mbind option_bind].
  rewrite Hfst. cbn [mbind option_bind]. rewrite Hrfor. cbn [mbind option_bind].
  by rewrite Hrst.
Qed.

Lemma rearrange_seq_interp_returns (env : runtime) (real fake input_real : tensor A)
    (B T C H W : nat) :
  cuda_device env = Some (inputs_on env) ->
  shape fake = [B; T; C; H; W] -> shape real = [B; T; C; H; W] ->
  shape input_real = [B; T; C; H; W] ->
  wf fake -> wf real -> wf input_real ->
  0 < T -> 0 < B -> 0 < H -> 0 < W ->
  exists real_seqs fake_seqs,
    rearrange_seq_interp env (Some real) fake input_real false =
      Some (RealFake real_seqs fake_seqs) /\
    rearrange_seq_interp env None fake input_real true = Some (OnlyFake fake_seqs) /\
    shape fake_seqs = [B * T; T * C; H; W] /\
    shape real_seqs = [B * T; T * C; H; W].
Proof.
  intros Hdev Hf Hr Hi Hwf Hwr Hwi HT HB HH HW.
  destruct (stack_variants_spec env fake input_real B T C H W)
    as (fvs & fout & Hffor & Hfst & Hfsh & _); [done..|].
  destruct (stack_variants_spec env real input_real B T C H W)
    as (rvs & rout & Hrfor & Hrst & Hrsh & _); [done..|].
  exists rout, fout. unfold rearrange_seq_interp, size5, clone. rewrite Hf, Hdev.
  cbn [mbind option_bind]. rewrite Hffor. cbn [mbind option_bind].
  rewrite Hfst. cbn [mbind option_bind]. rewrite Hrfor. cbn [mbind option_bind].
  by rewrite Hrst.
Qed.

(** On valid inputs both losses prepare their inputs, with the channel
    count the discriminator was built for. *)
Lemma adv_inputs_return (env : runtime) (D : Discriminator) (in_ch : Z)
    (real fake input_real : tensor A) :
  valid_inputs env D in_ch real fake input_real ->
  exists r f n c h w,
    netD_adv_inputs env D real fake input_real = Some (r, f) /\
    netG_adv_input env D fake input_real = Some f /\
    shape r = [n; c; h; w] /\ shape f = [n; c; h; w] /\
    0 < c /\ Z.of_nat c = in_ch /\ 8 <= h /\ 8 <= w /\ (16 <= h \/ 16 <= w).
Proof.
  intros (_ & Hcuda & B & T & Tin & C & H & W & (Hf & Hr & Hi) & (Hwf & Hwr & Hwi) &
          (HB & HT & HC & HH & HW & H16) & Hmode).
  unfold netD_adv_inputs, netG_adv_input, size5, clone. rewrite Hf.
  cbn [mbind option_bind].
  destruct (seq_mode D); [destruct (is_extrap D)|].
  - destruct Hmode as [HTin Hch].
    destruct (rearrange_seq_returns real fake input_real B T Tin C H W)
      as (rs & fs & -> & -> & Hfs & Hrs); [done..|lia|lia|].
    exists rs, fs, (B * T), ((Tin + 1) * C), H, W. split_and!; try done. nia.
  - destruct Hmode as [-> Hch].
    destruct (rearrange_seq_interp_returns env real fake input_real B T C H W)
      as (rs & fs & -> & -> & Hfs & Hrs); [by apply Hcuda|done..|lia|lia|].
    exists rs, fs, (B * T), (T * C), H, W. split_and!; try done. nia.
  - rewrite (flatten_view real B T C H W), (flatten_view fake B T C H W)
      by (done || nia).
    by eexists _, _, (B * T), C, H, W.
Qed.

(** On valid inputs both losses return. *)
Lemma adv_losses_return (env : runtime) (D0 D : Discriminator) (id : nat) (in_ch : Z)
    (dev : device) (sq ex : bool) (d : device) (real fake input_real : tensor A) :
  Discriminator_init env id in_ch dev sq ex = Some D0 ->
  Discriminator_to env D0 d = Some D ->
  valid_inputs env D in_ch real fake input_real ->
  is_Some (netD_adv_loss env D real fake input_real) /\
  is_Some (netG_adv_loss env D fake input_real).
Proof.
  intros HD0 HD Hvalid.
  destruct (adv_inputs_return env D in_ch real fake input_real Hvalid)
    as (r & f & n & c & h & w & HinD & HinG & Hr & Hf & Hpos & Hc & Hh & Hw & H16).
  destruct Hvalid as (Hone & _).
  assert (Hdev : inputs_on env = d).
  { destruct Hone as (Hon & _).
    apply Discriminator_to_Some in HD as (_ & Hd & _). congruence. }
  destruct (forward_returns env D0 D id in_ch dev sq ex d r n c h w) as [pr Hpr];
    [done..|].
  destruct (forward_returns env D0 D id in_ch dev sq ex d f n c h w) as [pf Hpf];
    [done..|].
  destruct (forward_returns env D0 D id in_ch dev sq ex d (detach f) n c h w)
    as [pd Hpd]; [done..|].
  rewrite netD_adv_loss_unfold, netG_adv_loss_unfold, HinD, HinG.
  cbn [mbind option_bind]. rewrite Hpd, Hpr, Hpf. cbn [mbind option_bind].
  rewrite (labels_fit_one_device env D Hone). cbn [mbind option_bind].
  split; by eexists.
Qed.

(** C1.  [netD_adv_loss] rearranges (sequence mode, extrapolation or
    interpolation windows) or flattens (time into batch) its inputs, takes
    the discriminator's predictions, and, the labels living with them,
    returns (mean((pred_real - 1)^2) + mean(pred_fake^2)) * 0.5; the
    product is 0.5 times that sum in the other order too when multiplying
    by 0.5 commutes.  On valid inputs, all on one device with the
    parameters and the labels, it returns. *)
Theorem netD_adv_loss_formula (env : runtime) (D : Discriminator)
    (real fake input_real : tensor A) :
  netD_adv_inputs env D real fake input_real =
    (if seq_mode D then
       (if is_extrap D then rearrange_seq (Some real) fake input_real false
        else rearrange_seq_interp env (Some real) fake input_real false)
         ≫= unpack_pair
     else
       '(b, t, c, h, w) ← size5 fake;
       r ← view [None; Some c; Some h; Some w] real;
       f ← view [None; Some c; Some h; Some w] fake;
       Some (r, f)) /\
  netD_adv_loss env D real fake input_real =
    ('(r, f) ← netD_adv_inputs env D real fake input_real;
     pred_fake ← forward env D (detach f);
     pred_real ← forward env D r;
     _ ← labels_fit env D;
     Some (Tensor [] [smul (sadd (mse (data pred_real) sone)
                                 (mean_square (data pred_fake))) shalf]
                  (graph pred_real ∪ graph pred_fake))) /\
  ((forall v, smul v shalf = smul shalf v) ->
   netD_adv_loss env D real fake input_real =
    ('(r, f) ← netD_adv_inputs env D real fake input_real;
     pred_fake ← forward env D (detach f);
     pred_real ← forward env D r;
     _ ← labels_fit env D;
     Some (Tensor [] [smul shalf (sadd (mse (data pred_real) sone)
                                       (mean_square (data pred_fake)))]
                  (graph pred_real ∪ graph pred_fake)))) /\
  (labels_fit env D = Some () <->
     available env (device_of D) = true /\ device_of D = inputs_on env) /\
  (forall id in_ch dev sq ex D0 d,
     Discriminator_init env id in_ch dev sq ex = Some D0 ->
     Discriminator_to env D0 d = Some D ->
     valid_inputs env D in_ch real fake input_real ->
     is_Some (netD_adv_loss env D real fake input_real)).
Proof.
  split_and!.
  - unfold netD_adv_inputs, clone. destruct (seq_mode D).
    + by destruct (is_extrap D).
    + destruct (size5 fake) as [[[[[b t] c] h] w]|]; [|done]. cbn [mbind option_bind].
      destruct (view _ real); [|done]. cbn. by destruct (view _ fake).
  - apply netD_adv_loss_unfold.
  - intros Hcomm. rewrite netD_adv_loss_unfold. unfold lsgan_D.
    destruct (netD_adv_inputs env D real fake input_real) as [[r f]|]; [|done].
    cbn [mbind option_bind].
    destruct (forward env D (detach f)); [|done]. cbn [mbind option_bind].
    destruct (forward env D r); [|done]. cbn [mbind option_bind].
    destruct (labels_fit env D); [|done]. cbn [mbind option_bind].
    by rewrite Hcomm.
  - apply labels_fit_Some.
  - intros id in_ch dev sq ex D0 d HD0 HD Hvalid.
    by destruct (adv_losses_return env D0 D id in_ch dev sq ex d real fake input_real).
Qed.

(** C2.  [netG_adv_loss] applies the same rearrangement policy to
    [fake] (windows in sequence mode, time flattened into batch
    otherwise), passes the result to the discriminator as it is, and,
    the labels living with the prediction, returns
    mean((pred_fake - 1)^2); the loss stays attached to everything
    [fake] is attached to.  On valid inputs, all on one device with the
    parameters and the labels, it returns. *)
Theorem netG_adv_loss_formula (env : runtime) (D : Discriminator)
    (fake input_real : tensor A) :
  netG_adv_input env D fake input_real =
    ('(b, t, c, h, w) ← size5 fake;
     if seq_mode D then
       (if is_extrap D then rearrange_seq None fake input_real true
        else rearrange_seq_interp env None fake input_real true) ≫= unpack_fake
     else view [None; Some c; Some h; Some w] fake) /\
  netG_adv_loss env D fake input_real =
    (f ← netG_adv_input env D fake input_real;
     pred_fake ← forward env D f;
     _ ← labels_fit env D;
     Some (Tensor [] [mse (data pred_fake) sone] (graph pred_fake))) /\
  (forall loss, netG_adv_loss env D fake input_real = Some loss ->
     graph fake ⊆ graph loss) /\
  (labels_fit env D = Some () <->
     available env (device_of D) = true /\ device_of D = inputs_on env) /\
  (forall id in_ch dev sq ex D0 d real,
     Discriminator_init env id in_ch dev sq ex = Some D0 ->
     Discriminator_to env D0 d = Some D ->
     valid_inputs env D in_ch real fake input_real ->
     is_Some (netG_adv_loss env D fake input_real)).
Proof.
  split_and!.
  - unfold netG_adv_input, clone.
    destruct (size5 fake) as [[[[[b t] c] h] w]|]; [|done]. cbn [mbind option_bind].
    destruct (seq_mode D).
    + by destruct (is_extrap D).
    + by destruct (view _ fake).
  - apply netG_adv_loss_unfold.
  - intros loss. rewrite netG_adv_loss_unfold.
    destruct (netG_adv_input env D fake input_real) as [f|] eqn:Ef; [|done].
    cbn [mbind option_bind].
    destruct (forward env D f) as [pred|] eqn:Ep; [|done]. cbn [mbind option_bind].
    destruct (labels_fit env D); [|done]. cbn [mbind option_bind].
    intros [= <-]. cbn [graph].
    apply forward_inv in Ep as (_ & _ & ->).
    apply netG_adv_input_graph in Ef as ->.
    destruct (seq_mode D); set_solver.
  - apply labels_fit_Some.
  - intros id in_ch dev sq ex D0 d real HD0 HD Hvalid.
    by destruct (adv_losses_return env D0 D id in_ch dev sq ex d real fake input_real).
Qed.

(** C7.  The discriminator loss is attached to what [real] (and, in
    sequence mode, [input_real]) is attached to and to the
    discriminator's parameters, and to nothing else: [fake] reaches the
    network detached, [real] does not.  The generator loss is attached
    to everything [fake] is attached to. *)
Theorem one_sided_detach (env : runtime) (D : Discriminator)
    (real fake input_real : tensor A) :
  (forall r f, netD_adv_inputs env D real fake input_real = Some (r, f) ->
     graph (detach f) = ∅ /\
     netD_adv_loss env D real fake input_real =
       (pred_fake ← forward env D (detach f);
        pred_real ← forward env D r;
        _ ← labels_fit env D;
        Some (Tensor [] [lsgan_D (data pred_real) (data pred_fake)]
                     (graph pred_real ∪ graph pred_fake)))) /\
  (forall loss, netD_adv_loss env D real fake input_real = Some loss ->
     graph loss =
       (if seq_mode D then graph input_real ∪ graph real else graph real)
       ∪ list_to_set (parameters D) /\
     graph real ⊆ graph loss /\
     forall g, g ∈ graph fake ->
       g ∉ graph real -> g ∉ graph input_real -> g ∉ parameters D ->
       g ∉ graph loss) /\
  (forall f, netG_adv_input env D fake input_real = Some f ->
     graph fake ⊆ graph f /\
     netG_adv_loss env D fake input_real =
       (pred_fake ← forward env D f;
        _ ← labels_fit env D;
        Some (Tensor [] [mse (data pred_fake) sone] (graph pred_fake)))) /\
  (forall loss, netG_adv_loss env D fake input_real = Some loss ->
     graph loss =
       (if seq_mode D then graph input_real ∪ graph fake else graph fake)
       ∪ list_to_set (parameters D) /\
     graph fake ⊆ graph loss).
Proof.
  split_and!.
  - intros r f Hin. split; [done|].
    by rewrite netD_adv_loss_unfold, Hin.
  - intros loss. rewrite netD_adv_loss_unfold.
    destruct (netD_adv_inputs env D real fake input_real) as [[r f]|] eqn:Ein; [|done].
    cbn [mbind option_bind].
    destruct (forward env D (detach f)) as [pf|] eqn:Epf; [|done]. cbn [mbind option_bind].
    destruct (forward env D r) as [pr|] eqn:Epr; [|done]. cbn [mbind option_bind].
    destruct (labels_fit env D); [|done]. cbn [mbind option_bind].
    intros [= <-]. cbn [graph].
    apply forward_inv in Epf as (_ & _ & ->). apply forward_inv in Epr as (_ & _ & ->).
    apply netD_adv_inputs_graph in Ein as [-> _]. cbn [detach graph].
    assert (Hg : forall g : gset leaf,
      g ∪ list_to_set (parameters D) ∪ (∅ ∪ list_to_set (parameters D)) =
      g ∪ list_to_set (parameters D)) by (intros g; set_solver).
    rewrite Hg. split_and!; [done| |].
    + destruct (seq_mode D); set_solver.
    + intros g _ Hr Hi Hp.
      destruct (seq_mode D); set_solver.
  - intros f Hin. split.
    + apply netG_adv_input_graph in Hin as ->. destruct (seq_mode D); set_solver.
    + by rewrite netG_adv_loss_unfold, Hin.
  - intros loss. rewrite netG_adv_loss_unfold.
    destruct (netG_adv_input env D fake input_real) as [f|] eqn:Ef; [|done].
    cbn [mbind option_bind].
    destruct (forward env D f) as [pred|] eqn:Ep; [|done]. cbn [mbind option_bind].
    destruct (labels_fit env D); [|done]. cbn [mbind option_bind].
    intros [= <-]. cbn [graph].
    apply forward_inv in Ep as (_ & _ & ->).
    apply netG_adv_input_graph in Ef as ->.
    split; [done|]. destruct (seq_mode D); set_solver.
Qed.

End LossProperties.

(** ** Flattening time into batch *)

Section FlattenProperties.
Context {A : Type} {SA : Scalar A} {LA : LossScalar A} {KA : Kernels A}.

(** C10, amended.  Without sequence mode both tensors are viewed as
    (-1, C, H, W) with C, H, W read from [fake]: [fake] becomes
    (B*T, C, H, W), and [real], whatever its own shape, is read as
    images of C*H*W entries, as many as its entries make up.  The view
    fails exactly when C*H*W is zero or does not divide the number of
    entries of [real]; with as many entries as [fake] (and C*H*W
    nonzero) [real] becomes (B*T, C, H, W) too. *)
Theorem flatten_reads_real_by_fake_dims (env : runtime) (D : Discriminator)
    (real fake input_real : tensor A) (b t c h w : nat) :
  seq_mode D = false ->
  shape fake = [b; t; c; h; w] ->
  netD_adv_inputs env D real fake input_real =
    (if (c * h * w =? 0) || negb (numel (shape real) mod (c * h * w) =? 0) then None
     else Some (Tensor [numel (shape real) / (c * h * w); c; h; w]
                       (data real) (graph real),
                Tensor [b * t; c; h; w] (data fake) (graph fake))) /\
  (netD_adv_inputs env D real fake input_real = None <->
     c * h * w = 0 \/ numel (shape real) mod (c * h * w) <> 0) /\
  (numel (shape real) = numel (shape fake) -> c * h * w <> 0 ->
     netD_adv_inputs env D real fake input_real =
       Some (Tensor [b * t; c; h; w] (data real) (graph real),
             Tensor [b * t; c; h; w] (data fake) (graph fake))).
Proof.
  intros Hseq Hf.
  assert (Hnf : numel (shape fake) = b * t * (c * h * w)) by (rewrite Hf; simpl; lia).
  assert (Heq : netD_adv_inputs env D real fake input_real =
    (if (c * h * w =? 0) || negb (numel (shape real) mod (c * h * w) =? 0) then None
     else Some (Tensor [numel (shape real) / (c * h * w); c; h; w]
                       (data real) (graph real),
                Tensor [b * t; c; h; w] (data fake) (graph fake)))).
  { unfold netD_adv_inputs, size5, clone. rewrite Hseq, Hf. cbn [mbind option_bind].
    rewrite !view_flatten_eq.
    destruct (c * h * w =? 0) eqn:Hz; [done|]. apply Nat.eqb_neq in Hz.
    cbn [orb].
    destruct (numel (shape real) mod (c * h * w) =? 0); [|done].
    rewrite Hnf, Nat.Div0.mod_mul, Nat.div_mul by done. done. }
  split_and!; [done| |].
  - rewrite Heq.
    destruct (c * h * w =? 0) eqn:Hz;
      [apply Nat.eqb_eq in Hz|apply Nat.eqb_neq in Hz]; cbn [orb].
    + split; [by left|done].
    + destruct (numel (shape real) mod (c * h * w) =? 0) eqn:Hm;
        [apply Nat.eqb_eq in Hm|apply Nat.eqb_neq in Hm]; cbn [negb].
      * split; [done|]. intros [?|?]; lia.
      * split; [by right|done].
  - intros Hn Hz. rewrite Heq, Hn, Hnf.
    apply Nat.eqb_neq in Hz as Hz'. rewrite Hz'.
    rewrite Nat.Div0.mod_mul, Nat.div_mul by done. done.
Qed.

End FlattenProperties.

(** ** create_netD *)

(** C5, amended.  The sequence length is half the sample size (rounded
    down); it is the whole sample size instead when [irregular] is set
    and [extrap] is not, and one more than the half when [extrap] is set.
    For a sample size and a learning rate that are not negative, a device
    the machine has and parameters that can be allocated, [create_netD]
    builds an image-level discriminator (no sequence mode, 3 input
    channels) and a sequence-level one (sequence mode, 3 * seq_len input
    channels), both moved to the device, and one optimizer whose
    parameters are those of the two instances together. *)
Theorem create_netD_spec (env : runtime) (opt : options) (dev : device) :
  (0 <= sample_size opt)%Z ->
  (0 <=? lr opt)%float = true ->
  available env dev = true ->
  allocatable env (3 * seq_len_of opt) ->
  seq_len_of opt =
    (if irregular opt && negb (extrap opt) then sample_size opt
     else if extrap opt then sample_size opt / 2 + 1
     else sample_size opt / 2)%Z /\
  exists netD_img netD_seq optimizer_netD,
    create_netD env opt dev = Some (netD_img, netD_seq, optimizer_netD) /\
    (Discriminator_init env 0 3 dev false (extrap opt)
       ≫= (fun D => Discriminator_to env D dev)) = Some netD_img /\
    (Discriminator_init env 1 (3 * seq_len_of opt) dev true (extrap opt)
       ≫= (fun D => Discriminator_to env D dev)) = Some netD_seq /\
    seq_mode netD_img = false /\
    seq_mode netD_seq = true /\
    (weights_on netD_img = dev /\ weights_on netD_seq = dev /\
     device_of netD_img = dev /\ device_of netD_seq = dev) /\
    head (all_layers netD_img) = Some (Conv2d 3 64 4 2 1 false) /\
    head (all_layers netD_seq) =
      Some (Conv2d (Z.to_nat (3 * seq_len_of opt)) 64 4 2 1 false) /\
    param_group optimizer_netD = parameters netD_img ++ parameters netD_seq /\
    NoDup (param_group optimizer_netD) /\
    (forall p, p ∈ param_group optimizer_netD <->
               p ∈ parameters netD_img \/ p ∈ parameters netD_seq) /\
    learning_rate optimizer_netD = lr opt.
Proof.
  intros Hs Hlr Hav Hal.
  assert (Hlen : seq_len_of opt =
    (if irregular opt && negb (extrap opt) then sample_size opt
     else if extrap opt then sample_size opt / 2 + 1
     else sample_size opt / 2)%Z).
  { unfold seq_len_of. by destruct (irregular opt), (extrap opt). }
  split; [done|].
  assert (Hnn : (0 <= 3 * seq_len_of opt)%Z).
  { rewrite Hlen. pose proof (Z.div_pos (sample_size opt) 2 Hs).
    destruct (irregular opt && negb (extrap opt)), (extrap opt); lia. }
  destruct (proj2 (Discriminator_init_is_Some env 0 3 dev false (extrap opt)))
    as [D0 HD0].
  { split; [lia|]. destruct Hal as [_ Hbig]. split; [lia|done]. }
  destruct (proj2 (Discriminator_init_is_Some env 1 (3 * seq_len_of opt) dev true
                     (extrap opt))) as [D1 HD1]; [done|].
  unfold create_netD. rewrite HD0, HD1. cbn [mbind option_bind].
  apply Discriminator_init_Some in HD0 as [_ ->], HD1 as [_ ->].
  unfold Discriminator_to, to_device. rewrite Hav.
  cbn [mbind option_bind uid device_of seq_mode is_extrap layer_1 layer_2 layer_3
         layer_4 last_conv].
  unfold Adamax_init. rewrite Hlr.
  eexists _, _, _. split_and!; try reflexivity.
  - cbn [param_group]. by apply (bool_decide_unpack _); vm_compute.
  - intros p. cbn [param_group]. apply elem_of_app.
Qed.

(** ** Windows that cannot be stacked *)

Section WindowFailures.
Context {A : Type}.

(** [torch.cat] along dimension 0 refuses a list in which some tensor
    differs from the first one in a later dimension. *)
Lemma cat0_mismatch (xs : list (tensor A)) (x0 x : tensor A) (j : nat) :
  xs !! 0 = Some x0 -> xs !! j = Some x ->
  drop 1 (shape x0) <> drop 1 (shape x) ->
  cat xs 0 = None.
Proof.
  intros H0 Hj Hne. unfold cat.
  destruct xs as [|x0' xs']; [done|]. injection H0 as ->.
  destruct (shape x0 !! 0); [|done]. cbn [mbind option_bind].
  destruct (forallb _ _) eqn:Hall; [|done].
  rewrite forallb_forall in Hall.
  specialize (Hall x). unfold cat_compatible in Hall.
  rewrite !andb_true_iff in Hall.
  destruct Hall as [_ Hd].
  - apply list_elem_of_In. by eapply list_elem_of_lookup_2.
  - by apply bool_decide_eq_true_1 in Hd.
Qed.

Lemma rearrange_seq_few_frames (r : option (tensor A)) (fake input_real : tensor A)
    (only_fake : bool) (B T Tin C H W : nat) :
  shape fake = [B; T; C; H; W] -> shape input_real = [B; Tin; C; H; W] ->
  wf fake -> wf input_real ->
  Tin + 1 < T ->
  rearrange_seq r fake input_real only_fake = None.
Proof.
  intros Hf Hi Hwf Hwi Hlt.
  destruct (for_range_seq (seq_window fake input_real) T) as (ws & Hfor & Hlen & Hlook).
  { intros i Hi'.
    destruct (seq_window_spec fake input_real B T Tin C H W i) as (win & -> & _); done. }
  destruct (seq_window_spec fake input_real B T Tin C H W 0)
    as (w0 & Hw0 & Hs0 & _); [done..|lia|].
  destruct (seq_window_spec fake input_real B T Tin C H W (T - 1))
    as (wl & Hwl & Hsl & _); [done..|lia|].
  unfold rearrange_seq, size5. rewrite Hf. cbn [mbind option_bind].
  rewrite Hfor. cbn [mbind option_bind].
  unfold stack_view.
  rewrite (cat0_mismatch ws w0 wl (T - 1)); [done| | |].
  - rewrite Hlook by lia. done.
  - rewrite Hlook by lia. done.
  - rewrite Hs0, Hsl. cbn [drop]. intros [= Heq]. lia.
Qed.

(** X1.  The window of step [i] holds the conditioning frames left from
    [i] on (none once [i] reaches their number) and [i + 1] target
    frames.  With fewer than T-1 conditioning frames the windows differ
    in length and stacking them raises, whatever [real] and [only_fake]
    are; on a non-empty input [rearrange_seq] returns exactly when the
    conditioning tensor has at least T-1 frames. *)
Theorem rearrange_seq_returns_iff_enough_frames (fake input_real : tensor A)
    (B T Tin C H W : nat) :
  shape fake = [B; T; C; H; W] -> shape input_real = [B; Tin; C; H; W] ->
  wf fake -> wf input_real -> 0 < T ->
  (forall i, i < T ->
     exists win, seq_window fake input_real i = Some win /\
       shape win = [B; (Tin - i) + (i + 1); C; H; W]) /\
  (Tin + 1 < T -> forall r only_fake,
     rearrange_seq r fake input_real only_fake = None) /\
  (0 < B -> 0 < H -> 0 < W ->
     (is_Some (rearrange_seq None fake input_real true) <-> T <= Tin + 1)).
Proof.
  intros Hf Hi Hwf Hwi HT. split; [|split].
  - intros i Hlt.
    destruct (seq_window_spec fake input_real B T Tin C H W i)
      as (win & Hwin & Hsh & _); [done..|].
    by exists win.
  - intros Hlt r only_fake.
    by apply (rearrange_seq_few_frames r fake input_real only_fake B T Tin C H W).
  - intros HB HH HW. split.
    + intros [out Hout]. destruct (decide (T <= Tin + 1)) as [|Hn]; [done|].
      rewrite (rearrange_seq_few_frames None fake input_real true B T Tin C H W)
        in Hout by (done || lia).
      done.
    + intros HTin.
      destruct (stack_windows_spec fake input_real B T Tin C H W)
        as (ws & out & Hfor & Hst & _); [done..|].
      exists (OnlyFake out). unfold rearrange_seq, size5. rewrite Hf.
      cbn [mbind option_bind]. rewrite Hfor. cbn [mbind option_bind].
      by rewrite Hst.
Qed.

End WindowFailures.

Section EmptyTime.
Context {A : Type} {SA : Scalar A} {LA : LossScalar A} {KA : Kernels A}.

(** X2.  With a [fake] of zero time steps the loops collect nothing and
    [torch.cat] is given an empty list: both rearrangements raise, and so
    do both losses of a discriminator in sequence mode. *)
Theorem no_time_steps_raise (env : runtime) (D : Discriminator)
    (real fake input_real : tensor A) (B C H W : nat) :
  shape fake = [B; 0; C; H; W] ->
  (forall r only_fake, rearrange_seq r fake input_real only_fake = None) /\
  (forall r only_fake,
     rearrange_seq_interp env r fake input_real only_fake = None) /\
  (seq_mode D = true ->
     netD_adv_loss env D real fake input_real = None /\
     netG_adv_loss env D fake input_real = None).
Proof.
  intros Hf.
  assert (Hseq : forall r only_fake, rearrange_seq r fake input_real only_fake = None).
  { intros r only_fake. unfold rearrange_seq, size5. by rewrite Hf. }
  assert (Hint : forall r only_fake,
            rearrange_seq_interp env r fake input_real only_fake = None).
  { intros r only_fake. unfold rearrange_seq_interp, size5. rewrite Hf.
    cbn [mbind option_bind]. by destruct (cuda_device env). }
  split_and!; [done..|].
  intros Hmode. split.
  - unfold netD_adv_loss, netD_adv_inputs, clone. rewrite Hmode.
    destruct (is_extrap D); by rewrite ?Hseq, ?Hint.
  - unfold netG_adv_loss, netG_adv_input, clone, size5. rewrite Hf, Hmode.
    cbn [mbind option_bind].
    destruct (is_extrap D); by rewrite ?Hseq, ?Hint.
Qed.

End EmptyTime.

(** ** When forward returns *)

Lemma layer_shape_norm_spatial (f n c h w : nat) (s : list nat) :
  layer_shape (InstanceNorm2d f) [n; c; h; w] = Some s -> h * w <> 1.
Proof.
  cbn [layer_shape]. destruct (h * w =? 1) eqn:E; [done|].
  intros _. by apply Nat.eqb_neq in E.
Qed.

(** The third stage halves the input three times; its normalisation is
    left with one spatial element unless a side is at least 16. *)
Lemma discriminator_layers_need_16 (env : runtime) (D : Discriminator) (id : nat)
    (in_ch : Z) (dev : device) (sq ex : bool) (n c h w : nat) (s : list nat) :
  Discriminator_init env id in_ch dev sq ex = Some D ->
  layers_shape (all_layers D) [n; c; h; w] = Some s ->
  16 <= h \/ 16 <= w.
Proof.
  intros HD Hs.
  destruct (discriminator_layers_shape env D id in_ch dev sq ex n c h w HD)
    as [Hinv _].
  destruct (Hinv s Hs) as (_ & Hh & Hw & _).
  revert Hs. apply Discriminator_init_Some in HD as [_ ->].
  unfold all_layers. cbn [layer_1 layer_2 layer_3 layer_4 last_conv].
  unfold ConvNormAct_init. cbn [String.eqb Ascii.eqb Bool.eqb app main].
  intros Hs.
  apply layers_shape_cons_inv in Hs as (? & Hl & Hs).
  apply layer_shape_conv_inv in Hl as [_ ->].
  apply layers_shape_cons_inv in Hs as (? & Hl & Hs). injection Hl as <-.
  apply layers_shape_cons_inv in Hs as (? & Hl & Hs).
  apply layer_shape_conv_inv in Hl as [_ ->].
  cbn [Nat.eqb] in Hs.
  apply layers_shape_cons_inv in Hs as (? & Hl & Hs).
  apply layer_shape_norm_inv in Hl as ->.
  apply layers_shape_cons_inv in Hs as (? & Hl & Hs). injection Hl as <-.
  apply layers_shape_cons_inv in Hs as (? & Hl & Hs).
  apply layer_shape_conv_inv in Hl as [_ ->].
  cbn [Nat.eqb] in Hs.
  apply layers_shape_cons_inv in Hs as (? & Hl & _).
  apply layer_shape_norm_spatial in Hl.
  pose proof (half_spec h). pose proof (half_spec (h / 2)).
  pose proof (half_spec (h / 2 / 2)).
  pose proof (half_spec w). pose proof (half_spec (w / 2)).
  pose proof (half_spec (w / 2 / 2)).
  rewrite (conv_out_halves h), (conv_out_halves (h / 2)),
    (conv_out_halves (h / 2 / 2)) in Hl by lia.
  rewrite (conv_out_halves w), (conv_out_halves (w / 2)),
    (conv_out_halves (w / 2 / 2)) in Hl by lia.
  destruct (decide (16 <= h)) as [|Hh16]; [by left|].
  destruct (decide (16 <= w)) as [|Hw16]; [by right|].
  exfalso. apply Hl.
  assert (h / 2 / 2 / 2 = 1) as -> by lia.
  assert (w / 2 / 2 / 2 = 1) as -> by lia.
  done.
Qed.

Section ForwardReturns.
Context {A : Type} {KA : Kernels A}.

(** X7.  On a non-empty batch, [forward] of a discriminator built for
    [in_ch] channels and moved to a device returns exactly when the input
    is on that device and has [in_ch] channels, at least one, and spatial
    sizes of at least 8, one of them at least 16.  With both sides below
    16 it raises, and so does a discriminator built for no channel on
    every input. *)
Theorem forward_returns_iff (env : runtime) (id : nat) (in_ch : Z) (dev : device)
    (sq ex : bool) (D0 D : Discriminator) (d : device) (x : tensor A)
    (n c h w : nat) :
  Discriminator_init env id in_ch dev sq ex = Some D0 ->
  Discriminator_to env D0 d = Some D ->
  shape x = [n; c; h; w] ->
  0 < n ->
  (is_Some (forward env D x) <->
     inputs_on env = d /\ 0 < c /\ Z.of_nat c = in_ch /\
     8 <= h /\ 8 <= w /\ (16 <= h \/ 16 <= w)) /\
  (h < 16 -> w < 16 -> forward env D x = None) /\
  (in_ch = 0%Z -> forward env D x = None) /\
  (inputs_on env <> d -> forward env D x = None).
Proof.
  intros HD0 HD Hx Hn.
  pose proof HD as Hto.
  apply Discriminator_to_Some in HD as (_ & Hw & _ & _ & _ & _ & Hlay & _).
  destruct (discriminator_layers_shape env D0 id in_ch dev sq ex n c h w HD0)
    as [Hinv Hok].
  assert (Hnec : is_Some (forward env D x) ->
            inputs_on env = d /\ 0 < c /\ Z.of_nat c = in_ch /\
            8 <= h /\ 8 <= w /\ (16 <= h \/ 16 <= w)).
  { intros [y Hy]. pose proof (forward_device _ _ _ _ Hy) as Hdev.
    apply forward_inv in Hy as (Hs & _).
    rewrite Hx, Hlay in Hs. destruct (Hinv _ Hs) as (Hc & Hh & Hw' & _).
    split_and!; [congruence| |done..|].
    - by eapply discriminator_layers_channels.
    - by eapply discriminator_layers_need_16. }
  split_and!.
  - split; [done|]. intros (Hd & Hpos & Hc & Hh & Hw' & H16).
    by eapply forward_returns.
  - intros Hh Hw'. destruct (forward env D x) as [y|] eqn:Hy; [|done].
    destruct Hnec as (_ & _ & _ & _ & _ & [?|?]); [by exists y|lia|lia].
  - intros Hz. destruct (forward env D x) as [y|] eqn:Hy; [|done].
    destruct Hnec as (_ & ? & ? & _); [by exists y|lia].
  - intros Hne. destruct (forward env D x) as [y|] eqn:Hy; [|done].
    destruct Hnec as (? & _); [by exists y|done].
Qed.

(** X8.  The output of [forward] has as many entries as its shape says,
    and is attached to everything the input is attached to and to every
    parameter of the discriminator. *)
Theorem forward_attaches_every_parameter (env : runtime) (D : Discriminator)
    (x y : tensor A) :
  forward env D x = Some y ->
  wf y /\
  graph y = graph x ∪ list_to_set (parameters D) /\
  graph x ⊆ graph y /\
  (forall p, p ∈ parameters D -> p ∈ graph y).
Proof.
  intros Hy. apply forward_inv in Hy as (_ & Hw & Hg).
  split_and!; [done|done|set_solver|].
  intros p Hp. rewrite Hg. set_solver.
Qed.

End ForwardReturns.

(** X6.  A discriminator registers eight parameters, in this order: the
    weight of the first convolution (no bias), weight and bias of the
    convolutions of stages 2 to 4 (instance normalisation has none), and
    the weight of the last convolution (no bias).  They are pairwise
    distinct, and two instances share none. *)
Theorem Discriminator_parameters (env : runtime) (id : nat) (in_ch : Z)
    (dev : device) (sq ex : bool) (D : Discriminator) :
  Discriminator_init env id in_ch dev sq ex = Some D ->
  parameters D =
    [Weight id "layer_1.0.weight";
     Weight id "layer_2.main.0.weight"; Weight id "layer_2.main.0.bias";
     Weight id "layer_3.main.0.weight"; Weight id "layer_3.main.0.bias";
     Weight id "layer_4.main.0.weight"; Weight id "layer_4.main.0.bias";
     Weight id "last_conv.weight"] /\
  NoDup (parameters D) /\
  (forall env' id' in_ch' dev' sq' ex' D',
     Discriminator_init env' id' in_ch' dev' sq' ex' = Some D' -> id <> id' ->
     forall p, p ∈ parameters D -> p ∉ parameters D').
Proof.
  intros HD.
  assert (Hpar : forall e i c d s x D0, Discriminator_init e i c d s x = Some D0 ->
    parameters D0 =
    [Weight i "layer_1.0.weight";
     Weight i "layer_2.main.0.weight"; Weight i "layer_2.main.0.bias";
     Weight i "layer_3.main.0.weight"; Weight i "layer_3.main.0.bias";
     Weight i "layer_4.main.0.weight"; Weight i "layer_4.main.0.bias";
     Weight i "last_conv.weight"]).
  { intros e i c d s x D0 H0. by apply Discriminator_init_Some in H0 as [_ ->]. }
  split_and!.
  - by eapply Hpar.
  - rewrite (Hpar _ _ _ _ _ _ _ HD).
    repeat (apply NoDup_cons; split; [set_solver|]). apply NoDup_nil_2.
  - intros env' id' in_ch' dev' sq' ex' D' HD' Hne p.
    rewrite (Hpar _ _ _ _ _ _ _ HD), (Hpar _ _ _ _ _ _ _ HD').
    rewrite !elem_of_cons, elem_of_nil.
    intros Hp Hp'.
    repeat (destruct Hp as [->|Hp]; [set_solver|]). done.
Qed.

(** ** What the two losses are given *)

Section PreparedInputs.
Context {A : Type} {SA : Scalar A} {LA : LossScalar A} {KA : Kernels A}.

Lemma rearrange_seq_pair_fake (r : option (tensor A)) (fake input_real : tensor A)
    (rs fs : tensor A) :
  rearrange_seq r fake input_real false = Some (RealFake rs fs) ->
  is_Some (size5 fake) /\
  forall r', rearrange_seq r' fake input_real true = Some (OnlyFake fs).
Proof.
  unfold rearrange_seq.
  destruct (size5 fake) as [[[[[b t] c] h] w]|]; [|done]. cbn [mbind option_bind].
  destruct (for_range (seq_window fake input_real) _ _) as [fws|]; [|done].
  cbn [mbind option_bind].
  destruct (stack_view fws b t h w) as [fout|]; [|done]. cbn [mbind option_bind].
  destruct r as [real|]; [|done]. cbn [mbind option_bind].
  destruct (for_range (seq_window real input_real) _ _) as [rws|]; [|done].
  cbn [mbind option_bind].
  destruct (stack_view rws b t h w) as [rout|]; [|done]. cbn [mbind option_bind].
  intros [= <- <-]. split; [by eexists|done].
Qed.

Lemma rearrange_seq_interp_pair_fake (env : runtime) (r : option (tensor A))
    (fake input_real : tensor A) (rs fs : tensor A) :
  rearrange_seq_interp env r fake input_real false = Some (RealFake rs fs) ->
  is_Some (size5 fake) /\
  forall r', rearrange_seq_interp env r' fake input_real true = Some (OnlyFake fs).
Proof.
  unfold rearrange_seq_interp.
  destruct (size5 fake) as [[[[[b t] c] h] w]|]; [|done]. cbn [mbind option_bind].
  destruct (cuda_device env) as [mask_on|]; [|done]. cbn [mbind option_bind].
  destruct (for_range (interp_variant _ _ _ fake input_real) _ _) as [fws|]; [|done].
  cbn [mbind option_bind].
  destruct (stack_view fws b t h w) as [fout|]; [|done]. cbn [mbind option_bind].
  destruct r as [real|]; [|done]. cbn [mbind option_bind].
  destruct (for_range (interp_variant _ _ _ real input_real) _ _) as [rws|]; [|done].
  cbn [mbind option_bind].
  destruct (stack_view rws b t h w) as [rout|]; [|done]. cbn [mbind option_bind].
  intros [= <- <-]. split; [by eexists|done].
Qed.

(** The mask of [rearrange_seq_interp] is made on the current CUDA
    device: the function returns only where that is the inputs' one. *)
Lemma rearrange_seq_interp_device (env : runtime) (r : option (tensor A))
    (fake input_real : tensor A) (only_fake : bool) (B T C H W : nat)
    (out : rearranged A) :
  shape fake = [B; T; C; H; W] -> 0 < T ->
  rearrange_seq_interp env r fake input_real only_fake = Some out ->
  cuda_device env = Some (inputs_on env).
Proof.
  intros Hf HT Hout.
  destruct (decide (cuda_device env = Some (inputs_on env))) as [|Hdev]; [done|].
  exfalso. revert Hout. unfold rearrange_seq_interp, clone, size5. rewrite Hf.
  cbn [mbind option_bind].
  destruct (cuda_device env) as [mask_on|]; [|done]. cbn [mbind option_bind].
  rewrite (for_range_None _ T 0); [done|done|].
  unfold interp_variant, clone.
  rewrite index0_eye by done. cbn [mbind option_bind].
  rewrite view_row. cbn [mbind option_bind fmap option_fmap option_map].
  rewrite same_device_None; [done|]. by intros ->.
Qed.

Lemma netD_fake_is_netG_input (env : runtime) (D : Discriminator)
    (real fake input_real r f : tensor A) :
  netD_adv_inputs env D real fake input_real = Some (r, f) ->
  netG_adv_input env D fake input_real = Some f.
Proof.
  unfold netD_adv_inputs, netG_adv_input, clone.
  destruct (seq_mode D); [destruct (is_extrap D)|].
  - destruct (rearrange_seq (Some real) fake input_real false) as [[?|rs fs]|] eqn:Hq;
      [done| |done].
    cbn. intros [= -> ->].
    apply rearrange_seq_pair_fake in Hq as [[[[[[b t] c] h] w] ->] Hfake].
    cbn [mbind option_bind]. by rewrite Hfake.
  - destruct (rearrange_seq_interp env (Some real) fake input_real false)
      as [[?|rs fs]|] eqn:Hq; [done| |done].
    cbn. intros [= -> ->].
    apply rearrange_seq_interp_pair_fake in Hq as [[[[[[b t] c] h] w] ->] Hfake].
    cbn [mbind option_bind]. by rewrite Hfake.
  - destruct (size5 fake) as [[[[[b t] c] h] w]|]; [|done]. cbn [mbind option_bind].
    destruct (view _ real) as [r'|]; [|done]. cbn.
    destruct (view _ fake) as [f'|]; [|done]. cbn.
    by intros [= _ ->].
Qed.

(** X9.  Whenever [netD_adv_loss] prepares its inputs, [netG_adv_loss]
    prepares the very same fake tensor: the discriminator loss scores it
    detached (same shape, same entries), the generator loss as it is. *)
Theorem losses_score_the_same_fake (env : runtime) (D : Discriminator)
    (real fake input_real r f : tensor A) :
  netD_adv_inputs env D real fake input_real = Some (r, f) ->
  netG_adv_input env D fake input_real = Some f /\
  shape (detach f) = shape f /\ data (detach f) = data f /\
  netD_adv_loss env D real fake input_real =
    (pred_fake ← forward env D (detach f);
     pred_real ← forward env D r;
     _ ← labels_fit env D;
     Some (Tensor [] [lsgan_D (data pred_real) (data pred_fake)]
                  (graph pred_real ∪ graph pred_fake))) /\
  netG_adv_loss env D fake input_real =
    (pred_fake ← forward env D f;
     _ ← labels_fit env D;
     Some (Tensor [] [mse (data pred_fake) sone] (graph pred_fake))).
Proof.
  intros Hin. pose proof (netD_fake_is_netG_input _ _ _ _ _ _ _ Hin) as HinG.
  split_and!; [done..| |].
  - by rewrite netD_adv_loss_unfold, Hin.
  - by rewrite netG_adv_loss_unfold, HinG.
Qed.

(** X10.  Without sequence mode neither loss depends on [input_real]. *)
Theorem image_mode_ignores_input_real (env : runtime) (D : Discriminator)
    (real fake input_real input_real' : tensor A) :
  seq_mode D = false ->
  netD_adv_loss env D real fake input_real =
    netD_adv_loss env D real fake input_real' /\
  netG_adv_loss env D fake input_real = netG_adv_loss env D fake input_real'.
Proof.
  intros Hmode. split.
  - unfold netD_adv_loss, netD_adv_inputs. by rewrite Hmode.
  - unfold netG_adv_loss, netG_adv_input. by rewrite Hmode.
Qed.

Lemma forward_some_shape (env : runtime) (D : Discriminator) (x x' : tensor A) :
  shape x = shape x' -> is_Some (forward env D x) -> is_Some (forward env D x').
Proof.
  intros Hs [y Hy]. pose proof (forward_device _ _ _ _ Hy) as Hdev.
  apply forward_inv in Hy as (Hl & _).
  rewrite Hs in Hl.
  destruct (forward_Some env D x' (shape y) Hdev Hl) as (y' & Hy' & _). by exists y'.
Qed.

Lemma rearrange_seq_batch (r : option (tensor A)) (fake cond fs : tensor A)
    (B T C H W : nat) :
  shape fake = [B; T; C; H; W] ->
  rearrange_seq r fake cond true = Some (OnlyFake fs) ->
  exists k, shape fs = [B * T; k; H; W].
Proof.
  intros Hf. unfold rearrange_seq, size5. rewrite Hf. cbn [mbind option_bind].
  destruct (for_range (seq_window fake cond) _ _) as [fws|]; [|done].
  cbn [mbind option_bind].
  destruct (stack_view fws B T H W) as [fout|] eqn:Ef; [|done].
  cbn [mbind option_bind]. intros [= <-]. by eapply stack_view_shape.
Qed.

Lemma rearrange_seq_interp_batch (env : runtime) (r : option (tensor A))
    (fake cond fs : tensor A) (B T C H W : nat) :
  shape fake = [B; T; C; H; W] ->
  rearrange_seq_interp env r fake cond true = Some (OnlyFake fs) ->
  exists k, shape fs = [B * T; k; H; W].
Proof.
  intros Hf. unfold rearrange_seq_interp, size5. rewrite Hf. cbn [mbind option_bind].
  destruct (cuda_device env) as [mask_on|]; [|done]. cbn [mbind option_bind].
  destruct (for_range (interp_variant _ _ _ fake cond) _ _) as [fws|]; [|done].
  cbn [mbind option_bind].
  destruct (stack_view fws B T H W) as [fout|] eqn:Ef; [|done].
  cbn [mbind option_bind]. intros [= <-]. by eapply stack_view_shape.
Qed.

(** If the network accepts what the generator loss prepares, and the
    labels can be made, the inputs were valid. *)
Lemma prepared_fake_valid (env : runtime) (D0 D : Discriminator) (id : nat)
    (in_ch : Z) (dev : device) (sq ex : bool) (d : device)
    (real fake input_real f : tensor A) (B T Tin C H W : nat) (s : list nat) :
  Discriminator_init env id in_ch dev sq ex = Some D0 ->
  Discriminator_to env D0 d = Some D ->
  shape fake = [B; T; C; H; W] -> shape real = [B; T; C; H; W] ->
  shape input_real = [B; Tin; C; H; W] ->
  wf fake -> wf real -> wf input_real ->
  0 < B -> 0 < T -> 0 < C ->
  (seq_mode D = true -> is_extrap D = false -> Tin = T) ->
  netG_adv_input env D fake input_real = Some f ->
  inputs_on env = weights_on D ->
  layers_shape (all_layers D) (shape f) = Some s ->
  labels_fit env D = Some () ->
  valid_inputs env D in_ch real fake input_real.
Proof.
  intros HD0 HD Hf Hr Hi Hwf Hwr Hwi HB HT HC Hint Hin Hdev Hs Hlab.
  apply labels_fit_Some in Hlab as [Hav Hlab].
  apply Discriminator_to_Some in HD as (_ & _ & _ & _ & _ & _ & Hlay & _).
  rewrite Hlay in Hs.
  assert (Hsizes : forall n c h w, shape f = [n; c; h; w] ->
            Z.of_nat c = in_ch /\ 8 <= h /\ 8 <= w /\ (16 <= h \/ 16 <= w)).
  { intros n c h w Hsf. rewrite Hsf in Hs.
    destruct (discriminator_layers_shape env D0 id in_ch dev sq ex n c h w HD0)
      as [Hinv _].
    destruct (Hinv s Hs) as (Hc & Hh & Hw & _).
    split_and!; [done..|]. by eapply discriminator_layers_need_16. }
  split; [|split].
  { split_and!; [done|done|]. by rewrite <- Hlab. }
  { intros Hsq Hex. revert Hin. unfold netG_adv_input, size5, clone. rewrite Hf, Hsq, Hex.
    cbn [mbind option_bind].
    destruct (rearrange_seq_interp env None fake input_real true) as [out|] eqn:Hq;
      [|done].
    intros _. by eapply (rearrange_seq_interp_device env None fake input_real true). }
  exists B, T, Tin, C, H, W.
  revert Hin. unfold netG_adv_input, size5, clone. rewrite Hf.
  cbn [mbind option_bind].
  destruct (seq_mode D) eqn:Hsq; [destruct (is_extrap D) eqn:Hex|].
  - destruct (rearrange_seq None fake input_real true) as [[fs|??]|] eqn:Hq;
      [|done..].
    cbn. intros [= ->].
    destruct (rearrange_seq_batch None fake input_real f B T C H W Hf Hq) as [k Hk].
    destruct (Hsizes _ _ _ _ Hk) as (_ & Hh & Hw & H16).
    destruct (decide (T <= Tin + 1)) as [HTin|HTin].
    2:{ rewrite (rearrange_seq_few_frames None fake input_real true B T Tin C H W)
          in Hq by (done || lia). done. }
    destruct (rearrange_seq_returns real fake input_real B T Tin C H W)
      as (rs & fs & _ & Hfs & Hsh & _); [done..|lia|lia|].
    rewrite Hq in Hfs. injection Hfs as <-.
    destruct (Hsizes _ _ _ _ Hsh) as (Hc & _).
    done.
  - specialize (Hint eq_refl eq_refl). subst Tin.
    destruct (rearrange_seq_interp env None fake input_real true) as [[fs|??]|] eqn:Hq;
      [|done..].
    cbn. intros [= ->].
    pose proof (rearrange_seq_interp_device _ _ _ _ _ B T C H W _ Hf HT Hq) as Hcuda.
    destruct (rearrange_seq_interp_batch env None fake input_real f B T C H W Hf Hq)
      as [k Hk].
    destruct (Hsizes _ _ _ _ Hk) as (_ & Hh & Hw & H16).
    destruct (rearrange_seq_interp_returns env real fake input_real B T C H W)
      as (rs & fs & _ & Hfs & Hsh & _); [done..|lia|lia|].
    rewrite Hq in Hfs. injection Hfs as <-.
    destruct (Hsizes _ _ _ _ Hsh) as (Hc & _).
    done.
  - rewrite view_flatten_eq.
    destruct (_ || _); [done|]. cbn. intros [= <-].
    destruct (Hsizes _ _ _ _ eq_refl) as (Hc & Hh & Hw & H16).
    done.
Qed.

(** X11.  For a discriminator built for [in_ch] channels and moved to a
    device, well-formed [fake] and [real] of one shape (B,T,C,H,W), B, T,
    C positive, and a conditioning tensor of shape (B,Tin,C,H,W) (with
    Tin = T in interpolation mode), both losses return exactly when the
    inputs lie on the device of the parameters, which is also the one the
    discriminator records for its labels (and, in interpolation mode, the
    current CUDA device), the images are at least 8 by 8 with one side at
    least 16 and the prepared batch has the channel count the
    discriminator was built for: (Tin+1)*C with at least T-1 conditioning
    frames in extrapolation mode, T*C in interpolation mode, C without
    sequence mode. *)
Theorem losses_return_iff_valid (env : runtime) (D0 D : Discriminator) (id : nat)
    (in_ch : Z) (dev : device) (sq ex : bool) (d : device)
    (real fake input_real : tensor A) (B T Tin C H W : nat) :
  Discriminator_init env id in_ch dev sq ex = Some D0 ->
  Discriminator_to env D0 d = Some D ->
  shape fake = [B; T; C; H; W] -> shape real = [B; T; C; H; W] ->
  shape input_real = [B; Tin; C; H; W] ->
  wf fake -> wf real -> wf input_real ->
  0 < B -> 0 < T -> 0 < C ->
  (seq_mode D = true -> is_extrap D = false -> Tin = T) ->
  (is_Some (netD_adv_loss env D real fake input_real) <->
     valid_inputs env D in_ch real fake input_real) /\
  (is_Some (netG_adv_loss env D fake input_real) <->
     valid_inputs env D in_ch real fake input_real) /\
  (valid_inputs env D in_ch real fake input_real <->
     (d = inputs_on env /\ dev = inputs_on env) /\
     (sq = true -> ex = false -> cuda_device env = Some (inputs_on env)) /\
     8 <= H /\ 8 <= W /\ (16 <= H \/ 16 <= W) /\
     if sq then
       if ex then T <= Tin + 1 /\ Z.of_nat ((Tin + 1) * C) = in_ch
       else Z.of_nat (T * C) = in_ch
     else Z.of_nat C = in_ch).
Proof.
  intros HD0 HD Hf Hr Hi Hwf Hwr Hwi HB HT HC Hint.
  split_and!.
  - split.
    + rewrite netD_adv_loss_unfold.
      destruct (netD_adv_inputs env D real fake input_real) as [[r f]|] eqn:Hin;
        [|by intros [? ?]].
      cbn [mbind option_bind].
      destruct (forward env D (detach f)) as [pf|] eqn:Hpf; [|by intros [? ?]].
      cbn [mbind option_bind].
      destruct (forward env D r) as [pr|] eqn:Hpr; [|by intros [? ?]].
      cbn [mbind option_bind].
      destruct (labels_fit env D) as [[]|] eqn:Hlab; [|by intros [? ?]].
      intros _. pose proof (forward_device _ _ _ _ Hpf) as Hdev.
      apply forward_inv in Hpf as (Hl & _).
      apply netD_fake_is_netG_input in Hin.
      by eapply (prepared_fake_valid env D0 D id in_ch dev sq ex d
                   real fake input_real f).
    + intros Hv.
      by destruct (adv_losses_return env D0 D id in_ch dev sq ex d
                     real fake input_real).
  - split.
    + rewrite netG_adv_loss_unfold.
      destruct (netG_adv_input env D fake input_real) as [f|] eqn:Hin;
        [|by intros [? ?]].
      cbn [mbind option_bind].
      destruct (forward env D f) as [pf|] eqn:Hpf; [|by intros [? ?]].
      cbn [mbind option_bind].
      destruct (labels_fit env D) as [[]|] eqn:Hlab; [|by intros [? ?]].
      intros _. pose proof (forward_device _ _ _ _ Hpf) as Hdev.
      apply forward_inv in Hpf as (Hl & _).
      by eapply (prepared_fake_valid env D0 D id in_ch dev sq ex d
                   real fake input_real f).
    + intros Hv.
      by destruct (adv_losses_return env D0 D id in_ch dev sq ex d
                     real fake input_real).
  - apply Discriminator_init_Some in HD0 as [_ ->].
    apply Discriminator_to_Some in HD as (Hav & Hw & _ & Hdv & Hsq & Hex & _).
    cbn [device_of seq_mode is_extrap] in Hdv, Hsq, Hex.
    unfold valid_inputs, one_device. rewrite Hw, Hdv, Hsq, Hex.
    rewrite Hsq, Hex in Hint.
    split.
    + intros ((Hd1 & Hd2 & _) & Hcuda & B' & T' & Tin' & C' & H' & W' &
              (Hf' & Hr' & Hi') & _ & (_ & _ & _ & HH & HW & H16) & Hmode).
      rewrite Hf in Hf'. injection Hf' as <- <- <- <- <-.
      rewrite Hi in Hi'. injection Hi' as <-.
      split_and!; [done..|].
      destruct sq; [destruct ex|]; [done|by destruct Hmode|done].
    + intros ((Hd1 & Hd2) & Hcuda & HH & HW & H16 & Hmode).
      split_and!; [done|done|by rewrite <- Hd1|done|].
      exists B, T, Tin, C, H, W. split_and!; try done.
      destruct sq eqn:Hsq'; [destruct ex eqn:Hex'|]; [done| |done].
      split; [by apply Hint|done].
Qed.

End PreparedInputs.

(** ** create_netD: failure and fit *)

(** X12.  [create_netD] raises exactly when the derived sequence length
    is negative or too large for the sequence-level discriminator's first
    convolution to be allocated, the machine lacks the device, or the
    learning rate is negative or NaN (the optimizer refuses it).  The
    sequence length is negative when [sample_size] is below -2 with
    [extrap] set and below 0 otherwise. *)
Theorem create_netD_raises_iff_negative (env : runtime) (opt : options)
    (dev : device) :
  (create_netD env opt dev = None <->
     (seq_len_of opt < 0)%Z \/ ~ allocatable env (3 * seq_len_of opt) \/
     available env dev = false \/ (0 <=? lr opt)%float = false) /\
  ((seq_len_of opt < 0)%Z <->
     (sample_size opt < (if extrap opt then -2 else 0))%Z).
Proof.
  split.
  - pose proof (Discriminator_init_is_Some env 0 3 dev false (extrap opt)) as Himg.
    pose proof (Discriminator_init_is_Some env 1 (3 * seq_len_of opt) dev true
                  (extrap opt)) as Hseq.
    unfold create_netD.
    destruct (Discriminator_init env 0 3 dev false (extrap opt)) as [D0|] eqn:H0.
    2:{ split; [intros _|done]. right; left. intros [_ Hbig].
        destruct Himg as [_ Himg]. destruct Himg as [? ?]; [|done].
        split; [lia|]. split; [lia|done]. }
    destruct (Discriminator_init env 1 (3 * seq_len_of opt) dev true (extrap opt))
      as [D1|] eqn:H1.
    2:{ split; [intros _|].
        - destruct (decide (0 <= 3 * seq_len_of opt)%Z) as [Hnn|Hneg]; [|left; lia].
          right; left. intros Hal. destruct Hseq as [_ Hseq].
          by destruct Hseq as [? ?].
        - intros _. cbn [mbind option_bind].
          by destruct (Discriminator_to env D0 dev). }
    destruct Himg as [Himg _], Hseq as [Hseq _].
    destruct Himg as [_ Hal3]; [by eexists|].
    destruct Hseq as [Hnn Hal]; [by eexists|].
    apply Discriminator_init_Some in H0 as [_ ->], H1 as [_ ->].
    cbn [mbind option_bind]. unfold Discriminator_to, to_device.
    destruct (available env dev) eqn:Hav; cbn [mbind option_bind].
    2:{ split; [intros _; by right; right; left|done]. }
    unfold Adamax_init.
    destruct (0 <=? lr opt)%float eqn:Hlr.
    2:{ split; [intros _; by right; right; right|done]. }
    split; [done|]. intros [?|[?|[?|?]]]; [lia|done..].
  - unfold seq_len_of.
    pose proof (Z.div_mod (sample_size opt) 2 ltac:(lia)).
    pose proof (Z.mod_pos_bound (sample_size opt) 2 ltac:(lia)).
    destruct (irregular opt), (extrap opt); cbn [andb negb]; lia.
Qed.

Section CreateFits.
Context {A : Type} {SA : Scalar A} {LA : LossScalar A} {KA : Kernels A}.

(** X13.  The two discriminators [create_netD] returns fit the batches
    the sequence length was derived for, when these lie on the device
    given to [create_netD] (which, without [extrap], must be the current
    CUDA device): with 3-channel images of valid size, T target frames
    and, in extrapolation mode, seq_len - 1 conditioning frames (T equal
    to seq_len in interpolation mode), both losses of both discriminators
    return. *)
Theorem create_netD_discriminators_fit (env : runtime) (opt : options)
    (dev : device) (netD_img netD_seq : Discriminator) (optimizer_netD : Adamax)
    (real fake input_real : tensor A) (B T Tin H W : nat) :
  create_netD env opt dev = Some (netD_img, netD_seq, optimizer_netD) ->
  inputs_on env = dev ->
  (extrap opt = false -> cuda_device env = Some dev) ->
  shape fake = [B; T; 3; H; W] -> shape real = [B; T; 3; H; W] ->
  shape input_real = [B; Tin; 3; H; W] ->
  wf fake -> wf real -> wf input_real ->
  0 < B -> 0 < T -> 8 <= H -> 8 <= W -> 16 <= H \/ 16 <= W ->
  (if extrap opt then T <= Tin + 1 /\ Z.of_nat (Tin + 1) = seq_len_of opt
   else Tin = T /\ Z.of_nat T = seq_len_of opt) ->
  is_Some (netD_adv_loss env netD_img real fake input_real) /\
  is_Some (netG_adv_loss env netD_img fake input_real) /\
  is_Some (netD_adv_loss env netD_seq real fake input_real) /\
  is_Some (netG_adv_loss env netD_seq fake input_real).
Proof.
  intros Hcreate Hdev Hcuda Hf Hr Hi Hwf Hwr Hwi HB HT HH HW H16 Hlen.
  unfold create_netD in Hcreate.
  destruct (Discriminator_init env 0 3 dev false (extrap opt)) as [img0|] eqn:Himg;
    [|done].
  cbn [mbind option_bind] in Hcreate.
  destruct (Discriminator_to env img0 dev) as [img|] eqn:Himg'; [|done].
  cbn [mbind option_bind] in Hcreate.
  destruct (Discriminator_init env 1 (3 * seq_len_of opt) dev true (extrap opt))
    as [sq0|] eqn:Hsq; [|done].
  cbn [mbind option_bind] in Hcreate.
  destruct (Discriminator_to env sq0 dev) as [sq|] eqn:Hsq'; [|done].
  cbn [mbind option_bind] in Hcreate.
  destruct (Adamax_init _ _); [|done].
  cbn [mbind option_bind] in Hcreate. injection Hcreate as <- <- _.
  pose proof (Discriminator_to_Some _ _ _ _ Himg')
    as (Hav & Hwi' & _ & Hdi & Hmi & _).
  pose proof (Discriminator_to_Some _ _ _ _ Hsq')
    as (_ & Hws & _ & Hds & Hms & Hes & _).
  pose proof (Discriminator_init_Some _ _ _ _ _ _ _ Himg) as [_ Ei].
  pose proof (Discriminator_init_Some _ _ _ _ _ _ _ Hsq) as [_ Es].
  rewrite Ei in Hdi, Hmi. rewrite Es in Hds, Hms, Hes.
  cbn [device_of seq_mode is_extrap] in Hdi, Hmi, Hds, Hms, Hes.
  destruct (adv_losses_return env img0 img 0 3 dev false (extrap opt) dev
              real fake input_real Himg Himg') as [HD HG].
  { split; [|split].
    - split_and!; [congruence|congruence|by rewrite Hdev].
    - intros Hm. by rewrite Hmi in Hm.
    - exists B, T, Tin, 3, H, W. split_and!; try done; try lia. by rewrite Hmi. }
  destruct (adv_losses_return env sq0 sq 1 (3 * seq_len_of opt) dev true (extrap opt)
              dev real fake input_real Hsq Hsq') as [HDs HGs].
  { split; [|split].
    - split_and!; [congruence|congruence|by rewrite Hdev].
    - intros _ Hex. rewrite Hes in Hex. rewrite Hdev. by apply Hcuda.
    - exists B, T, Tin, 3, H, W. split_and!; try done; try lia.
      rewrite Hms, Hes. destruct (extrap opt); destruct Hlen as [H1 H2]; split; lia. }
  done.
Qed.

End CreateFits.

(** ** ConvNormAct, whatever the activation *)

Section ConvNormActShape.
Context {A : Type} {KA : Kernels A}.




End ConvNormActShape.

(** ** Interpolation variants need matching frame counts *)

Section InterpMismatch.
Context {A : Type} {SA : Scalar A}.

Lemma broadcast_shapes_mask_mismatch (T B Tin C H W : nat) :
  T <> Tin -> T <> 1 -> Tin <> 1 ->
  broadcast_shapes [1; T; 1; 1; 1] [B; Tin; C; H; W] = None.
Proof.
  intros Hne HT HTin. apply Nat.eqb_neq in Hne, HT, HTin.
  cbn [broadcast_shapes]. rewrite Hne, HT, HTin.
  by destruct W as [|[|W]], H as [|[|H]], C as [|[|C]].
Qed.

(** X4.  [rearrange_seq_interp] raises when the conditioning tensor and
    [fake] differ in their number of frames and neither number is 1: the
    mask row cannot be broadcast against the conditioning tensor. *)
Theorem rearrange_seq_interp_frame_mismatch (env : runtime)
    (r : option (tensor A)) (fake input_real : tensor A) (only_fake : bool)
    (B T C H W B' Tin C' H' W' : nat) :
  shape fake = [B; T; C; H; W] ->
  shape input_real = [B'; Tin; C'; H'; W'] ->
  T <> Tin -> T <> 1 -> Tin <> 1 ->
  rearrange_seq_interp env r fake input_real only_fake = None.
Proof.
  intros Hf Hi Hne HT HTin.
  unfold rearrange_seq_interp, size5. rewrite Hf. cbn [mbind option_bind].
  destruct (cuda_device env) as [mask_on|]; [|done]. cbn [mbind option_bind].
  destruct T as [|T']; [done|].
  rewrite (for_range_None _ (S T') 0); [done|lia|].
  unfold interp_variant, clone.
  rewrite index0_eye by lia. cbn [mbind option_bind].
  rewrite view_row. cbn [mbind option_bind fmap option_fmap option_map].
  destruct (same_device mask_on (inputs_on env)); [|done].
  cbn [mbind option_bind].
  unfold tmul, binop, rsub, unop, align. cbn [shape]. rewrite Hi.
  cbn [length Nat.max Nat.sub replicate app].
  by rewrite broadcast_shapes_mask_mismatch.
Qed.

End InterpMismatch.

(** ** A target with more frames than [fake] *)

Section LongerReal.
Context {A : Type} {SA : Scalar A} {LA : LossScalar A} {KA : Kernels A}.

Lemma stack_windows_prefix (src input_real : tensor A) (B T Ts Tin C H W : nat) :
  shape src = [B; Ts; C; H; W] -> shape input_real = [B; Tin; C; H; W] ->
  wf src -> wf input_real ->
  0 < T -> T <= Ts -> T <= Tin + 1 -> 0 < B -> 0 < H -> 0 < W ->
  exists ws out,
    for_range (seq_window src input_real) (seq 0 T) [] = Some ws /\
    stack_view ws B T H W = Some out /\
    shape out = [B * T; (Tin + 1) * C; H; W] /\
    forall i b k c idx, i < T -> b < B -> k < Tin + 1 -> c < C ->
      get out ((i * B + b) :: (k * C + c) :: idx) =
        if k <? Tin - i then get input_real (b :: (i + k) :: c :: idx)
        else get src (b :: (k - (Tin - i)) :: c :: idx).
Proof.
  intros Hs Hi Hws Hwi HT HTs HTin HB HH HW.
  destruct (for_range_seq (seq_window src input_real) T) as (ws & Hfor & Hlen & Hlook).
  { intros i Hlt.
    destruct (seq_window_spec src input_real B Ts Tin C H W i) as (win & -> & _);
      [done..|lia|done]. }
  assert (Hall : forall i win, ws !! i = Some win ->
    shape win = [B; Tin + 1; C; H; W] /\ wf win /\
    graph win = graph input_real ∪ graph src /\
    forall b k idx, b < B -> k < Tin + 1 ->
      get win (b :: k :: idx) =
        if k <? Tin - i then get input_real (b :: (i + k) :: idx)
        else get src (b :: (k - (Tin - i)) :: idx)).
  { intros i win Hwin.
    assert (Hlt : i < T) by (apply lookup_lt_Some in Hwin; lia).
    rewrite Hlook in Hwin by done.
    destruct (seq_window_spec src input_real B Ts Tin C H W i)
      as (win' & Hw' & Hsh & Hwf & Hgr & Hget); [done..|lia|].
    replace win' with win in * by congruence.
    replace (Tin - i + (i + 1)) with (Tin + 1) in * by lia. done. }
  destruct (stack_view_spec ws B T (Tin + 1) C H W (graph input_real ∪ graph src))
    as (out & Hout & Hsh & Hdata & Hgr & Hget); [done..| | |].
  { apply Forall_lookup. intros i win Hwin. by destruct (Hall i win Hwin) as (? & ? & _). }
  { apply Forall_lookup. intros i win Hwin. by destruct (Hall i win Hwin) as (? & ? & ? & _). }
  exists ws, out. split_and!; [done..|].
  intros i b k c idx Hlt Hb Hk Hc.
  destruct (lookup_lt_is_Some_2 ws i) as [win Hwin]; [lia|].
  rewrite (Hget i b k c idx win) by done.
  destruct (Hall i win Hwin) as (_ & _ & _ & Hgw). by apply Hgw.
Qed.

(** X3.  The time length is read from [fake] alone: a [real] with more
    frames than [fake] is accepted, its windows are built from its first
    T frames, and the frames beyond are never read.  A discriminator in
    sequence extrapolation mode scores these windows. *)
Theorem rearrange_seq_reads_real_prefix (real fake input_real : tensor A)
    (B T Tr Tin C H W : nat) :
  shape fake = [B; T; C; H; W] ->
  shape real = [B; Tr; C; H; W] ->
  shape input_real = [B; Tin; C; H; W] ->
  wf fake -> wf real -> wf input_real ->
  0 < T -> T <= Tr -> T <= Tin + 1 -> 0 < B -> 0 < H -> 0 < W ->
  exists real_seqs fake_seqs,
    rearrange_seq (Some real) fake input_real false =
      Some (RealFake real_seqs fake_seqs) /\
    shape real_seqs = [B * T; (Tin + 1) * C; H; W] /\
    shape fake_seqs = [B * T; (Tin + 1) * C; H; W] /\
    (forall i b k c y x, i < T -> b < B -> k < Tin + 1 -> c < C -> y < H -> x < W ->
       get real_seqs [i * B + b; k * C + c; y; x] =
         (if k <? Tin - i then get input_real [b; i + k; c; y; x]
          else get real [b; k - (Tin - i); c; y; x]) /\
       k - (Tin - i) < T) /\
    (forall env D, seq_mode D = true -> is_extrap D = true ->
       netD_adv_inputs env D real fake input_real = Some (real_seqs, fake_seqs)).
Proof.
  intros Hf Hr Hi Hwf Hwr Hwi HT HTr HTin HB HH HW.
  destruct (stack_windows_prefix fake input_real B T T Tin C H W)
    as (fws & fout & Hffor & Hfst & Hfsh & _); [done..|].
  destruct (stack_windows_prefix real input_real B T Tr Tin C H W)
    as (rws & rout & Hrfor & Hrst & Hrsh & Hrget); [done..|].
  assert (Hrun : rearrange_seq (Some real) fake input_real false =
                   Some (RealFake rout fout)).
  { unfold rearrange_seq, size5. rewrite Hf. cbn [mbind option_bind].
    rewrite Hffor. cbn [mbind option_bind]. rewrite Hfst. cbn [mbind option_bind].
    rewrite Hrfor. cbn [mbind option_bind]. by rewrite Hrst. }
  exists rout, fout. split_and!; [done..| |].
  - intros i b k c y x Hlt Hb Hk Hc Hy Hx. split; [by apply Hrget|lia].
  - intros env D Hsq Hex. unfold netD_adv_inputs, clone. by rewrite Hsq, Hex, Hrun.
Qed.

End LongerReal.

(** ** A target with fewer frames than [fake] *)

Section ShorterReal.
Context {A : Type}.

(** The shape of a window, for any step: slicing clamps at both ends. *)
Lemma seq_window_shape (src input_real : tensor A) (B Ts Tin i : nat)
    (rest : list nat) :
  shape src = B :: Ts :: rest -> shape input_real = B :: Tin :: rest ->
  exists win, seq_window src input_real i = Some win /\
    shape win = B :: ((Tin - i) + (i + 1) `min` Ts) :: rest.
Proof.
  intros Hs Hi. unfold seq_window, clone.
  rewrite (slice1_eq input_real _ _ _ i None Hi).
  rewrite (slice1_eq src _ _ _ 0 (Some (i + 1)) Hs).
  cbn [mbind option_bind].
  erewrite cat1_eq; [|reflexivity|reflexivity].
  eexists. split; [done|]. cbn [shape default]. unfold id. do 2 f_equal. lia.
Qed.

(** X14.  A [real] with fewer frames than [fake] (which has at least two)
    cannot be rearranged: its windows differ in length, and
    [rearrange_seq] raises when asked for the pair, although the fake
    windows alone are returned. *)
Theorem rearrange_seq_short_real (real fake input_real : tensor A)
    (B T Tr Tin C H W : nat) :
  shape fake = [B; T; C; H; W] ->
  shape real = [B; Tr; C; H; W] ->
  shape input_real = [B; Tin; C; H; W] ->
  wf fake -> wf input_real ->
  2 <= T -> Tr < T -> T <= Tin + 1 -> 0 < B -> 0 < H -> 0 < W ->
  rearrange_seq (Some real) fake input_real false = None /\
  is_Some (rearrange_seq (Some real) fake input_real true).
Proof.
  intros Hf Hr Hi Hwf Hwi HT HTr HTin HB HH HW.
  destruct (stack_windows_spec fake input_real B T Tin C H W)
    as (fws & fout & Hffor & Hfst & _); [done..|lia|done|done|done|done|].
  destruct (for_range_seq (seq_window real input_real) T) as (ws & Hfor & Hlen & Hlook).
  { intros i Hlt.
    destruct (seq_window_shape real input_real B Tr Tin i [C; H; W]) as (win & -> & _);
      done. }
  destruct (seq_window_shape real input_real B Tr Tin 0 [C; H; W])
    as (w0 & Hw0 & Hs0); [done..|].
  destruct (seq_window_shape real input_real B Tr Tin (T - 1) [C; H; W])
    as (wl & Hwl & Hsl); [done..|].
  unfold rearrange_seq, size5. rewrite Hf. cbn [mbind option_bind].
  rewrite Hffor. cbn [mbind option_bind]. rewrite Hfst. cbn [mbind option_bind].
  split; [|by eexists].
  rewrite Hfor. cbn [mbind option_bind].
  unfold stack_view.
  rewrite (cat0_mismatch ws w0 wl (T - 1)); [done| | |].
  - rewrite Hlook by lia. done.
  - rewrite Hlook by lia. done.
  - rewrite Hs0, Hsl. cbn [drop]. intros [= Heq]. destruct Tr; lia.
Qed.

End ShorterReal.

(** ** A single conditioning frame is broadcast *)

Section InterpBroadcast.
Context {A : Type} {SA : Scalar A}.

Lemma broadcast_shapes_single_frame (B T C H W : nat) :
  T <> 1 ->
  broadcast_shapes [1; T; 1; 1; 1] [B; 1; C; H; W] = Some [B; T; C; H; W].
Proof.
  intros HT. apply Nat.eqb_neq in HT. cbn [broadcast_shapes]. rewrite HT.
  by destruct W as [|[|W]], H as [|[|H]], C as [|[|C]], B as [|[|B]].
Qed.

(** A tensor with one frame, expanded along time: every frame of the
    result is that frame. *)
Lemma expand_single_frame (B T : nat) (rest : list nat) (d : list A) :
  length d = B * numel rest -> T <> 1 ->
  expand (B :: 1 :: rest) (B :: T :: rest) d =
  mjoin (map (fun b => mjoin (replicate T (take (numel rest) (drop (b * numel rest) d))))
             (seq 0 B)).
Proof.
  intros Hd HT. rewrite expand_cons, Nat.eqb_refl. f_equal.
  apply map_ext_in. intros b Hb. apply in_seq in Hb.
  rewrite numel_cons, Nat.mul_1_l.
  set (blk := take (numel rest) (drop (b * numel rest) d)).
  assert (Hblk : length blk = numel rest).
  { unfold blk. apply (block_length d (numel rest) B); [done|lia]. }
  rewrite expand_cons.
  assert ((1 =? T) = false) as -> by (apply Nat.eqb_neq; lia).
  cbn [seq map]. rewrite join_one, Nat.mul_0_l, drop_0.
  rewrite (take_ge blk) by lia.
  by rewrite expand_same.
Qed.

Lemma length_expand_single_frame (B T : nat) (rest : list nat) (d : list A) :
  length d = B * numel rest -> T <> 1 ->
  length (expand (B :: 1 :: rest) (B :: T :: rest) d) = B * (T * numel rest).
Proof.
  intros Hd HT. rewrite expand_single_frame by done.
  apply length_join_blocks. intros b Hb.
  rewrite (length_join_uniform _ (numel rest)).
  - by rewrite length_replicate.
  - apply Forall_forall. intros l Hl. apply elem_of_replicate in Hl as [-> _].
    apply (block_length d (numel rest) B); [done|lia].
Qed.

Lemma lookup_expand_single_frame (B T : nat) (rest : list nat) (d : list A)
    (b j q : nat) :
  length d = B * numel rest -> T <> 1 ->
  b < B -> j < T -> q < numel rest ->
  expand (B :: 1 :: rest) (B :: T :: rest) d !! (b * (T * numel rest) + (j * numel rest + q)) =
  d !! (b * numel rest + q).
Proof.
  intros Hd HT Hb Hj Hq. rewrite expand_single_frame by done.
  assert (Hblk : forall b', 0 <= b' < 0 + B ->
            length (take (numel rest) (drop (b' * numel rest) d)) = numel rest).
  { intros b' Hb'. apply (block_length d (numel rest) B); [done|lia]. }
  rewrite (lookup_join_blocks _ (T * numel rest) B 0 b).
  - cbn [Nat.add].
    rewrite (lookup_join_uniform _ (numel rest)); [| |done].
    + rewrite lookup_replicate_2 by done. cbn.
      rewrite lookup_take_lt by done. by rewrite lookup_drop.
    + apply Forall_forall. intros l Hl. apply elem_of_replicate in Hl as [-> _].
      apply Hblk. lia.
  - intros b' Hb'. rewrite (length_join_uniform _ (numel rest)).
    + by rewrite length_replicate.
    + apply Forall_forall. intros l Hl. apply elem_of_replicate in Hl as [-> _].
      by apply Hblk.
  - done.
  - apply block_index_lt; lia.
Qed.

Lemma binop_mask_single_frame (f : A -> A -> A) (m x : tensor A) (B T C H W : nat) :
  shape m = [1; T; 1; 1; 1] -> shape x = [B; 1; C; H; W] -> T <> 1 ->
  binop f m x =
    Some (Tensor [B; T; C; H; W]
            (zip_with f (expand [1; T; 1; 1; 1] [B; T; C; H; W] (data m))
                        (expand [B; 1; C; H; W] [B; T; C; H; W] (data x)))
            (graph m ∪ graph x)).
Proof.
  intros Hm Hx HT. unfold binop, align. rewrite Hm, Hx.
  cbn [length Nat.max Nat.sub replicate app].
  by rewrite broadcast_shapes_single_frame.
Qed.

(** The variant of step [i] when the conditioning tensor has one frame. *)
Lemma interp_variant_single_frame (env : runtime) (src input_real : tensor A)
    (B T C H W i : nat) :
  shape src = [B; T; C; H; W] -> shape input_real = [B; 1; C; H; W] ->
  wf src -> wf input_real -> i < T -> T <> 1 ->
  exists v,
    interp_variant env (inputs_on env) (eye T) src input_real i = Some v /\
    shape v = [B; T; C; H; W] /\
    wf v /\
    graph v = graph input_real ∪ graph src /\
    forall b j idx, b < B -> j < T ->
      get v (b :: j :: idx) =
        a ← get input_real (b :: 0 :: idx);
        c ← get src (b :: j :: idx);
        Some (blend (mask_entry i j) a c).
Proof.
  intros Hs Hi Hws Hwi Hlt HT. unfold interp_variant, clone.
  rewrite index0_eye by done. cbn [mbind option_bind].
  rewrite view_row. cbn [mbind option_bind fmap option_fmap option_map].
  rewrite same_device_refl. cbn [mbind option_bind].
  set (row := map (mask_entry i) (seq 0 T)).
  assert (Hrow : length row = T) by (unfold row; by rewrite length_map, length_seq).
  unfold tmul, rsub, unop. cbn [shape data graph].
  rewrite (binop_mask_single_frame smul _ input_real B T C H W) by done.
  cbn [mbind option_bind shape data graph].
  rewrite (binop_mask smul _ src B T C H W) by done.
  cbn [mbind option_bind shape data graph].
  set (em' := expand [1; T; 1; 1; 1] [B; T; C; H; W] (map (ssub sone) row)).
  set (em := expand [1; T; 1; 1; 1] [B; T; C; H; W] row).
  set (ei := expand [B; 1; C; H; W] [B; T; C; H; W] (data input_real)).
  assert (HN : numel [C; H; W] = C * H * W) by (simpl; lia).
  assert (Hem' : length em' = B * (T * (C * H * W))).
  { unfold em'. apply length_expand_mask. by rewrite length_map. }
  assert (Hem : length em = B * (T * (C * H * W))) by (by apply length_expand_mask).
  assert (Hni : length (data input_real) = B * numel [C; H; W]).
  { rewrite Hwi, Hi. simpl. lia. }
  assert (Hei : length ei = B * (T * (C * H * W))).
  { unfold ei. rewrite length_expand_single_frame by done. by rewrite HN. }
  assert (Hns : length (data src) = B * (T * (C * H * W))).
  { rewrite Hws, Hs. simpl. lia. }
  unfold tadd.
  rewrite (binop_same sadd _ _ [B; T; C; H; W]); [|done|done| |].
  2,3: unfold wf; cbn [shape data]; rewrite length_zip_with; simpl; lia.
  eexists. split_and!; [done|done| | |].
  - unfold wf. cbn [shape data]. rewrite !length_zip_with. simpl. lia.
  - cbn [graph]. by rewrite !(left_id_L ∅ (∪)).
  - intros b j idx Hb Hj. unfold get. cbn [shape data]. rewrite Hs, Hi.
    rewrite !offset_cons by (done || lia).
    destruct (offset [C; H; W] idx) as [o|] eqn:Ho; [|done].
    apply offset_lt in Ho. cbn [fmap option_fmap option_map mbind option_bind].
    change (numel [T; C; H; W]) with (T * numel [C; H; W]).
    change (numel [1; C; H; W]) with (1 * numel [C; H; W]).
    rewrite !lookup_zip_with.
    unfold em', em, ei.
    rewrite (lookup_expand_single_frame B T [C; H; W] _ b j o) by done.
    rewrite HN in *.
    rewrite !lookup_expand_mask by (done || by rewrite length_map).
    rewrite list_lookup_fmap. unfold row.
    rewrite list_lookup_fmap, lookup_seq_lt by done. simpl.
    replace (b * (C * H * W + 0) + o) with (b * (C * H * W) + o) by lia.
    destruct (data input_real !! _) as [a|]; [|done]. simpl.
    destruct (data src !! _) as [c|]; done.
Qed.

(** X15.  Where the inputs lie on the current CUDA device, a
    conditioning tensor with a single frame is accepted where [fake] has
    several: the frame is broadcast over time, so in every variant each
    frame is blended with that one conditioning frame. *)
Theorem rearrange_seq_interp_single_frame (env : runtime)
    (fake input_real : tensor A) (B T C H W : nat) :
  cuda_device env = Some (inputs_on env) ->
  shape fake = [B; T; C; H; W] -> shape input_real = [B; 1; C; H; W] ->
  wf fake -> wf input_real ->
  1 < T -> 0 < B -> 0 < H -> 0 < W ->
  exists fake_seqs,
    (forall r, rearrange_seq_interp env r fake input_real true =
               Some (OnlyFake fake_seqs)) /\
    shape fake_seqs = [B * T; T * C; H; W] /\
    forall i b j c y x, i < T -> b < B -> j < T -> c < C -> y < H -> x < W ->
      exists a f,
        get input_real [b; 0; c; y; x] = Some a /\
        get fake [b; j; c; y; x] = Some f /\
        get fake_seqs [i * B + b; j * C + c; y; x] = Some (blend (mask_entry i j) a f).
Proof.
  intros Hdev Hf Hi Hwf Hwi HT HB HH HW.
  destruct (for_range_seq
              (interp_variant env (inputs_on env) (eye T) fake input_real) T)
    as (vs & Hfor & Hlen & Hlook).
  { intros i Hlt.
    destruct (interp_variant_single_frame env fake input_real B T C H W i)
      as (v & -> & _); [done..|lia|done]. }
  assert (Hall : forall i v, vs !! i = Some v ->
    shape v = [B; T; C; H; W] /\ wf v /\
    graph v = graph input_real ∪ graph fake /\
    forall b j idx, b < B -> j < T ->
      get v (b :: j :: idx) =
        a ← get input_real (b :: 0 :: idx);
        c ← get fake (b :: j :: idx);
        Some (blend (mask_entry i j) a c)).
  { intros i v Hv.
    assert (Hlt : i < T) by (apply lookup_lt_Some in Hv; lia).
    rewrite Hlook in Hv by done.
    destruct (interp_variant_single_frame env fake input_real B T C H W i)
      as (v' & Hv' & Hrest); [done..|lia|].
    by replace v' with v in * by congruence. }
  destruct (stack_view_spec vs B T T C H W (graph input_real ∪ graph fake))
    as (out & Hout & Hsh & _ & Hgr & Hget); [done|lia|done..| | |].
  { apply Forall_lookup. intros i v Hv. by destruct (Hall i v Hv) as (? & ? & _). }
  { apply Forall_lookup. intros i v Hv. by destruct (Hall i v Hv) as (? & ? & ? & _). }
  exists out. split_and!.
  - intros r. unfold rearrange_seq_interp, size5, clone. rewrite Hf, Hdev.
    cbn [mbind option_bind]. rewrite Hfor. cbn [mbind option_bind]. by rewrite Hout.
  - done.
  - intros i b j c y x Hlt Hb Hj Hc Hy Hx.
    destruct (get_in_range input_real [b; 0; c; y; x]) as [a Ha];
      [done|rewrite Hi; repeat constructor; (done || lia)|].
    destruct (get_in_range fake [b; j; c; y; x]) as [f Hfv];
      [done|rewrite Hf; by repeat constructor|].
    exists a, f. split_and!; [done..|].
    destruct (lookup_lt_is_Some_2 vs i) as [v Hv]; [lia|].
    rewrite (Hget i b j c [y; x] v) by done.
    destruct (Hall i v Hv) as (_ & _ & _ & Hgv).
    rewrite Hgv by done. by rewrite Ha, Hfv.
Qed.

End InterpBroadcast.

(** ** Concrete runs *)

(** The two losses on a network with zero weights: every prediction is
    0, so the discriminator loss is (1 + 0) * 0.5 and the generator loss
    is 1. *)
Example netD_adv_loss_zero_weights :
  data <$> demo cpu_only (fun D => netD_adv_loss (KA := zero_kernels) cpu_only D
                   (full [2; 1; 3; 16; 16] (f32 1) {[Source 1]})
                   (full [1; 1; 3; 16; 16] (f32 2) {[Source 2]})
                   (full [1; 1; 3; 16; 16] (f32 3) {[Source 3]})) 3 false true
  = Some [f32 0.5].
Proof. vm_compute. reflexivity. Qed.

Example netG_adv_loss_zero_weights :
  data <$> demo one_gpu (fun D => netG_adv_loss (KA := zero_kernels) one_gpu D
                   (full [1; 2; 3; 16; 16] (f32 2) {[Source 2]})
                   (full [1; 2; 3; 16; 16] (f32 3) {[Source 3]})) 6 true false
  = Some [f32 1].
Proof. vm_compute. reflexivity. Qed.

(** In sequence interpolation mode the mask is made on the current CUDA
    device: without one, or with the inputs elsewhere, the loss raises. *)
Example netG_adv_loss_interp_needs_cuda :
  demo cpu_only (fun D => netG_adv_loss (KA := zero_kernels) cpu_only D
                   (full [1; 2; 3; 16; 16] (f32 2) {[Source 2]})
                   (full [1; 2; 3; 16; 16] (f32 3) {[Source 3]})) 6 true false
  = None.
Proof. vm_compute. reflexivity. Qed.

(** With the parameters left on the CPU and the inputs on the GPU the
    network raises; so does the label when the recorded device is not the
    inputs' one. *)
Example netD_adv_loss_device_mismatch :
  (D ← Discriminator_init one_gpu 0 3 (cuda 0) false true;
   netD_adv_loss (KA := zero_kernels) one_gpu D
     (full [1; 1; 3; 16; 16] (f32 1) {[Source 1]})
     (full [1; 1; 3; 16; 16] (f32 2) {[Source 2]})
     (full [1; 1; 3; 16; 16] (f32 3) {[Source 3]})) = None /\
  (D ← Discriminator_init one_gpu 0 3 cpu false true;
   D ← Discriminator_to one_gpu D (cuda 0);
   netD_adv_loss (KA := zero_kernels) one_gpu D
     (full [1; 1; 3; 16; 16] (f32 1) {[Source 1]})
     (full [1; 1; 3; 16; 16] (f32 2) {[Source 2]})
     (full [1; 1; 3; 16; 16] (f32 3) {[Source 3]})) = None.
Proof. split; vm_compute; reflexivity. Qed.

Lemma demo_inputs_valid :
  valid_inputs cpu_only image_discriminator 3
    (full [2; 2; 3; 16; 16] (f32 1) {[Source 1]})
    (full [2; 2; 3; 16; 16] (f32 2) {[Source 2]})
    (full [2; 2; 3; 16; 16] (f32 3) {[Source 3]}).
Proof.
  split; [split; [reflexivity|split; reflexivity]|].
  split; [discriminate|].
  exists 2, 2, 2, 3, 16, 16.
  split; [split; [reflexivity|split; reflexivity]|].
  split; [split; [reflexivity|split; reflexivity]|].
  split; [|reflexivity].
  split; [lia|]. split; [lia|]. split; [lia|]. split; [lia|]. split; [lia|].
  left; lia.
Defined.

Lemma netD_adv_loss_formula_witness :
  is_Some (netD_adv_loss (KA := zero_kernels) cpu_only image_discriminator
             (full [2; 2; 3; 16; 16] (f32 1) {[Source 1]})
             (full [2; 2; 3; 16; 16] (f32 2) {[Source 2]})
             (full [2; 2; 3; 16; 16] (f32 3) {[Source 3]})).
Proof.
  destruct (netD_adv_loss_formula (KA := zero_kernels) cpu_only image_discriminator
              (full [2; 2; 3; 16; 16] (f32 1) {[Source 1]})
              (full [2; 2; 3; 16; 16] (f32 2) {[Source 2]})
              (full [2; 2; 3; 16; 16] (f32 3) {[Source 3]}))
    as (_ & _ & _ & _ & Hreturns).
  exact (Hreturns 0 3%Z cpu false true image_discriminator cpu eq_refl eq_refl
           demo_inputs_valid).
Defined.

Lemma netG_adv_loss_formula_witness :
  is_Some (netG_adv_loss (KA := zero_kernels) cpu_only image_discriminator
             (full [2; 2; 3; 16; 16] (f32 2) {[Source 2]})
             (full [2; 2; 3; 16; 16] (f32 3) {[Source 3]})).
Proof.
  destruct (netG_adv_loss_formula (KA := zero_kernels) cpu_only image_discriminator
              (full [2; 2; 3; 16; 16] (f32 2) {[Source 2]})
              (full [2; 2; 3; 16; 16] (f32 3) {[Source 3]}))
    as (_ & _ & _ & _ & Hreturns).
  exact (Hreturns 0 3%Z cpu false true image_discriminator cpu
           (full [2; 2; 3; 16; 16] (f32 1) {[Source 1]}) eq_refl eq_refl
           demo_inputs_valid).
Defined.

(** Multiplication of IEEE floats commutes, so the discriminator loss is
    0.5 times the sum in either operand order. *)
Lemma SFmul_comm (prec emax : Z) (x y : spec_float) :
  SFmul prec emax x y = SFmul prec emax y x.
Proof.
  destruct x as [sx|sx| |sx mx ex], y as [sy|sy| |sy my ey]; simpl;
    rewrite ?(xorb_comm sx sy), ?(Pos.mul_comm mx my), ?(Z.add_comm ex ey);
    reflexivity.
Qed.

Lemma float_half_commutes (v : float32) : smul v shalf = smul shalf v.
Proof. apply SFmul_comm. Qed.

(** On a run of the discriminator loss, the loss is attached to the leaf
    of [real] and to the network's parameters, and not to the leaf of
    [fake]; the generator loss is attached to the leaf of [fake]. *)
Example netD_adv_loss_attachment :
  (fun loss : tensor float32 =>
     (bool_decide (Source 1 ∈ graph loss), bool_decide (Source 2 ∈ graph loss),
      bool_decide (Weight 0 "last_conv.weight" ∈ graph loss)))
  <$> demo cpu_only (fun D => netD_adv_loss (KA := zero_kernels) cpu_only D
                     (full [1; 1; 3; 16; 16] (f32 1) {[Source 1]})
                     (full [1; 1; 3; 16; 16] (f32 2) {[Source 2]})
                     (full [1; 1; 3; 16; 16] (f32 3) {[Source 3]})) 3 false true
  = Some (true, false, true).
Proof. vm_compute. reflexivity. Qed.

Example netG_adv_loss_attachment :
  (fun loss : tensor float32 =>
     (bool_decide (Source 2 ∈ graph loss),
      bool_decide (Weight 0 "layer_1.0.weight" ∈ graph loss)))
  <$> demo cpu_only (fun D => netG_adv_loss (KA := zero_kernels) cpu_only D
                     (full [1; 1; 3; 16; 16] (f32 2) {[Source 2]})
                     (full [1; 1; 3; 16; 16] (f32 3) {[Source 3]})) 3 false true
  = Some (true, true).
Proof. vm_compute. reflexivity. Qed.

(** *** C3 *)

(** With fewer than T-1 conditioning frames the windows differ in length
    and cannot be stacked. *)
Example rearrange_seq_too_few_frames :
  rearrange_seq None (full [1; 3; 1; 1; 1] 1%Z ∅) (full [1; 1; 1; 1; 1] 0%Z ∅) true = None.
Proof. vm_compute. reflexivity. Qed.

Example rearrange_seq_run :
  rearrange_seq (Some w_real) w_fake w_input false =
    Some (RealFake
      (Tensor [2; 3; 1; 2] [0; 1; 2; 3; 20; 21; 2; 3; 20; 21; 22; 23]%Z ∅)
      (Tensor [2; 3; 1; 2] [0; 1; 2; 3; 10; 11; 2; 3; 10; 11; 12; 13]%Z ∅)).
Proof. vm_compute. reflexivity. Qed.

Lemma rearrange_seq_windows_witness :
  exists real_seqs fake_seqs,
    rearrange_seq (Some w_real) w_fake w_input false =
      Some (RealFake real_seqs fake_seqs) /\
    rearrange_seq None w_fake w_input true = Some (OnlyFake fake_seqs) /\
    shape fake_seqs = [1 * 2; (2 + 1) * 1; 1; 2] /\
    get fake_seqs [1 * 1 + 0; 1 * 1 + 0; 0; 1] = get w_fake [0; 1 - (2 - 1); 0; 0; 1].
Proof.
  destruct (rearrange_seq_windows w_real w_fake w_input 1 2 2 1 1 2)
    as (_ & rs & fs & Hpair & Hfake & Hshape & _ & Hget);
    [reflexivity|reflexivity|reflexivity|reflexivity|reflexivity|reflexivity
    |lia|lia|lia|lia|lia|].
  exists rs, fs. split; [exact Hpair|]. split; [exact (Hfake None)|].
  split; [exact Hshape|].
  destruct (Hget 1 0 1 0 0 1) as (_ & Hf & _); [lia|lia|lia|lia|lia|lia|].
  exact Hf.
Defined.

(** *** C8 *)

Lemma rearrange_seq_scenario_witness :
  exists fake_seqs,
    rearrange_seq None (full [2; 3; 3; 8; 8] 1%Z ∅) (full [2; 3; 3; 8; 8] 0%Z ∅) true =
      Some (OnlyFake fake_seqs) /\
    shape fake_seqs = [6; 12; 8; 8].
Proof.
  destruct (rearrange_seq_scenario (full [2; 3; 3; 8; 8] 1%Z ∅) (full [2; 3; 3; 8; 8] 0%Z ∅))
    as (fs & Hrun & Hshape & _);
    [reflexivity|reflexivity|vm_compute; reflexivity|vm_compute; reflexivity|].
  exists fs. split; [exact Hrun|exact Hshape].
Defined.

(** *** C4 *)

Example rearrange_seq_interp_run :
  rearrange_seq_interp one_gpu None v_fake v_input true =
    Some (OnlyFake (Tensor [2; 2; 1; 2]
            [f32 10; f32 11; f32 2; f32 3; f32 0; f32 1; f32 12; f32 13] ∅)).
Proof. vm_compute. reflexivity. Qed.

(** Without CUDA the mask cannot be made. *)
Example rearrange_seq_interp_without_cuda :
  rearrange_seq_interp cpu_only None v_fake v_input true = None.
Proof. vm_compute. reflexivity. Qed.

(** With finite IEEE entries of one sign the selection is exact. *)
Example rearrange_seq_interp_finite_floats :
  rearrange_seq_interp one_gpu None
    (Tensor [1; 2; 1; 1; 1] [f32 1.5; f32 2.5] ∅)
    (Tensor [1; 2; 1; 1; 1] [f32 0.25; f32 1e10] ∅) true =
    Some (OnlyFake (Tensor [2; 2; 1; 1] [f32 1.5; f32 1e10; f32 0.25; f32 2.5] ∅)).
Proof. vm_compute. reflexivity. Qed.


(** *** C6 and C9 *)

Lemma forward_output_shape_witness :
  exists y,
    forward (KA := zero_kernels) cpu_only image_discriminator
      (full [2; 3; 32; 24] (f32 0) ∅) = Some y /\
    shape y = [2; 64; 32 / 8 + 2; 24 / 8 + 2].
Proof.
  destruct (forward_output_shape (KA := zero_kernels) cpu_only 0 3 cpu false true
              image_discriminator image_discriminator cpu
              (full [2; 3; 32; 24] (f32 0) ∅) 2 3 32 24 eq_refl eq_refl eq_refl)
    as (_ & _ & _ & Hok).
  apply Hok; [reflexivity|lia|lia|reflexivity|lia|lia|left; lia].
Defined.

Lemma ConvNormAct_unknown_act_type_witness :
  ConvNormAct_init 64 128 4 2 1 "tanh" =
    {| main := [Conv2d 64 128 4 2 1 true; InstanceNorm2d 128] |}.
Proof.
  apply (ConvNormAct_unknown_act_type (KA := zero_kernels (A := float32))
           64 128 4 2 1 "tanh");
    discriminate.
Defined.

Example ConvNormAct_known_act_types :
  main (ConvNormAct_init 64 128 4 2 1 "relu") =
    [Conv2d 64 128 4 2 1 true; InstanceNorm2d 128; ReLU] /\
  main (ConvNormAct_init 64 128 4 2 1 "lrelu") =
    [Conv2d 64 128 4 2 1 true; InstanceNorm2d 128; LeakyReLU 0.2].
Proof. split; reflexivity. Qed.

(** With both spatial sizes below 16 the third stage is left with one
    spatial element, which instance normalisation refuses. *)
Example forward_refuses_8_by_8 :
  demo cpu_only (fun D => forward (KA := zero_kernels) cpu_only D
                            (full [2; 3; 8; 8] (f32 0) ∅)) 3 false true = None.
Proof. vm_compute. reflexivity. Qed.

(** A discriminator built for no channel is constructed, and refuses an
    input without channels: the first convolution's result has none, and
    the second convolution raises. *)
Example forward_refuses_no_channels :
  is_Some (Discriminator_init cpu_only 0 0 cpu false true) /\
  demo cpu_only (fun D => forward (KA := zero_kernels) cpu_only D
                            (full [1; 0; 16; 16] (f32 0) ∅)) 0 false true = None.
Proof. split; [by eexists|vm_compute; reflexivity]. Qed.

(** *** C5 *)

(** C5 as stated fails: in irregular mode without extrapolation the
    sequence length is the whole sample size, not its half give or take
    one. *)
Lemma seq_len_irregular_is_sample_size :
  seq_len_of irregular_options = 10%Z /\
  (sample_size irregular_options / 2 = 5)%Z /\
  ~ seq_len_is_half_adjusted irregular_options.
Proof.
  split; [reflexivity|]. split; [reflexivity|].
  unfold seq_len_is_half_adjusted. vm_compute. intros [H|[H|H]]; discriminate.
Qed.

Lemma create_netD_spec_witness :
  exists netD_img netD_seq optimizer_netD,
    create_netD cpu_only irregular_options cpu =
      Some (netD_img, netD_seq, optimizer_netD) /\
    head (all_layers netD_seq) = Some (Conv2d 30 64 4 2 1 false) /\
    param_group optimizer_netD = parameters netD_img ++ parameters netD_seq.
Proof.
  destruct (create_netD_spec cpu_only irregular_options cpu)
    as (_ & img & sq & o & Hrun & _ & _ & _ & _ & _ & _ & Hhead & Hparams & _);
    [discriminate|reflexivity|reflexivity|split; vm_compute; discriminate|].
  exists img, sq, o. split; [exact Hrun|]. split; [exact Hhead|exact Hparams].
Defined.

(** The optimizer refuses a negative learning rate, and a sample size of
    2^62 asks for a weight that cannot be allocated. *)
Example create_netD_refuses :
  create_netD cpu_only
    {| sample_size := 10; irregular := false; extrap := true; lr := (-1)%float |}
    cpu = None /\
  create_netD cpu_only
    {| sample_size := 2 ^ 62; irregular := false; extrap := true;
       lr := 0.0009765625%float |}
    cpu = None /\
  create_netD cpu_only irregular_options (cuda 0) = None.
Proof.
  split_and!; [vm_compute; reflexivity| |vm_compute; reflexivity].
  unfold create_netD.
  destruct (Discriminator_init cpu_only 1 _ cpu true _) as [D|] eqn:HD.
  - exfalso. assert (Hsome : is_Some (Discriminator_init cpu_only 1
      (3 * seq_len_of {| sample_size := 2 ^ 62; irregular := false; extrap := true;
                         lr := 0.0009765625%float |}) cpu true true))
      by (by exists D).
    apply Discriminator_init_is_Some in Hsome as [_ [Hal _]].
    vm_compute in Hal. by apply Hal.
  - by destruct (Discriminator_init cpu_only 0 3 cpu false _ ≫= _).
Qed.

(** *** C10 *)

(** C10 as stated fails: a [real] with twice as many entries as [fake] is
    accepted, read as twice as many images, and the loss is computed. *)
Lemma flatten_accepts_other_counts :
  let real := full [2; 1; 3; 16; 16] (f32 1) {[Source 1]} in
  let fake := full [1; 1; 3; 16; 16] (f32 2) {[Source 2]} in
  exists D,
    Discriminator_init cpu_only 0 3 cpu false true = Some D /\
    numel (shape real) = 1536 /\ numel (shape fake) = 768 /\
    (shape <$> (fst <$> netD_adv_inputs cpu_only D real fake fake)) =
      Some [2; 3; 16; 16] /\
    (data <$> netD_adv_loss (KA := zero_kernels) cpu_only D real fake fake) =
      Some [f32 0.5] /\
    ~ fails_iff_counts_differ cpu_only D real fake fake.
Proof.
  intros real fake. exists image_discriminator. split; [reflexivity|].
  split; [reflexivity|]. split; [reflexivity|].
  split; [vm_compute; reflexivity|]. split; [vm_compute; reflexivity|].
  intros [_ Hfail].
  assert (Hnone : netD_adv_inputs cpu_only image_discriminator real fake fake = None).
  { apply Hfail. vm_compute. discriminate. }
  apply (f_equal (fun o => shape <$> (fst <$> o))) in Hnone.
  vm_compute in Hnone. discriminate.
Qed.

Lemma flatten_reads_real_by_fake_dims_witness :
  netD_adv_inputs cpu_only image_discriminator
    (full [2; 1; 3; 16; 16] (f32 1) ∅) (full [1; 1; 3; 16; 16] (f32 2) ∅)
    (full [1; 1; 3; 16; 16] (f32 3) ∅) <> None.
Proof.
  destruct (flatten_reads_real_by_fake_dims cpu_only image_discriminator
              (full [2; 1; 3; 16; 16] (f32 1) ∅)
              (full [1; 1; 3; 16; 16] (f32 2) ∅) (full [1; 1; 3; 16; 16] (f32 3) ∅)
              1 1 3 16 16 eq_refl eq_refl) as (_ & [Hnone _] & _).
  intros Hfail. destruct (Hnone Hfail) as [Hz|Hm]; [discriminate|].
  apply Hm. reflexivity.
Defined.

(** *** Further properties *)

Lemma rearrange_seq_returns_iff_enough_frames_witness :
  rearrange_seq None (full [1; 3; 1; 1; 1] 1%Z ∅) (full [1; 1; 1; 1; 1] 0%Z ∅) true = None /\
  is_Some (rearrange_seq None w_fake w_input true).
Proof.
  split.
  - destruct (rearrange_seq_returns_iff_enough_frames
                (full [1; 3; 1; 1; 1] 1%Z ∅) (full [1; 1; 1; 1; 1] 0%Z ∅) 1 3 1 1 1 1)
      as (_ & Hfail & _); [reflexivity|reflexivity|reflexivity|reflexivity|lia|].
    apply Hfail. lia.
  - destruct (rearrange_seq_returns_iff_enough_frames w_fake w_input 1 2 2 1 1 2)
      as (_ & _ & Hiff); [reflexivity|reflexivity|reflexivity|reflexivity|lia|].
    apply Hiff; lia.
Defined.

Lemma no_time_steps_raise_witness :
  rearrange_seq None (full [2; 0; 3; 16; 16] (f32 1) ∅)
    (full [2; 2; 3; 16; 16] (f32 0) ∅) true = None.
Proof.
  destruct (no_time_steps_raise (KA := zero_kernels) cpu_only image_discriminator
              (full [2; 0; 3; 16; 16] (f32 1) ∅) (full [2; 0; 3; 16; 16] (f32 1) ∅)
              (full [2; 2; 3; 16; 16] (f32 0) ∅) 2 3 16 16 eq_refl) as (Hseq & _).
  apply Hseq.
Defined.

Lemma rearrange_seq_reads_real_prefix_witness :
  exists real_seqs fake_seqs,
    rearrange_seq (Some long_real)
      v_fake v_input false = Some (RealFake real_seqs fake_seqs) /\
    shape real_seqs = [1 * 2; (2 + 1) * 1; 1; 2].
Proof.
  destruct (rearrange_seq_reads_real_prefix
              long_real
              v_fake v_input 1 2 3 2 1 1 2)
    as (rs & fs & Hrun & Hshape & _);
    [reflexivity|reflexivity|reflexivity|reflexivity|reflexivity|reflexivity
    |lia|lia|lia|lia|lia|lia|].
  exists rs, fs. split; [exact Hrun|exact Hshape].
Defined.

Lemma rearrange_seq_interp_frame_mismatch_witness :
  rearrange_seq_interp one_gpu None (full [1; 3; 1; 1; 1] (f32 1) ∅)
    (full [1; 2; 1; 1; 1] (f32 0) ∅) true = None.
Proof.
  apply (rearrange_seq_interp_frame_mismatch one_gpu None
           (full [1; 3; 1; 1; 1] (f32 1) ∅)
           (full [1; 2; 1; 1; 1] (f32 0) ∅) true 1 3 1 1 1 1 2 1 1 1);
    [reflexivity|reflexivity|lia|lia|lia].
Defined.


Lemma Discriminator_parameters_witness :
  length (parameters image_discriminator) = 8 /\ NoDup (parameters image_discriminator).
Proof.
  destruct (Discriminator_parameters cpu_only 0 3 cpu false true image_discriminator
              eq_refl)
    as (Hpar & Hnodup & _).
  split; [|exact Hnodup]. rewrite Hpar. reflexivity.
Defined.

Lemma forward_returns_iff_witness :
  is_Some (forward (KA := zero_kernels) cpu_only image_discriminator
             (full [2; 3; 32; 24] (f32 0) ∅)) /\
  forward (KA := zero_kernels) cpu_only image_discriminator
    (full [2; 3; 8; 8] (f32 0) ∅) = None.
Proof.
  split.
  - destruct (forward_returns_iff (KA := zero_kernels) cpu_only 0 3 cpu false true
                image_discriminator image_discriminator cpu
                (full [2; 3; 32; 24] (f32 0) ∅) 2 3 32 24)
      as [Hiff _]; [reflexivity|reflexivity|reflexivity|lia|].
    apply Hiff. split; [reflexivity|]. split; [lia|]. split; [reflexivity|].
    split; [lia|]. split; [lia|]. left. lia.
  - destruct (forward_returns_iff (KA := zero_kernels) cpu_only 0 3 cpu false true
                image_discriminator image_discriminator cpu
                (full [2; 3; 8; 8] (f32 0) ∅) 2 3 8 8)
      as (_ & Hnone & _); [reflexivity|reflexivity|reflexivity|lia|].
    apply Hnone; lia.
Defined.

Lemma forward_attaches_every_parameter_witness :
  exists y,
    forward (KA := zero_kernels) cpu_only image_discriminator
      (full [1; 3; 16; 16] (f32 0) {[Source 1]}) = Some y /\
    Source 1 ∈ graph y /\ Weight 0 "last_conv.weight" ∈ graph y.
Proof.
  destruct (forward (KA := zero_kernels) cpu_only image_discriminator
              (full [1; 3; 16; 16] (f32 0) {[Source 1]})) as [y|] eqn:Hy;
    [|vm_compute in Hy; discriminate].
  exists y. split; [reflexivity|].
  destruct (forward_attaches_every_parameter cpu_only image_discriminator _ y Hy)
    as (_ & _ & Hsub & Hpar).
  split.
  - apply Hsub. apply elem_of_singleton. reflexivity.
  - apply Hpar. apply (bool_decide_unpack _). vm_compute. reflexivity.
Defined.

Lemma losses_score_the_same_fake_witness :
  exists r f,
    netD_adv_inputs cpu_only image_discriminator
      (full [1; 2; 3; 2; 2] (f32 1) ∅) (full [1; 2; 3; 2; 2] (f32 2) ∅)
      (full [1; 2; 3; 2; 2] (f32 3) ∅) = Some (r, f) /\
    netG_adv_input cpu_only image_discriminator
      (full [1; 2; 3; 2; 2] (f32 2) ∅) (full [1; 2; 3; 2; 2] (f32 3) ∅) = Some f.
Proof.
  destruct (netD_adv_inputs cpu_only image_discriminator
              (full [1; 2; 3; 2; 2] (f32 1) ∅) (full [1; 2; 3; 2; 2] (f32 2) ∅)
              (full [1; 2; 3; 2; 2] (f32 3) ∅)) as [[r f]|] eqn:Hin;
    [|vm_compute in Hin; discriminate].
  exists r, f. split; [reflexivity|].
  destruct (losses_score_the_same_fake (KA := zero_kernels) cpu_only
              image_discriminator _ _ _ r f Hin) as (HinG & _).
  exact HinG.
Defined.

Lemma image_mode_ignores_input_real_witness :
  netD_adv_loss (KA := zero_kernels) cpu_only image_discriminator
    (full [1; 1; 3; 16; 16] (f32 1) ∅) (full [1; 1; 3; 16; 16] (f32 2) ∅)
    (full [1; 1; 3; 16; 16] (f32 3) ∅) =
  netD_adv_loss (KA := zero_kernels) cpu_only image_discriminator
    (full [1; 1; 3; 16; 16] (f32 1) ∅) (full [1; 1; 3; 16; 16] (f32 2) ∅)
    (full [7] (f32 4) ∅).
Proof.
  destruct (image_mode_ignores_input_real (KA := zero_kernels) cpu_only
              image_discriminator
              (full [1; 1; 3; 16; 16] (f32 1) ∅) (full [1; 1; 3; 16; 16] (f32 2) ∅)
              (full [1; 1; 3; 16; 16] (f32 3) ∅) (full [7] (f32 4) ∅) eq_refl)
    as [HD _].
  exact HD.
Defined.

Lemma losses_return_iff_valid_witness :
  is_Some (netG_adv_loss (KA := zero_kernels) cpu_only image_discriminator
             (full [2; 2; 3; 16; 16] (f32 2) {[Source 2]})
             (full [2; 2; 3; 16; 16] (f32 3) {[Source 3]})) /\
  ~ is_Some (netG_adv_loss (KA := zero_kernels) cpu_only image_discriminator
               (full [2; 2; 4; 16; 16] (f32 2) {[Source 2]})
               (full [2; 2; 4; 16; 16] (f32 3) {[Source 3]})).
Proof.
  split.
  - destruct (losses_return_iff_valid (KA := zero_kernels) cpu_only
                image_discriminator image_discriminator 0 3 cpu false true cpu
                (full [2; 2; 3; 16; 16] (f32 1) {[Source 1]})
                (full [2; 2; 3; 16; 16] (f32 2) {[Source 2]})
                (full [2; 2; 3; 16; 16] (f32 3) {[Source 3]}) 2 2 2 3 16 16)
      as (_ & HG & _);
      [reflexivity|reflexivity|reflexivity|reflexivity|reflexivity|reflexivity
      |reflexivity|reflexivity|lia|lia|lia|discriminate|].
    apply HG. exact demo_inputs_valid.
  - destruct (losses_return_iff_valid (KA := zero_kernels) cpu_only
                image_discriminator image_discriminator 0 3 cpu false true cpu
                (full [2; 2; 4; 16; 16] (f32 1) {[Source 1]})
                (full [2; 2; 4; 16; 16] (f32 2) {[Source 2]})
                (full [2; 2; 4; 16; 16] (f32 3) {[Source 3]}) 2 2 2 4 16 16)
      as (_ & HG & Hvalid);
      [reflexivity|reflexivity|reflexivity|reflexivity|reflexivity|reflexivity
      |reflexivity|reflexivity|lia|lia|lia|discriminate|].
    intros Hsome. apply HG in Hsome. apply Hvalid in Hsome.
    destruct Hsome as (_ & _ & _ & _ & _ & Hch). discriminate Hch.
Defined.

Lemma create_netD_discriminators_fit_witness :
  exists netD_img netD_seq optimizer_netD,
    create_netD cpu_only
      {| sample_size := 4; irregular := false; extrap := true;
         lr := 0.0009765625%float |} cpu
      = Some (netD_img, netD_seq, optimizer_netD) /\
    is_Some (netD_adv_loss (KA := zero_kernels) cpu_only netD_seq
               (full [1; 2; 3; 16; 16] (f32 1) ∅) (full [1; 2; 3; 16; 16] (f32 2) ∅)
               (full [1; 2; 3; 16; 16] (f32 3) ∅)).
Proof.
  destruct (create_netD cpu_only
              {| sample_size := 4; irregular := false; extrap := true;
                 lr := 0.0009765625%float |} cpu)
    as [[[img sq] o]|] eqn:Hcreate; [|discriminate].
  exists img, sq, o. split; [reflexivity|].
  destruct (create_netD_discriminators_fit (KA := zero_kernels) cpu_only _ cpu img sq o
              (full [1; 2; 3; 16; 16] (f32 1) ∅) (full [1; 2; 3; 16; 16] (f32 2) ∅)
              (full [1; 2; 3; 16; 16] (f32 3) ∅) 1 2 2 16 16 Hcreate)
    as (_ & _ & HD & _);
    [reflexivity|discriminate
    |reflexivity|reflexivity|reflexivity|reflexivity|reflexivity|reflexivity
    |lia|lia|lia|lia|left; lia|split; [lia|reflexivity]|].
  exact HD.
Defined.

Lemma rearrange_seq_short_real_witness :
  rearrange_seq (Some (Tensor [1; 1; 1; 1; 2] [20; 21]%Z ∅)) w_fake w_input false = None.
Proof.
  destruct (rearrange_seq_short_real (Tensor [1; 1; 1; 1; 2] [20; 21]%Z ∅)
              w_fake w_input 1 2 1 2 1 1 2) as [Hnone _];
    [reflexivity|reflexivity|reflexivity|reflexivity|reflexivity
    |lia|lia|lia|lia|lia|lia|].
  exact Hnone.
Defined.

Lemma rearrange_seq_interp_single_frame_witness :
  exists fake_seqs,
    rearrange_seq_interp one_gpu None v_fake
      (Tensor [1; 1; 1; 1; 2] [f32 0; f32 1] ∅) true = Some (OnlyFake fake_seqs) /\
    shape fake_seqs = [1 * 2; 2 * 1; 1; 2].
Proof.
  destruct (rearrange_seq_interp_single_frame one_gpu v_fake
              (Tensor [1; 1; 1; 1; 2] [f32 0; f32 1] ∅) 1 2 1 1 2)
    as (fs & Hrun & Hshape & _);
    [reflexivity|reflexivity|reflexivity|reflexivity|reflexivity
    |lia|lia|lia|lia|].
  exists fs. split; [exact (Hrun None)|exact Hshape].
Defined.
